(** * Visual-regression orchestrator: capture pipeline and comparison engine

    A shallow embedding of the TypeScript sources of the visual-regression
    tool (screenshot service, comparison service, run-tests worker pool and
    the URL utilities), followed by the properties established about them.

    Conventions of the embedding.
    - A JavaScript string is a [string]; its characters stand for the code
      units the regular expressions of the source operate on.
    - A JavaScript number holding a count is a [Z]; one holding a ratio or a
      percentage is an exact rational [Q].  All quantities are finite.
    - A value that is [T | null | undefined] is a [nullable T].
    - [throw]/[catch] is an explicit [outcome]; [console], the file system
      and the calls made to external libraries are threaded as state.
    - Library functions the sources import (Node's [path] and [URL],
      pixelmatch, odiff, Playwright's page) are Section variables.
    - The repository holds several revisions of the two services; each one
      is embedded in a module of its own. *)

From Stdlib Require Import ZArith QArith Qround Lia Bool Ascii.
From Stdlib Require DecimalString DecimalNat.
From stdpp Require Import base option list gmap strings.

Open Scope Z_scope.

(* ===================================================================== *)
(** * Part I: the model                                                   *)
(* ===================================================================== *)

(** ** JavaScript values shared by all components *)

Module JS.

(** [T | null | undefined] *)
Inductive nullable (A : Type) : Type :=
| Null : nullable A
| Undefined : nullable A
| Value : A -> nullable A.
Arguments Null {A}.
Arguments Undefined {A}.
Arguments Value {A} _.

(** What a [catch (error)] clause can receive: an [Error] instance with its
    message, or any other thrown value. *)
Inductive thrown : Type :=
| ErrorObj (message : string)
| NonError (repr : string).

(** The result of evaluating a call that may throw. *)
Inductive outcome (A : Type) : Type :=
| Returned : A -> outcome A
| Thrown : thrown -> outcome A.
Arguments Returned {A} _.
Arguments Thrown {A} _.

(** [error instanceof Error ? error.message : fallback] *)
Definition message_or (fallback : string) (t : thrown) : string :=
  match t with
  | ErrorObj m => m
  | NonError _ => fallback
  end.

(** The value of an arithmetic expression over finite operands: finite,
    or one of the special values a division by zero produces. *)
Inductive num : Type :=
| Fin (q : Q)
| PosInf
| NegInf
| NaN.

(** [a / b] *)
Definition div (a b : Q) : num :=
  if Qeq_bool b 0 then
    if Qeq_bool a 0 then NaN
    else if Qle_bool 0 a then PosInf else NegInf
  else Fin (a / b).

(** [x * k] for a finite [k > 0] *)
Definition scale (x : num) (k : Q) : num :=
  match x with
  | Fin q => Fin (q * k)
  | other => other
  end.

(** [a > b] on finite operands *)
Definition Qgtb (a b : Q) : bool := negb (Qle_bool a b).

(** [x > b] for a finite [b]; every comparison with [NaN] is false *)
Definition gtb (x : num) (b : Q) : bool :=
  match x with
  | Fin q => Qgtb q b
  | PosInf => true
  | NegInf | NaN => false
  end.

(** [Math.round] of a finite number: the nearest integer, halves up. *)
Definition round (q : Q) : Z := Qfloor (q + (1 # 2)).

(** Truthiness of a string: the empty string is falsy. *)
Definition truthy (s : string) : bool :=
  match s with
  | EmptyString => false
  | String _ _ => true
  end.

(** A character class of a regular expression: ranges and single
    characters, possibly negated ([[^...]]). *)
Inductive class_item : Type :=
| Range (lo hi : ascii)
| Single (c : ascii).

Definition code (c : ascii) : N := N_of_ascii c.

Definition in_item (c : ascii) (it : class_item) : bool :=
  match it with
  | Range lo hi => (code lo <=? code c)%N && (code c <=? code hi)%N
  | Single d => (code c =? code d)%N
  end.

Definition class_matches (negated : bool) (items : list class_item)
    (c : ascii) : bool :=
  xorb negated (existsb (in_item c) items).

(** [s.replace(/[class]/g, by)]: every character matching the class is
    replaced, the others are kept. *)
Fixpoint replace_class (negated : bool) (items : list class_item)
    (by_ : string) (s : string) : string :=
  match s with
  | EmptyString => EmptyString
  | String c r =>
      if class_matches negated items c
      then by_ +:+ replace_class negated items by_ r
      else String c (replace_class negated items by_ r)
  end.

(** White space of [String.prototype.trim] among the Latin-1 code units:
    TAB, LF, VT, FF, CR, SPACE and NBSP. *)
Definition is_white_space (c : ascii) : bool :=
  match code c with
  | 9 | 10 | 11 | 12 | 13 | 32 | 160 => true
  | _ => false
  end%N.

Fixpoint all_white_space (s : string) : bool :=
  match s with
  | EmptyString => true
  | String c r => is_white_space c && all_white_space r
  end.

Fixpoint trim_start (s : string) : string :=
  match s with
  | EmptyString => EmptyString
  | String c r => if is_white_space c then trim_start r else s
  end.

(** The trailing white space starts at the leftmost position from which
    only white space remains. *)
Fixpoint trim_end (s : string) : string :=
  match s with
  | EmptyString => EmptyString
  | String c r =>
      if all_white_space s then EmptyString else String c (trim_end r)
  end.

Definition trim (s : string) : string := trim_end (trim_start s).

End JS.

(** ** Filename policy of the screenshot service
    ([ScreenshotService.generateFilename], identical in every revision) *)

Module Filename.
Import JS.

(** The class of [/[^a-zA-Z0-9_-]/g]. *)
Definition filename_class : list class_item :=
  [Range "a" "z"; Range "A" "Z"; Range "0" "9"; Single "_"; Single "-"]%char.

Definition generateFilename (scenarioId viewportKey : string) : string :=
  let safeId := replace_class true filename_class "_" scenarioId in
  let safeViewport := replace_class true filename_class "_" viewportKey in
  safeId +:+ "__" +:+ safeViewport +:+ ".png".

(** The policy in the words of the specification: a character outside
    [[A-Za-z0-9_-]] becomes an underscore. *)
Definition allowed (c : ascii) : bool :=
  let n := code c in
  ((65 <=? n) && (n <=? 90) || (97 <=? n) && (n <=? 122)
   || (48 <=? n) && (n <=? 57) || (n =? 95) || (n =? 45))%N.

Fixpoint sanitize (s : string) : string :=
  match s with
  | EmptyString => EmptyString
  | String c r => String (if allowed c then c else "_"%char) (sanitize r)
  end.

Fixpoint all_allowed (s : string) : bool :=
  match s with
  | EmptyString => true
  | String c r => allowed c && all_allowed r
  end.

Definition is_underscore (c : ascii) : bool := (code c =? 95)%N.

(** Every underscore of [s] is followed by a character that is not an
    underscore: [s] holds no ["__"] and does not end in ["_"]. *)
Fixpoint separator_free (s : string) : bool :=
  match s with
  | EmptyString => true
  | String c r =>
      if is_underscore c
      then match r with
           | EmptyString => false
           | String d _ => negb (is_underscore d) && separator_free r
           end
      else separator_free r
  end.

End Filename.

(** ** Domain substitution ([replaceDomain], utils/url) *)

Module Url.
Import JS.

(** The fields of a parsed WHATWG [URL] that the function reads. *)
Record URL : Type := mkURL {
  pathname : string;
  search : string;
  hash : string
}.

Inductive console_event : Type :=
| WarnCouldNotParse (url : string).

Fixpoint all_slashes (s : string) : bool :=
  match s with
  | EmptyString => true
  | String c r => (code c =? 47)%N && all_slashes r
  end.

(** [s.replace(/\/+$/, '')]: the leftmost position from which only
    slashes (at least one) remain up to the end is where the match
    starts; the match is deleted. *)
Fixpoint strip_trailing_slashes (s : string) : string :=
  match s with
  | EmptyString => EmptyString
  | String c r =>
      if all_slashes s then EmptyString
      else String c (strip_trailing_slashes r)
  end.

(** [!newDomain || newDomain.trim() === ''] *)
Definition no_domain (newDomain : nullable string) : bool :=
  match newDomain with
  | Null | Undefined => true
  | Value d => negb (truthy d) || bool_decide (trim d = EmptyString)
  end.

(** The string behind a [newDomain] that passed the guard. *)
Definition string_of (newDomain : nullable string) : string :=
  match newDomain with
  | Value d => d
  | Null | Undefined => EmptyString
  end.

Section ReplaceDomain.
(** [new URL(s)]: [None] when the constructor throws. *)
Variable parse_url : string -> option URL.

Definition replaceDomain (originalUrl : string)
    (newDomain : nullable string) : string * list console_event :=
  if no_domain newDomain then (originalUrl, [])
  else
    match parse_url originalUrl with
    | Some parsedOriginal =>
        let normalizedDomain :=
          strip_trailing_slashes (string_of newDomain) in
        (normalizedDomain +:+ pathname parsedOriginal
           +:+ search parsedOriginal +:+ hash parsedOriginal, [])
    | None => (originalUrl, [WarnCouldNotParse originalUrl])
    end.
End ReplaceDomain.

(** The specification's words: [k] slashes, and a string that ends in
    a slash. *)
Fixpoint slashes (k : nat) : string :=
  match k with
  | O => EmptyString
  | S k' => String "/" (slashes k')
  end.

Fixpoint ends_with_slash (s : string) : bool :=
  match s with
  | EmptyString => false
  | String c EmptyString => (code c =? 47)%N
  | String _ r => ends_with_slash r
  end.

End Url.

(** ** Bounded retry ([ScreenshotService.captureWithRetry]) *)

Module Retry.
Import JS.

(** What the event loop observes of one call of [captureWithRetry]. *)
Inductive event : Type :=
| Attempt (attempt : Z)
| Delay (ms : Z).

(** [error instanceof Error ? error : new Error('Unknown error')] *)
Definition as_error (t : thrown) : thrown :=
  match t with
  | ErrorObj m => ErrorObj m
  | NonError _ => ErrorObj "Unknown error"
  end.

Section CaptureWithRetry.
(** [config.retries] *)
Variable maxRetries retryDelay : Z.
(** The outcome of the call of [captureScreenshot] made by attempt
    number [attempt]. *)
Variable captureScreenshot : Z -> outcome string.

(** The [for] loop, one iteration per unit of fuel. *)
Fixpoint retry_loop (fuel : nat) (attempt : Z) (lastError : option thrown)
    (log : list event) : option (outcome string * list event) :=
  match fuel with
  | O => None
  | S fuel' =>
      if attempt <=? maxRetries then
        let log := log ++ [Attempt attempt] in
        match captureScreenshot attempt with
        | Returned path => Some (Returned path, log)
        | Thrown error =>
            let lastError := Some (as_error error) in
            let log :=
              if attempt <? maxRetries
              then log ++ [Delay retryDelay] else log in
            retry_loop fuel' (attempt + 1) lastError log
        end
      else
        Some (Thrown (default (ErrorObj "Screenshot capture failed")
                        lastError), log)
  end.

(** The test of the loop is evaluated once more than its body runs, and
    the body runs at most [maxRetries + 1] times. *)
Definition captureWithRetry : option (outcome string * list event) :=
  retry_loop (S (Z.to_nat (maxRetries + 1))) 0 None [].
End CaptureWithRetry.

(** The attempts [from, from+1, ...] ([n] of them) with a delay between
    consecutive ones. *)
Fixpoint attempts_with_delays (n : nat) (from : Z) (delay : Z) : list event :=
  match n with
  | O => []
  | S O => [Attempt from]
  | S n' => Attempt from :: Delay delay :: attempts_with_delays n' (from + 1) delay
  end.

Fixpoint count_attempts (log : list event) : nat :=
  match log with
  | [] => O
  | Attempt _ :: log' => S (count_attempts log')
  | Delay _ :: log' => count_attempts log'
  end.

End Retry.

(** ** Interaction executor ([ScreenshotService.executeInteractions],
    identical in the revisions of the screenshot service) *)

Module Interactions.
Import JS.

Record Interaction : Type := mkInteraction {
  type : string;
  selector : string;
  value : option string;       (* [string | null] *)
  wait_ms : option Z           (* [number | null] *)
}.

(** What is done to the page and the console, in order. *)
Inductive event : Type :=
| Click (sel : string)
| Fill (sel val : string)
| Hover (sel : string)
| WaitForTimeout (ms : Z)
| ConsoleWarn (msg : string).

Definition is_page_action (e : event) : bool :=
  match e with
  | Click _ | Fill _ _ | Hover _ => true
  | WaitForTimeout _ | ConsoleWarn _ => false
  end.

(** [interaction.wait_ms !== null && interaction.wait_ms > 0] *)
Definition positive_wait (i : Interaction) : option Z :=
  match wait_ms i with
  | Some ms => if 0 <? ms then Some ms else None
  | None => None
  end.

Definition known_type (t : string) : bool :=
  bool_decide (t = "click") || bool_decide (t = "type")
  || bool_decide (t = "mouseover") || bool_decide (t = "wait").

Section Execute.
(** Playwright's page: [click], [fill] and [hover] either succeed or
    reject, depending on everything done to the page so far;
    [waitForTimeout] is a pure delay. *)
Variable page_action : list event -> event -> option thrown.

(** One awaited page call: logged, then it either resolves or rejects. *)
Definition perform (e : event) (log : list event)
    : outcome unit * list event :=
  match page_action log e with
  | None => (Returned tt, log ++ [e])
  | Some err => (Thrown err, log ++ [e])
  end.

(** The [switch] statement. *)
Definition dispatch (i : Interaction) (log : list event)
    : outcome unit * list event :=
  if bool_decide (type i = "click") then
    if truthy (selector i) then perform (Click (selector i)) log
    else (Returned tt, log)
  else if bool_decide (type i = "type") then
    match value i with
    | Some v =>
        if truthy (selector i) then perform (Fill (selector i) v) log
        else (Returned tt, log)
    | None => (Returned tt, log)
    end
  else if bool_decide (type i = "mouseover") then
    if truthy (selector i) then perform (Hover (selector i)) log
    else (Returned tt, log)
  else if bool_decide (type i = "wait") then
    match positive_wait i with
    | Some ms => (Returned tt, log ++ [WaitForTimeout ms])
    | None => (Returned tt, log)
    end
  else
    (Returned tt,
     log ++ [ConsoleWarn ("Unknown interaction type: " +:+ type i)]).

(** The wait after the [switch], for every type but ['wait']. *)
Definition settle (i : Interaction) (log : list event) : list event :=
  if bool_decide (type i = "wait") then log
  else match positive_wait i with
       | Some ms => log ++ [WaitForTimeout ms]
       | None => log
       end.

Fixpoint executeInteractions (interactions : list Interaction)
    (log : list event) : outcome unit * list event :=
  match interactions with
  | [] => (Returned tt, log)
  | interaction :: rest =>
      match dispatch interaction log with
      | (Returned _, log1) => executeInteractions rest (settle interaction log1)
      | (Thrown err, log1) => (Thrown err, log1)
      end
  end.
End Execute.

End Interactions.

(** ** The scroll step of the stabilizer
    ([ScreenshotService.triggerLazyLoading]) *)

Module LazyScroll.

Inductive scroll_event : Type :=
| ScrollBy (dx dy : Z)
| ScrollTo (x y : Z).

(** How the promise evaluated in the page ends: the tick at which
    [resolve()] is called and the scrolling done up to then. *)
Record resolved : Type := mkResolved {
  ticks : nat;
  scrolls : list scroll_event
}.

Definition distance : Z := 300.
Definition scrollDelay : Z := 100.

(** The page as the callbacks of the interval timer see it: the clock and
    the height of the body at the [k]-th callback (the first is number
    0).  One unit of fuel is one callback. *)

(** *** Revision without guards (the earlier revisions of the service) *)
Module Plain.
Section Page.
Variable scrollHeight : nat -> Z.     (* [document.body.scrollHeight] *)

Fixpoint timer (fuel : nat) (k : nat) (totalHeight : Z)
    (log : list scroll_event) : option resolved :=
  match fuel with
  | O => None
  | S fuel' =>
      let log := log ++ [ScrollBy 0 distance] in
      let totalHeight := totalHeight + distance in
      if totalHeight >=? scrollHeight k
      then Some (mkResolved (S k) (log ++ [ScrollTo 0 0]))
      else timer fuel' (S k) totalHeight log
  end.

Definition triggerLazyLoading (fuel : nat) : option resolved :=
  timer fuel 0 0 [].
End Page.
End Plain.

(** *** Revision with a time limit and a height ceiling *)
Module Guarded.
Definition maxScrollTime : Z := 30000.
Definition maxScrollHeight : Z := 50000.

Section Page.
Variable startTime : Z.               (* [Date.now()] at the start *)
Variable now : nat -> Z.              (* [Date.now()] in a callback *)
Variable scrollHeight : nat -> Z.     (* [document.body.scrollHeight] *)

Fixpoint timer (fuel : nat) (k : nat) (totalHeight : Z)
    (log : list scroll_event) : option resolved :=
  match fuel with
  | O => None
  | S fuel' =>
      if now k - startTime >? maxScrollTime
      then Some (mkResolved (S k) (log ++ [ScrollTo 0 0]))
      else if totalHeight >=? maxScrollHeight
      then Some (mkResolved (S k) (log ++ [ScrollTo 0 0]))
      else
        let log := log ++ [ScrollBy 0 distance] in
        let totalHeight := totalHeight + distance in
        if totalHeight >=? scrollHeight k
        then Some (mkResolved (S k) (log ++ [ScrollTo 0 0]))
        else timer fuel' (S k) totalHeight log
  end.

Definition triggerLazyLoading (fuel : nat) : option resolved :=
  timer fuel 0 0 [].
End Page.
End Guarded.

(** A page that loads more content whenever it is scrolled: at each
    callback its body is one pixel taller than the distance scrolled. *)
Definition endless_page (k : nat) : Z := distance * (Z.of_nat k + 1) + 1.

(** Total distance scrolled downwards. *)
Fixpoint scrolled (log : list scroll_event) : Z :=
  match log with
  | [] => 0
  | ScrollBy _ dy :: log' => dy + scrolled log'
  | ScrollTo _ _ :: log' => scrolled log'
  end.

End LazyScroll.

(** ** Result records shared by the services ([types]) *)

Module Types.

Record TestResult : Type := mkTestResult {
  scenarioId : string;
  scenarioTitle : string;
  scenarioUrl : option string;
  baselineUrl : option string;
  viewport : string;
  passed : bool;
  diffPixels : option Z;
  diffPercentage : option JS.num;
  error : option string;
  warning : option string;
  screenshotPath : option string;
  baselinePath : option string;
  diffPath : option string
}.

End Types.

(** ** Worker pool ([ScreenshotService.worker] with [captureAll], and
    [processTask] of the run-tests command)

    JavaScript runs one callback at a time: a worker runs without
    interruption from one [await] to the next.  A worker is either about to
    claim an index ([Claiming]), suspended on the awaited work of the task it
    claimed ([Awaiting]), or has left its loop ([Exited]).  The steps below
    are finer than the real ones (a resumed worker pushes its result and
    claims again in one go), so every real schedule is a path of [step]. *)

Module Pool.
Import JS.

Inductive worker : Type :=
| Claiming
| Awaiting (currentIndex : nat)
| Exited.

#[global] Instance worker_eq_dec : EqDecision worker.
Proof. solve_decision. Defined.

Section Pool.
Context {Task Work Result Counters : Type}.
(** [tasks], and what the body of the loop does once the awaited work
    of a task has settled with [Work]: the result pushed and the
    counters updated. *)
Variable tasks : list Task.
Variable finish : Task -> Work -> Result.
Variable count : Result -> Counters -> Counters.

Record pool : Type := mkPool {
  taskIndex : nat;
  counters : Counters;
  results : list Result;
  workers : list worker;
  (* ghost: the index of the task behind each result pushed by a
     worker, in the order of the pushes *)
  pushed : list nat
}.

Inductive step : pool -> pool -> Prop :=
(* [const currentIndex = taskIndex.value++] and the index is in range:
   the task is started and the worker suspends on it *)
| step_claim (s : pool) (w : nat) :
    workers s !! w = Some Claiming ->
    (taskIndex s < length tasks)%nat ->
    step s (mkPool (S (taskIndex s)) (counters s) (results s)
              (<[w := Awaiting (taskIndex s)]> (workers s)) (pushed s))
(* [if (currentIndex >= tasks.length) break] *)
| step_exit (s : pool) (w : nat) :
    workers s !! w = Some Claiming ->
    (length tasks <= taskIndex s)%nat ->
    step s (mkPool (S (taskIndex s)) (counters s) (results s)
              (<[w := Exited]> (workers s)) (pushed s))
(* the awaited work settles (fulfilled or rejected, both caught):
   one result is pushed, the counters are updated, the loop goes on *)
| step_settle (s : pool) (w i : nat) (task : Task) (o : Work) :
    workers s !! w = Some (Awaiting i) ->
    tasks !! i = Some task ->
    step s (mkPool (taskIndex s) (count (finish task o) (counters s))
              (results s ++ [finish task o])
              (<[w := Claiming]> (workers s)) (pushed s ++ [i])).

(** [n] steps of the pool. *)
Inductive steps : nat -> pool -> pool -> Prop :=
| steps_O s : steps O s s
| steps_S n s1 s2 s3 : steps n s1 s2 -> step s2 s3 -> steps (S n) s1 s3.

(** [numWorkers] workers are created over the shared cursor, counters
    and accumulator. *)
Definition start (numWorkers : nat) (c0 : Counters) (results0 : list Result)
    : pool :=
  mkPool 0 c0 results0 (replicate numWorkers Claiming) [].

(** [await Promise.all(workers)] returns: every worker has exited. *)
Definition all_exited (s : pool) : Prop :=
  Forall (fun w => w = Exited) (workers s).

(** The indices in the hands of suspended workers. *)
Fixpoint in_flight (ws : list worker) : list nat :=
  match ws with
  | [] => []
  | Awaiting i :: ws' => i :: in_flight ws'
  | _ :: ws' => in_flight ws'
  end.

(** The steps a worker still has to make before it claims again or
    leaves, and an upper bound on the steps left to the whole pool. *)
Definition weight (w : worker) : nat :=
  match w with
  | Claiming => 1
  | Awaiting _ => 2
  | Exited => 0
  end.

Definition budget (s : pool) : nat :=
  3 * (length tasks - taskIndex s) + sum_list_with weight (workers s).

(** A result pushed for the task of index [i]. *)
Definition result_of (i : nat) (r : Result) : Prop :=
  exists (task : Task) (o : Work), tasks !! i = Some task /\ r = finish task o.

(** What holds of the pool at every moment, for a pool started with
    [numWorkers] workers over the results [results0]. *)
Record invariant (numWorkers : nat) (results0 : list Result) (s : pool)
    : Prop := mkInvariant {
  inv_claimed :
    pushed s ++ in_flight (workers s)
    ≡ₚ seq 0 (Nat.min (taskIndex s) (length tasks));
  inv_exited :
    forall w, workers s !! w = Some Exited ->
              (length tasks <= taskIndex s)%nat;
  inv_workers : length (workers s) = numWorkers;
  inv_results :
    exists rs, results s = results0 ++ rs
               /\ Forall2 result_of (pushed s) rs
}.
End Pool.

(** *** The capture pool of the screenshot service *)
Module Capture.

Record CaptureTask : Type := mkCaptureTask {
  scenario_id : string;
  scenario_title : string;
  viewport_machine_name : string;
  outputDir : string;
  index : nat
}.

Record CaptureResult : Type := mkCaptureResult {
  key : string;
  path : string;
  result_index : nat;
  error : option string
}.

(** The [try]/[catch] around [await this.captureScreenshot(...)]. *)
Definition finish (task : CaptureTask) (o : outcome string) : CaptureResult :=
  let key := scenario_id task +:+ "__" +:+ viewport_machine_name task in
  match o with
  | Returned screenshotPath =>
      mkCaptureResult key screenshotPath (index task) None
  | Thrown err =>
      mkCaptureResult key EmptyString (index task)
        (Some (message_or "Unknown error" err))
  end.

(** [++completedCount.value] *)
Definition count (_ : CaptureResult) (completedCount : nat) : nat :=
  S completedCount.

(** [Math.min(this.workers, tasks.length)] workers. *)
Definition captureAll_start (configured : nat) (tasks : list CaptureTask)
    : pool (Result := CaptureResult) :=
  start (Nat.min configured (length tasks)) O [].
End Capture.

(** *** The capture-and-compare pool of the run-tests command *)
Module RunTests.
Import Types.

Record TestTask : Type := mkTestTask {
  task_scenario_id : string;
  task_scenario_title : string;
  task_scenario_url : string;
  task_baseline_url : option string;
  viewportKey : string
}.

Record counters_t : Type := mkCounters {
  completed : nat;
  passed_count : nat;
  failed_count : nat
}.

(** The [try] block yields a result or throws; the [catch] turns what
    is thrown into a failed result. *)
Definition finish (task : TestTask) (o : outcome TestResult) : TestResult :=
  match o with
  | Returned testResult => testResult
  | Thrown err =>
      mkTestResult (task_scenario_id task) (task_scenario_title task)
        (Some (task_scenario_url task)) (task_baseline_url task)
        (viewportKey task) false None None
        (Some (message_or "Unknown error" err)) None None None None
  end.

Definition count (testResult : TestResult) (c : counters_t) : counters_t :=
  if passed testResult
  then mkCounters (S (completed c)) (S (passed_count c)) (failed_count c)
  else mkCounters (S (completed c)) (passed_count c) (S (failed_count c)).

Definition runTests_start (configured : nat) (tasks : list TestTask)
    (results0 : list TestResult) : pool (Result := TestResult) :=
  start (Nat.min configured (length tasks)) (mkCounters 0 0 0) results0.
End RunTests.

End Pool.

(** ** The file system and the external calls seen by the comparison engine

    The file system holds regular files under the paths the program uses;
    directories are implicit ([mkdirSync] with [recursive] only leaves a
    trace) and an operation fails only when the file it reads is missing or
    is not an image. *)

Module Fs.
Import JS.

Record Image : Type := mkImage {
  width : Z;
  height : Z;
  data : list Z
}.

Inductive file : Type :=
| Png (img : Image)           (* a PNG file, decoded *)
| Other (bytes : list Z).     (* anything else *)

Inductive event : Type :=
| Mkdir (dirPath : string)
| WriteFile (path : string)
| Unlink (path : string)
| CopyFile (src dest : string)
| PixelCompare (baselinePath screenshotPath : string).

Record World : Type := mkWorld {
  files : gmap string file;
  calls : list event
}.

Definition existsSync (path : string) (w : World) : bool :=
  bool_decide (is_Some (files w !! path)).

Definition log (e : event) (w : World) : World :=
  mkWorld (files w) (calls w ++ [e]).

(** [if (!fs.existsSync(dirPath)) fs.mkdirSync(dirPath, {recursive: true})] *)
Definition ensureDirectoryExists (dirPath : string) (w : World) : World :=
  if existsSync dirPath w then w else log (Mkdir dirPath) w.

Definition writeFileSync (path : string) (f : file) (w : World) : World :=
  log (WriteFile path) (mkWorld (<[path := f]> (files w)) (calls w)).

Definition unlinkSync (path : string) (w : World) : World :=
  log (Unlink path) (mkWorld (delete path (files w)) (calls w)).

(** [fs.copyFileSync(src, dest)].  The directory of [dest] is taken to be
    there: Node throws [ENOENT] when it is not, as it does for a baseline
    path whose scenario id holds a path separator. *)
Definition copyFileSync (src dest : string) (w : World)
    : outcome unit * World :=
  match files w !! src with
  | Some f =>
      (Returned tt,
       log (CopyFile src dest) (mkWorld (<[dest := f]> (files w)) (calls w)))
  | None =>
      (Thrown (ErrorObj ("ENOENT: no such file or directory, copyfile "
                         +:+ src)), w)
  end.

(** [PNG.sync.read(fs.readFileSync(imagePath))] *)
Definition loadImage (imagePath : string) (w : World) : outcome Image :=
  match files w !! imagePath with
  | Some (Png img) => Returned img
  | Some (Other _) => Thrown (ErrorObj "Invalid file signature")
  | None =>
      Thrown (ErrorObj ("ENOENT: no such file or directory, open "
                        +:+ imagePath))
  end.

(** [if (diffPath)] for an optional string parameter *)
Definition given (diffPath : option string) : option string :=
  match diffPath with
  | Some p => if truthy p then Some p else None
  | None => None
  end.

Definition is_pixel_compare (e : event) : bool :=
  match e with
  | PixelCompare _ _ => true
  | _ => false
  end.

(** The pixel comparisons made so far. *)
Definition pixel_compares (w : World) : list event :=
  List.filter is_pixel_compare (calls w).

End Fs.

(** [config], as far as the comparison service reads it. *)

Module Config.
Record VrtConfig : Type := mkConfig {
  baselineDir : string;
  diffDir : string;
  threshold : Q;
  maxDiffPixels : Q;
  maxDiffPixelRatio : Q
}.
End Config.

(** ** Comparison engine, pixelmatch revision ([services/comparison]) *)

Module Pixelmatch.
Import JS Fs Config Types.

Record ComparisonResult : Type := mkComparisonResult {
  cr_passed : bool;
  cr_diffPixels : Z;
  cr_diffPercentage : num;
  cr_totalPixels : Z;
  cr_diffPath : option string
}.

Section Service.
Variable config : VrtConfig.
(** Node's [path.join] and [path.dirname] *)
Variable path_join : string -> string -> string.
Variable path_dirname : string -> string.
(** [pixelmatch(img1, img2, output, width, height, {threshold,
    includeAA: false})]: the number of differing pixels and the pixels
    written to [output] *)
Variable pixelmatch : list Z -> list Z -> Z -> Z -> Q -> Z * list Z.

Definition evaluatePass (diffPixels : Z) (diffPercentage : num)
    (totalPixels : Z) : bool :=
  if diffPixels =? 0 then true
  else if Qgtb (inject_Z diffPixels) (maxDiffPixels config) then false
  else
    let diffRatio := div (inject_Z diffPixels) (inject_Z totalPixels) in
    if gtb diffRatio (maxDiffPixelRatio config) then false
    else true.

Definition compare (baselinePath screenshotPath : string)
    (diffPath : option string) (w : World)
    : outcome ComparisonResult * World :=
  if negb (existsSync baselinePath w) then
    (Returned (mkComparisonResult false (-1) (Fin 100) 0 None), w)
  else if negb (existsSync screenshotPath w) then
    (Thrown (ErrorObj ("Screenshot not found: " +:+ screenshotPath)), w)
  else
    match loadImage baselinePath w with
    | Thrown err => (Thrown err, w)
    | Returned baseline =>
      match loadImage screenshotPath w with
      | Thrown err => (Thrown err, w)
      | Returned screenshot =>
        if negb (width baseline =? width screenshot)
           || negb (height baseline =? height screenshot)
        then
          (Returned (mkComparisonResult false (-1) (Fin 100)
                       (width baseline * height baseline) None), w)
        else
          let totalPixels := width baseline * height baseline in
          let '(diffPixels, diffData) :=
            pixelmatch (data baseline) (data screenshot)
              (width baseline) (height baseline) (threshold config) in
          let w := log (PixelCompare baselinePath screenshotPath) w in
          let diffPercentage :=
            scale (div (inject_Z diffPixels) (inject_Z totalPixels)) 100 in
          let passed := evaluatePass diffPixels diffPercentage totalPixels in
          match given diffPath with
          | Some p =>
              if 0 <? diffPixels then
                let w := ensureDirectoryExists (path_dirname p) w in
                let diffImage :=
                  mkImage (width baseline) (height baseline) diffData in
                let w := writeFileSync p (Png diffImage) w in
                (Returned (mkComparisonResult passed diffPixels
                             diffPercentage totalPixels (Some p)), w)
              else
                (Returned (mkComparisonResult passed diffPixels
                             diffPercentage totalPixels None), w)
          | None =>
              (Returned (mkComparisonResult passed diffPixels
                           diffPercentage totalPixels None), w)
          end
      end
    end.

Definition filename (scenarioId viewportKey : string) : string :=
  scenarioId +:+ "__" +:+ viewportKey +:+ ".png".

Definition compareScreenshot (scenarioId viewportKey screenshotPath : string)
    (w : World) : TestResult * World :=
  let baselinePath := path_join (baselineDir config)
                        (filename scenarioId viewportKey) in
  let diffPath := path_join (diffDir config)
                    (filename scenarioId viewportKey) in
  if negb (existsSync baselinePath w) then
    (mkTestResult scenarioId scenarioId None None viewportKey false
       None None
       (Some "Baseline not found. Run generate-baseline first.") None
       (Some screenshotPath) (Some baselinePath) None, w)
  else
    match compare baselinePath screenshotPath (Some diffPath) w with
    | (Returned result, w) =>
        (mkTestResult scenarioId scenarioId None None viewportKey
           (cr_passed result) (Some (cr_diffPixels result))
           (Some (cr_diffPercentage result)) None None
           (Some screenshotPath) (Some baselinePath)
           (cr_diffPath result), w)
    | (Thrown err, w) =>
        (mkTestResult scenarioId scenarioId None None viewportKey false
           None None (Some (message_or "Unknown error" err)) None
           (Some screenshotPath) (Some baselinePath) None, w)
    end.

Definition baselineExists (scenarioId viewportKey : string) (w : World)
    : bool :=
  existsSync (path_join (baselineDir config)
                (filename scenarioId viewportKey)) w.

Definition copyToBaseline (screenshotPath scenarioId viewportKey : string)
    (w : World) : outcome string * World :=
  let baselinePath := path_join (baselineDir config)
                        (filename scenarioId viewportKey) in
  let w := ensureDirectoryExists (baselineDir config) w in
  match copyFileSync screenshotPath baselinePath w with
  | (Returned _, w) => (Returned baselinePath, w)
  | (Thrown err, w) => (Thrown err, w)
  end.
End Service.

End Pixelmatch.

(** ** Comparison engine, ODiff revision *)

Module ODiff.
Import JS Fs Config Types.

Record ComparisonResult : Type := mkComparisonResult {
  cr_passed : bool;
  cr_diffPixels : Z;
  cr_diffPercentage : Q;
  cr_totalPixels : Z;
  cr_diffPath : option string;
  cr_error : option string;
  cr_warning : option string
}.

(** What [compare] of odiff-bin resolves to. *)
Inductive odiff_result : Type :=
| Match
| LayoutDiff
| FileNotExists (file : string)
| PixelDiff (diffCount : Z) (diffPercentage : Q) (diffImage : Image).

Section Service.
Variable config : VrtConfig.
Variable path_join : string -> string -> string.
Variable path_dirname : string -> string.
(** odiff run on the two files with [{threshold, failOnLayoutDiff:
    true, antialiasing: true}]; it may also reject. *)
Variable odiff : file -> file -> Q -> outcome odiff_result.

Definition evaluatePass (diffPixels : Z) (diffPercentage : Q)
    (totalPixels : Z) : bool :=
  if diffPixels =? 0 then true
  else if Qgtb (inject_Z diffPixels) (maxDiffPixels config) then false
  else
    let diffRatio :=
      if 0 <? totalPixels
      then div (inject_Z diffPixels) (inject_Z totalPixels)
      else Fin 0 in
    if gtb diffRatio (maxDiffPixelRatio config) then false
    else true.

(** [if (diffPath && fs.existsSync(diffPath)) fs.unlinkSync(diffPath)] *)
Definition cleanup (diffPath : option string) (w : World) : World :=
  match given diffPath with
  | Some p => if existsSync p w then unlinkSync p w else w
  | None => w
  end.

(** The call of odiff: it reads both files and, when pixels differ,
    writes the diff image to a non-empty [diffPath]. *)
Definition run_odiff (baselinePath screenshotPath : string)
    (diffPath : option string) (w : World)
    : outcome odiff_result * World :=
  match files w !! baselinePath, files w !! screenshotPath with
  | Some base, Some cmp =>
      let w := log (PixelCompare baselinePath screenshotPath) w in
      match odiff base cmp (threshold config) with
      | Returned (PixelDiff n pct img) =>
          (Returned (PixelDiff n pct img),
           match given diffPath with
           | Some p => writeFileSync p (Png img) w
           | None => w
           end)
      | other => (other, w)
      end
  | None, _ => (Returned (FileNotExists baselinePath), w)
  | _, None => (Returned (FileNotExists screenshotPath), w)
  end.

Definition failure (message : string) : ComparisonResult :=
  mkComparisonResult false (-1) 100 0 None (Some message) None.

Definition compare (baselinePath screenshotPath : string)
    (diffPath : option string) (w : World) : ComparisonResult * World :=
  if negb (existsSync baselinePath w) then
    (failure "Baseline not found", w)
  else if negb (existsSync screenshotPath w) then
    (failure "Screenshot not found", w)
  else
    let w :=
      match given diffPath with
      | Some p => ensureDirectoryExists (path_dirname p) w
      | None => w
      end in
    match run_odiff baselinePath screenshotPath diffPath w with
    | (Thrown err, w) =>
        (failure (message_or "Unknown comparison error" err), w)
    | (Returned Match, w) =>
        (mkComparisonResult true 0 0 0 None None None, cleanup diffPath w)
    | (Returned LayoutDiff, w) =>
        (mkComparisonResult true 0 0 0 None None
           (Some "dimension-mismatch"), cleanup diffPath w)
    | (Returned (FileNotExists file), w) =>
        (failure ("File not found: " +:+ file), w)
    | (Returned (PixelDiff diffPixels diffPercentage _), w) =>
        if diffPixels =? 0 then
          (mkComparisonResult true 0 0 0 None None None,
           cleanup diffPath w)
        else
          let totalPixels :=
            if Qgtb diffPercentage 0
            then round (inject_Z diffPixels / (diffPercentage / 100))
            else 0 in
          let passed := evaluatePass diffPixels diffPercentage totalPixels in
          (mkComparisonResult passed diffPixels diffPercentage totalPixels
             (match given diffPath with
              | Some p => if existsSync p w then Some p else None
              | None => None
              end) None None, w)
    end.

Definition filename (scenarioId viewportKey : string) : string :=
  scenarioId +:+ "__" +:+ viewportKey +:+ ".png".

Definition compareScreenshot (scenarioId viewportKey screenshotPath : string)
    (w : World) : TestResult * World :=
  let baselinePath := path_join (baselineDir config)
                        (filename scenarioId viewportKey) in
  let diffPath := path_join (diffDir config)
                    (filename scenarioId viewportKey) in
  if negb (existsSync baselinePath w) then
    (mkTestResult scenarioId scenarioId (Some EmptyString) None viewportKey false
       None None
       (Some "Baseline not found. Run generate-baseline first.") None
       (Some screenshotPath) (Some baselinePath) None, w)
  else
    let '(result, w) :=
      compare baselinePath screenshotPath (Some diffPath) w in
    (mkTestResult scenarioId scenarioId (Some EmptyString) None viewportKey
       (cr_passed result) (Some (cr_diffPixels result))
       (Some (Fin (cr_diffPercentage result))) None (cr_warning result)
       (Some screenshotPath) (Some baselinePath) (cr_diffPath result), w).

Definition baselineExists (scenarioId viewportKey : string) (w : World)
    : bool :=
  existsSync (path_join (baselineDir config)
                (filename scenarioId viewportKey)) w.

Definition copyToBaseline (screenshotPath scenarioId viewportKey : string)
    (w : World) : outcome string * World :=
  let baselinePath := path_join (baselineDir config)
                        (filename scenarioId viewportKey) in
  let w := ensureDirectoryExists (baselineDir config) w in
  match copyFileSync screenshotPath baselinePath w with
  | (Returned _, w) => (Returned baselinePath, w)
  | (Thrown err, w) => (Thrown err, w)
  end.
End Service.

End ODiff.

(** ** The pass criterion in the words of the specification, and
    executable stand-ins for the external libraries, on which the model is
    run in the examples *)

Module Reference.
Import JS Fs Config.

(** pass iff [diffCount == 0], or [diffCount <= maxDiffPixels] and
    [diffCount / totalCount <= maxDiffPixelRatio] *)
Definition pass_criterion (config : VrtConfig) (diffCount totalCount : Z)
    : Prop :=
  diffCount = 0
  \/ (inject_Z diffCount <= maxDiffPixels config
      /\ inject_Z diffCount / inject_Z totalCount
         <= maxDiffPixelRatio config)%Q.

(** The error that tells that the baseline is missing. *)
Definition baseline_not_found : string :=
  "Baseline not found. Run generate-baseline first.".

(** Stand-ins for the examples: [path.join] without the normalisation
    that Node applies to the result, and [path.dirname] on the paths of the
    diff artifacts, the only ones it is called on. *)
Definition path_join (dir file : string) : string := dir +:+ "/" +:+ file.

Definition path_dirname (_ : string) : string := "./diffs".

(** Pixels (four channels each) that differ between two buffers. *)
Fixpoint count_diff (a b : list Z) : Z :=
  match a, b with
  | r1 :: g1 :: b1 :: a1 :: ta, r2 :: g2 :: b2 :: a2 :: tb =>
      (if (r1 =? r2) && (g1 =? g2) && (b1 =? b2) && (a1 =? a2)
       then 0 else 1) + count_diff ta tb
  | _, _ => 0
  end.

Definition pixelmatch (img1 img2 : list Z) (width height : Z) (_ : Q)
    : Z * list Z :=
  (count_diff img1 img2, img1).

(** The percentage as odiff reports it: with two decimals. *)
Definition two_decimals (q : Q) : Q := inject_Z (round (q * 100)) / 100.

Definition odiff (base cmp : file) (_ : Q) : outcome ODiff.odiff_result :=
  match base, cmp with
  | Png b, Png c =>
      if negb (Fs.width b =? Fs.width c) || negb (Fs.height b =? Fs.height c)
      then Returned ODiff.LayoutDiff
      else
        let n := count_diff (data b) (data c) in
        if n =? 0 then Returned ODiff.Match
        else Returned (ODiff.PixelDiff n
                         (two_decimals
                            (inject_Z n / inject_Z (Fs.width b * Fs.height b)
                             * 100)) b)
  | _, _ => Thrown (ErrorObj "Could not load comparison image")
  end.

Definition config : VrtConfig :=
  mkConfig "./baselines" "./diffs" (1 # 10) 100 (1 # 100).

(** Two opaque pixels of a 1x2 image and variations of it. *)
Definition white2 : Image :=
  mkImage 1 2 [255; 255; 255; 255; 255; 255; 255; 255].
Definition white3 : Image :=
  mkImage 1 3 [255; 255; 255; 255; 255; 255; 255; 255; 255; 255; 255; 255].
Definition spotted2 : Image :=
  mkImage 1 2 [255; 255; 255; 255; 0; 0; 0; 255].

Definition world (fs : list (string * file)) : World :=
  mkWorld (list_to_map fs) [].

End Reference.

(** ** Waiting for a stable height
    ([ScreenshotService.waitForStableHeight]; the test file and the first
    revision of the service run the same loop with other constants and
    without the final delay) *)

Module StableHeight.

Inductive event : Type :=
| Evaluate (height : Z)          (* [document.documentElement.scrollHeight] *)
| WaitForTimeout (ms : Z).

(** How the wait ends: the number of readings taken, whether the loop was
    left by [break], and what was done to the page. *)
Record finished : Type := mkFinished {
  readings : nat;
  stable : bool;
  log : list event
}.

Section Wait.
Variable timeout requiredStableChecks checkInterval : Z.
(** the delay after the loop, in the revisions that have one *)
Variable settle : option Z.
Variable startTime : Z.               (* [Date.now()] before the loop *)
(** [Date.now()] at the [k]-th evaluation of the test of the loop, and
    the height read by the [k]-th iteration *)
Variable now : nat -> Z.
Variable scrollHeight : nat -> Z.

Definition finish (k : nat) (by_break : bool) (log : list event) : finished :=
  mkFinished k by_break
    (match settle with
     | Some ms => log ++ [WaitForTimeout ms]
     | None => log
     end).

(** The [while] loop, one evaluation of its test per unit of fuel. *)
Fixpoint loop (fuel : nat) (k : nat) (previousHeight stableCount : Z)
    (log : list event) : option finished :=
  match fuel with
  | O => None
  | S fuel' =>
      if now k - startTime <? timeout then
        let currentHeight := scrollHeight k in
        let log := log ++ [Evaluate currentHeight] in
        if currentHeight =? previousHeight then
          let stableCount := stableCount + 1 in
          if stableCount >=? requiredStableChecks
          then Some (finish (S k) true log)
          else loop fuel' (S k) currentHeight stableCount
                 (log ++ [WaitForTimeout checkInterval])
        else loop fuel' (S k) currentHeight 0
               (log ++ [WaitForTimeout checkInterval])
      else Some (finish k false log)
  end.

Definition wait (fuel : nat) : option finished := loop fuel O 0 0 [].
End Wait.

(** The service: 8 seconds, five checks 300 ms apart, 200 ms to settle. *)
Definition waitForStableHeight := wait 8000 5 300 (Some 200).

(** The time spent in [waitForTimeout]. *)
Fixpoint waited (log : list event) : Z :=
  match log with
  | [] => 0
  | WaitForTimeout ms :: log' => ms + waited log'
  | Evaluate _ :: log' => waited log'
  end.

End StableHeight.

(** ** The payload of the API ([types]) *)

Module Payload.

Record Viewport : Type := mkViewport {
  machine_name : string;
  label : string;
  width : Z;
  height : Z;
  device_scale_factor : Q;
  full_page : bool
}.

Record Scenario : Type := mkScenario {
  id : string;
  title : string;
  url : string;
  mode : string;
  wait_time_ms : Z;
  viewport_keys : list string;
  interactions : list Interactions.Interaction
}.

End Payload.

(** ** Building the task list and collecting the captures
    ([ScreenshotService.captureAll], and the accounting of the
    generate-baseline command) *)

Module CaptureAll.
Import JS Payload.

Record CaptureTask : Type := mkCaptureTask {
  scenario : Scenario;
  viewport : Viewport;
  outputDir : string;
  index : nat
}.

(** [for (const viewport of viewports) viewportMap.set(...)] *)
Definition build_viewportMap (viewports : list Viewport)
    : gmap string Viewport :=
  fold_left (fun m v => <[machine_name v := v]> m) viewports ∅.

(** The state of the two nested loops: the tasks pushed, the next index
    and the keys warned about. *)
Record builder : Type := mkBuilder {
  tasks : list CaptureTask;
  next_index : nat;
  warned : list string
}.

Section Build.
Variable viewportMap : gmap string Viewport.
Variable dir : string.

Definition add_key (s : Scenario) (b : builder) (viewportKey : string)
    : builder :=
  match viewportMap !! viewportKey with
  | None => mkBuilder (tasks b) (next_index b) (warned b ++ [viewportKey])
  | Some v =>
      mkBuilder (tasks b ++ [mkCaptureTask s v dir (next_index b)])
        (S (next_index b)) (warned b)
  end.

Definition add_scenario (b : builder) (s : Scenario) : builder :=
  fold_left (add_key s) (viewport_keys s) b.

(** What the loops keep true of the builder. *)
Definition well_built (b : builder) : Prop :=
  next_index b = length (tasks b)
  /\ (forall i t, tasks b !! i = Some t -> index t = i)
  /\ (forall t, t ∈ tasks b ->
        viewportMap !! machine_name (viewport t) = Some (viewport t)
        /\ machine_name (viewport t) ∈ viewport_keys (scenario t)
        /\ outputDir t = dir).

End Build.

Definition build_tasks (scenarios : list Scenario) (viewports : list Viewport)
    (dir : string) : builder :=
  fold_left (add_scenario (build_viewportMap viewports) dir) scenarios
    (mkBuilder [] O []).

(** The task as the worker pool sees it. *)
Definition pool_task (t : CaptureTask) : Pool.Capture.CaptureTask :=
  Pool.Capture.mkCaptureTask (id (scenario t)) (title (scenario t))
    (machine_name (viewport t)) (outputDir t) (index t).

(** [!result.error && result.path] *)
Definition succeeded (r : Pool.Capture.CaptureResult) : bool :=
  match Pool.Capture.error r with
  | None => truthy (Pool.Capture.path r)
  | Some e => negb (truthy e) && truthy (Pool.Capture.path r)
  end.

(** [for (const result of captureResults) ... results.set(key, path)] *)
Definition collect (captureResults : list Pool.Capture.CaptureResult)
    : gmap string string :=
  fold_left
    (fun m r =>
       if succeeded r then <[Pool.Capture.key r := Pool.Capture.path r]> m
       else m)
    captureResults ∅.

(** generate-baseline: [totalScreenshots], and [failed = totalScreenshots -
    results.size]. *)
Definition totalScreenshots (scenarios : list Scenario) : nat :=
  fold_left (fun n s => (n + length (viewport_keys s))%nat) scenarios O.

Definition failed (scenarios : list Scenario)
    (results : gmap string string) : Z :=
  Z.of_nat (totalScreenshots scenarios) - Z.of_nat (size results).

End CaptureAll.

(** ** The record of failed tests ([services/failed-tracker]) and the
    bookkeeping at the end of a run (run-tests command) *)

Module Tracker.
Import Types.

Record FailedTest : Type := mkFailedTest {
  ft_scenarioId : string;
  ft_viewport : string
}.

(** [[...new Set(ids)]]: the first occurrence of each id, in order. *)
Fixpoint unique_from (seen : list string) (ids : list string) : list string :=
  match ids with
  | [] => []
  | x :: ids' =>
      if bool_decide (x ∈ seen) then unique_from seen ids'
      else x :: unique_from (x :: seen) ids'
  end.

Definition unique (ids : list string) : list string := unique_from [] ids.

Section Tracker.
(** [JSON.stringify({timestamp, tests}, null, 2)], and [JSON.parse]
    followed by [.tests]: [None] when one of the two throws, [Some None]
    when [tests] is missing or falsy. *)
Variable stringify : string -> list FailedTest -> string.
Variable parse_tests : string -> option (option (list FailedTest)).

(** The state is the content of [.vrt-failed.json], if the file exists. *)
Definition saveFailedTests (timestamp : string) (tests : list FailedTest)
    (file : option string) : option string :=
  Some (stringify timestamp tests).

Definition loadFailedTests (file : option string) : list FailedTest :=
  match file with
  | None => []
  | Some content =>
      match parse_tests content with
      | Some (Some tests) => tests
      | Some None => []
      | None => []
      end
  end.

Definition hasFailedTests (file : option string) : bool :=
  (0 <? length (loadFailedTests file))%nat.

Definition clearFailedTests (file : option string) : option string :=
  match file with
  | Some _ => None
  | None => file
  end.

Definition getFailedScenarioIds (file : option string) : list string :=
  unique (ft_scenarioId <$> loadFailedTests file).

(** *** The end of [runTests] *)

Record TestRunSummary : Type := mkSummary {
  total : nat;
  passed_total : nat;
  failed_total : nat;
  skipped : nat;
  duration : Z;
  summary_results : list TestResult
}.

Definition summarize (results : list TestResult) (duration : Z)
    : TestRunSummary :=
  mkSummary (length results)
    (length (List.filter passed results))
    (length (List.filter (fun r => negb (passed r)) results))
    0 duration results.

Definition failedTests (results : list TestResult) : list FailedTest :=
  (fun r => mkFailedTest (scenarioId r) (viewport r))
    <$> List.filter (fun r => negb (passed r)) results.

(** [if (failedTests.length > 0) saveFailedTests(...) else
    clearFailedTests()] *)
Definition record_failures (results : list TestResult) (timestamp : string)
    (file : option string) : option string :=
  if (0 <? length (failedTests results))%nat
  then saveFailedTests timestamp (failedTests results) file
  else clearFailedTests file.

(** [if (summary.failed > 0) process.exit(1)] *)
Definition exit_code (summary : TestRunSummary) : Z :=
  if (0 <? failed_total summary)%nat then 1 else 0.
End Tracker.

End Tracker.

(** ** One task of the run-tests pool: the [try] block of [processTask]
    (second revision of the command, over the ODiff revision of the
    comparison service) *)

Module ProcessTask.
Import JS Fs Config Types.

Definition missing_baseline : string :=
  "Baseline not found. Run generate-baseline first or use --update-baseline.".

Section Body.
Variable config : VrtConfig.
Variable path_join : string -> string -> string.
Variable path_dirname : string -> string.
Variable odiff : file -> file -> Q -> outcome ODiff.odiff_result.
(** [options.updateBaseline] *)
Variable updateBaseline : bool.

(** [comparisonService.getBaselinePath] *)
Definition getBaselinePath (scenarioId viewportKey : string) : string :=
  path_join (baselineDir config) (ODiff.filename scenarioId viewportKey).

(** The three assignments to the result of [compareScreenshot]. *)
Definition with_scenario (task : Pool.RunTests.TestTask) (r : TestResult)
    : TestResult :=
  mkTestResult (scenarioId r) (Pool.RunTests.task_scenario_title task)
    (Some (Pool.RunTests.task_scenario_url task))
    (Pool.RunTests.task_baseline_url task) (viewport r) (passed r)
    (diffPixels r) (diffPercentage r) (error r) (warning r)
    (screenshotPath r) (baselinePath r) (diffPath r).

(** The [try] block, from the outcome of [captureWithRetry] and the world
    the capture left. *)
Definition try_block (task : Pool.RunTests.TestTask)
    (captured : outcome string) (w : World) : outcome TestResult * World :=
  let id := Pool.RunTests.task_scenario_id task in
  let key := Pool.RunTests.viewportKey task in
  match captured with
  | Thrown err => (Thrown err, w)
  | Returned screenshotPath =>
      if negb (ODiff.baselineExists config path_join id key w) then
        if updateBaseline then
          match ODiff.copyToBaseline config path_join screenshotPath id key w
          with
          | (Returned _, w) =>
              (Returned
                 (mkTestResult id (Pool.RunTests.task_scenario_title task)
                    (Some (Pool.RunTests.task_scenario_url task))
                    (Pool.RunTests.task_baseline_url task) key true
                    None None None None (Some screenshotPath)
                    (Some (getBaselinePath id key)) None), w)
          | (Thrown err, w) => (Thrown err, w)
          end
        else
          (Returned
             (mkTestResult id (Pool.RunTests.task_scenario_title task)
                (Some (Pool.RunTests.task_scenario_url task))
                (Pool.RunTests.task_baseline_url task) key false
                None None (Some missing_baseline) None (Some screenshotPath)
                None None), w)
      else
        let '(comparisonResult, w) :=
          ODiff.compareScreenshot config path_join path_dirname odiff id key
            screenshotPath w in
        let comparisonResult := with_scenario task comparisonResult in
        if updateBaseline && passed comparisonResult then
          match ODiff.copyToBaseline config path_join screenshotPath id key w
          with
          | (Returned _, w) => (Returned comparisonResult, w)
          | (Thrown err, w) => (Thrown err, w)
          end
        else (Returned comparisonResult, w)
  end.

(** The [try] block with its [catch]: the result pushed for the task. *)
Definition processTask (task : Pool.RunTests.TestTask)
    (captured : outcome string) (w : World) : TestResult * World :=
  let '(o, w) := try_block task captured w in
  (Pool.RunTests.finish task o, w).
End Body.

End ProcessTask.

(** A line-oriented stand-in for [JSON.stringify] and [JSON.parse], for
    ids and viewports free of [,] and [;]. *)

Module Codec.
Import Tracker.

Definition stringify (timestamp : string) (tests : list FailedTest)
    : string :=
  foldr (fun t s => ft_scenarioId t +:+ "," +:+ ft_viewport t +:+ ";" +:+ s)
    EmptyString tests.

Fixpoint scan (s : string) (id : option string) (cur : string)
    : option (list FailedTest) :=
  match s with
  | EmptyString =>
      match id, cur with
      | None, EmptyString => Some []
      | _, _ => None
      end
  | String c s' =>
      if Ascii.eqb c "," then
        match id with
        | None => scan s' (Some cur) EmptyString
        | Some _ => None
        end
      else if Ascii.eqb c ";" then
        match id with
        | Some i => cons (mkFailedTest i cur) <$> scan s' None EmptyString
        | None => None
        end
      else scan s' id (cur +:+ String c EmptyString)
  end.

Definition parse_tests (content : string) : option (option (list FailedTest)) :=
  Some <$> scan content None EmptyString.

End Codec.

(** ** [ScreenshotService.captureScreenshot]: the browser context around
    one capture *)

Module CaptureScreenshot.
Import JS Payload.

(** The calls made on the file system, the browser, the context and the
    page; the helpers of the service ([executeInteractions],
    [triggerLazyLoading], ...) count as one call each. *)
Inductive op : Type :=
| EnsureDirectoryExists (dirPath : string)
| NewContext (width height : Z) (deviceScaleFactor : Q)
| NewPage
| SetDefaultTimeout
| SetDefaultNavigationTimeout
| Goto (url : string)
| WaitForTimeout (ms : Z)
| DisableAnimations
| StabilizeVideos
| ExecuteInteractions (interactions : list Interactions.Interaction)
| WaitForFonts
| ForceLazyBackgroundImages
| TriggerLazyLoading
| WaitForAllImages
| WaitForStableHeight
| Screenshot (path : string) (fullPage : bool)
| CloseContext.

Definition is_close (o : op) : bool :=
  match o with
  | CloseContext => true
  | _ => false
  end.

Definition is_screenshot (o : op) : bool :=
  match o with
  | Screenshot _ _ => true
  | _ => false
  end.

Definition not_initialized : string :=
  "Browser not initialized. Call initialize() first.".

(** [viewport.height > 0 ? viewport.height : 800] *)
Definition viewportHeight (viewport : Viewport) : Z :=
  if 0 <? height viewport then height viewport else 800.

Section Capture.
Variable path_join : string -> string -> string.
(** What a call throws, if it does, after the calls made so far. *)
Variable rejects : list op -> op -> option thrown.

(** Calls in sequence, up to and including the first that throws. *)
Fixpoint run (ops : list op) (log : list op) : option thrown * list op :=
  match ops with
  | [] => (None, log)
  | o :: ops' =>
      match rejects log o with
      | Some e => (Some e, log ++ [o])
      | None => run ops' (log ++ [o])
      end
  end.

Definition screenshotPath (scenario : Scenario) (viewport : Viewport)
    (outputDir : string) : string :=
  path_join outputDir
    (Filename.generateFilename (id scenario) (machine_name viewport)).

(** What precedes the [try]. *)
Definition setup (viewport : Viewport) (outputDir : string) : list op :=
  [EnsureDirectoryExists outputDir;
   NewContext (width viewport) (viewportHeight viewport)
     (device_scale_factor viewport);
   NewPage].

(** The [try] block of the revision with the worker pool
    ([services/screenshot]). *)
Definition body (scenario : Scenario) (viewport : Viewport)
    (outputDir : string) : list op :=
  [SetDefaultTimeout; SetDefaultNavigationTimeout; Goto (url scenario)]
  ++ (if 0 <? wait_time_ms scenario
      then [WaitForTimeout (wait_time_ms scenario)] else [])
  ++ (if (0 <? length (interactions scenario))%nat
      then [ExecuteInteractions (interactions scenario)] else [])
  ++ [WaitForFonts]
  ++ (if full_page viewport
      then [TriggerLazyLoading; WaitForAllImages; WaitForStableHeight]
      else [WaitForTimeout 300])
  ++ [Screenshot (screenshotPath scenario viewport outputDir)
        (full_page viewport)].

(** The [try] block of the latest revision, which also freezes
    animations and videos and forces lazy backgrounds. *)
Definition body_latest (scenario : Scenario) (viewport : Viewport)
    (outputDir : string) : list op :=
  [SetDefaultTimeout; SetDefaultNavigationTimeout; Goto (url scenario)]
  ++ (if 0 <? wait_time_ms scenario
      then [WaitForTimeout (wait_time_ms scenario)] else [])
  ++ [DisableAnimations; StabilizeVideos]
  ++ (if (0 <? length (interactions scenario))%nat
      then [ExecuteInteractions (interactions scenario)] else [])
  ++ [WaitForFonts]
  ++ (if full_page viewport
      then [ForceLazyBackgroundImages; TriggerLazyLoading; WaitForAllImages;
            WaitForStableHeight]
      else [WaitForTimeout 300])
  ++ [Screenshot (screenshotPath scenario viewport outputDir)
        (full_page viewport)].

(** [latest] selects the revision of the [try] block. *)
Definition try_block (latest : bool) (scenario : Scenario)
    (viewport : Viewport) (outputDir : string) : list op :=
  if latest then body_latest scenario viewport outputDir
  else body scenario viewport outputDir.

(** [browser] tells whether [this.browser] is set. *)
Definition captureScreenshot (browser latest : bool) (scenario : Scenario)
    (viewport : Viewport) (outputDir : string) : outcome string * list op :=
  if negb browser then (Thrown (ErrorObj not_initialized), [])
  else
    match run (setup viewport outputDir) [] with
    | (Some e, log) => (Thrown e, log)
    | (None, log) =>
        let '(r, log) :=
          run (try_block latest scenario viewport outputDir) log in
        (* finally *)
        match rejects log CloseContext with
        | Some e => (Thrown e, log ++ [CloseContext])
        | None =>
            (match r with
             | Some e => Thrown e
             | None => Returned (screenshotPath scenario viewport outputDir)
             end, log ++ [CloseContext])
        end
    end.
End Capture.

End CaptureScreenshot.

(** ** [escapeHtml] of the report generator *)

Module Report.

(** The double quote, character 34. *)
Definition double_quote : ascii := Eval cbv in ascii_of_nat 34.

(** [text.replace(/c/g, by)] for a one-character pattern. *)
Fixpoint replace_all (c : ascii) (by_ : string) (text : string) : string :=
  match text with
  | EmptyString => EmptyString
  | String d rest =>
      if Ascii.eqb d c then by_ +:+ replace_all c by_ rest
      else String d (replace_all c by_ rest)
  end.

Definition escapeHtml (text : string) : string :=
  replace_all "'" "&#039;"
    (replace_all double_quote "&quot;"
       (replace_all ">" "&gt;"
          (replace_all "<" "&lt;"
             (replace_all "&" "&amp;" text)))).

(** The entity of one character, and the escaping that maps every
    character of the text once. *)
Definition entity (c : ascii) : string :=
  if Ascii.eqb c "&" then "&amp;"
  else if Ascii.eqb c "<" then "&lt;"
  else if Ascii.eqb c ">" then "&gt;"
  else if Ascii.eqb c double_quote then "&quot;"
  else if Ascii.eqb c "'" then "&#039;"
  else String c EmptyString.

Fixpoint escape_each (text : string) : string :=
  match text with
  | EmptyString => EmptyString
  | String c rest => entity c +:+ escape_each rest
  end.

Fixpoint occurs (c : ascii) (text : string) : bool :=
  match text with
  | EmptyString => false
  | String d rest => Ascii.eqb d c || occurs c rest
  end.

(** The characters that open or close a tag or an attribute value. *)
Definition markup (c : ascii) : bool :=
  Ascii.eqb c "<" || Ascii.eqb c ">" || Ascii.eqb c double_quote
  || Ascii.eqb c "'".

End Report.

(** ** [ApiService.fetchFilteredScenarios] *)

Module Api.
Import JS Payload.

Record Meta : Type := mkMeta {
  generated_at : string;
  last_regenerated_at : option string;
  generated_by : string;
  scenario_count : nat;
  viewport_count : nat;
  is_regenerating : bool;
  token_required : bool;
  notes : list string
}.

Record ApiPayload : Type := mkApiPayload {
  meta : Meta;
  viewports : list Viewport;
  scenarios : list Scenario
}.

(** [s.includes(sub)] *)
Fixpoint includes (s sub : string) : bool :=
  String.prefix sub s
  || match s with
     | EmptyString => false
     | String _ rest => includes rest sub
     end.

(** [keys.includes(k)] on an array of strings *)
Definition array_includes (keys : list string) (k : string) : bool :=
  existsb (String.eqb k) keys.

(** [filter && filter.length > 0] *)
Definition provided (filter : option (list string)) : option (list string) :=
  match filter with
  | Some (k :: ks) => Some (k :: ks)
  | Some [] => None
  | None => None
  end.

(** [{...s, viewport_keys: keys}] *)
Definition with_viewport_keys (s : Scenario) (keys : list string) : Scenario :=
  mkScenario (id s) (title s) (url s) (mode s) (wait_time_ms s) keys
    (interactions s).

Section Filter.
(** [String.prototype.toLowerCase] *)
Variable toLowerCase : string -> string.

Definition selects (scenarioIds : list string) (s : Scenario) : bool :=
  existsb
    (fun id' =>
       String.eqb (id s) id'
       || includes (id s) id'
       || includes (toLowerCase (title s)) (toLowerCase id'))
    scenarioIds.

(** From what [fetchScenarios] resolved to or threw. *)
Definition fetchFilteredScenarios (fetched : outcome ApiPayload)
    (scenarioIds viewportKeys : option (list string)) : outcome ApiPayload :=
  match fetched with
  | Thrown err => Thrown err
  | Returned payload =>
      let filteredScenarios := scenarios payload in
      let filteredViewports := viewports payload in
      let filteredScenarios :=
        match provided scenarioIds with
        | Some ids => List.filter (selects ids) filteredScenarios
        | None => filteredScenarios
        end in
      let '(filteredViewports, filteredScenarios) :=
        match provided viewportKeys with
        | Some keys =>
            (List.filter (fun v => array_includes keys (machine_name v))
               filteredViewports,
             List.filter (fun s => (0 <? length (viewport_keys s))%nat)
               (List.map
                  (fun s =>
                     with_viewport_keys s
                       (List.filter (array_includes keys) (viewport_keys s)))
                  filteredScenarios))
        | None => (filteredViewports, filteredScenarios)
        end in
      Returned
        (mkApiPayload
           (mkMeta (generated_at (meta payload))
              (last_regenerated_at (meta payload))
              (generated_by (meta payload))
              (length filteredScenarios) (length filteredViewports)
              (is_regenerating (meta payload))
              (token_required (meta payload)) (notes (meta payload)))
           filteredViewports filteredScenarios)
  end.
End Filter.

(** Every viewport key of every scenario names a viewport of the
    payload. *)
Definition consistent (payload : ApiPayload) : Prop :=
  forall s k, s ∈ scenarios payload -> k ∈ viewport_keys s ->
    exists v, v ∈ viewports payload /\ machine_name v = k.

End Api.

(** ** The configuration loader: [validateConfig], [deepMerge] and
    [loadConfig] *)

Module ConfigLoader.
Import JS.

Record Comparison : Type := mkComparison {
  threshold : Q;
  maxDiffPixels : Q;
  maxDiffPixelRatio : Q
}.

Record Playwright : Type := mkPlaywright {
  headless : bool;
  timeout : Q;
  navigationTimeout : Q;
  screenshotTimeout : Q;
  workers : Q
}.

Record Retries : Type := mkRetries {
  maxRetries : Q;
  retryDelay : Q
}.

Record VrtConfig : Type := mkVrtConfig {
  endpoint : string;
  baselineDomain : option string;     (* [string | null] *)
  testDomain : option string;         (* [string | null] *)
  token : string;
  insecure : bool;
  outputDir : string;
  baselineDir : string;
  diffDir : string;
  comparison : Comparison;
  playwright : Playwright;
  retries : Retries
}.

(** [Partial<VrtConfig>] as [JSON.parse] gives it: every field may be
    absent or [null]. *)
Record PartialComparison : Type := mkPartialComparison {
  p_threshold : nullable Q;
  p_maxDiffPixels : nullable Q;
  p_maxDiffPixelRatio : nullable Q
}.

Record PartialPlaywright : Type := mkPartialPlaywright {
  p_headless : nullable bool;
  p_timeout : nullable Q;
  p_navigationTimeout : nullable Q;
  p_screenshotTimeout : nullable Q;
  p_workers : nullable Q
}.

Record PartialRetries : Type := mkPartialRetries {
  p_maxRetries : nullable Q;
  p_retryDelay : nullable Q
}.

Record PartialConfig : Type := mkPartialConfig {
  p_endpoint : nullable string;
  p_baselineDomain : nullable string;
  p_testDomain : nullable string;
  p_token : nullable string;
  p_insecure : nullable bool;
  p_outputDir : nullable string;
  p_baselineDir : nullable string;
  p_diffDir : nullable string;
  p_comparison : nullable PartialComparison;
  p_playwright : nullable PartialPlaywright;
  p_retries : nullable PartialRetries
}.

Definition DEFAULT_CONFIG : VrtConfig :=
  mkVrtConfig EmptyString None None EmptyString false "./screenshots"
    "./baselines" "./diffs"
    (mkComparison (1 # 10) 100 (1 # 100))
    (mkPlaywright true 30000 30000 10000 1)
    (mkRetries 2 1000).

(** [a ?? b] *)
Definition coalesce {A : Type} (a : nullable A) (b : A) : A :=
  match a with
  | Value x => x
  | Null | Undefined => b
  end.

(** [object?.field] *)
Definition chain {A B : Type} (object : nullable A) (field : A -> nullable B)
    : nullable B :=
  match object with
  | Value x => field x
  | Null | Undefined => Undefined
  end.

(** [source.field !== undefined ? source.field : target.field] for a field
    of type [string | null] *)
Definition defined_or (a : nullable string) (b : option string)
    : option string :=
  match a with
  | Value x => Some x
  | Null => None
  | Undefined => b
  end.

Definition deepMerge (target : VrtConfig) (source : PartialConfig)
    : VrtConfig :=
  mkVrtConfig
    (coalesce (p_endpoint source) (endpoint target))
    (defined_or (p_baselineDomain source) (baselineDomain target))
    (defined_or (p_testDomain source) (testDomain target))
    (coalesce (p_token source) (token target))
    (coalesce (p_insecure source) (insecure target))
    (coalesce (p_outputDir source) (outputDir target))
    (coalesce (p_baselineDir source) (baselineDir target))
    (coalesce (p_diffDir source) (diffDir target))
    (mkComparison
       (coalesce (chain (p_comparison source) p_threshold)
          (threshold (comparison target)))
       (coalesce (chain (p_comparison source) p_maxDiffPixels)
          (maxDiffPixels (comparison target)))
       (coalesce (chain (p_comparison source) p_maxDiffPixelRatio)
          (maxDiffPixelRatio (comparison target))))
    (mkPlaywright
       (coalesce (chain (p_playwright source) p_headless)
          (headless (playwright target)))
       (coalesce (chain (p_playwright source) p_timeout)
          (timeout (playwright target)))
       (coalesce (chain (p_playwright source) p_navigationTimeout)
          (navigationTimeout (playwright target)))
       (coalesce (chain (p_playwright source) p_screenshotTimeout)
          (screenshotTimeout (playwright target)))
       (coalesce (chain (p_playwright source) p_workers)
          (workers (playwright target))))
    (mkRetries
       (coalesce (chain (p_retries source) p_maxRetries)
          (maxRetries (retries target)))
       (coalesce (chain (p_retries source) p_retryDelay)
          (retryDelay (retries target)))).

(** A [VrtConfig] seen as a [Partial<VrtConfig>]. *)
Definition of_option (x : option string) : nullable string :=
  match x with
  | Some s => Value s
  | None => Null
  end.

Definition as_partial (c : VrtConfig) : PartialConfig :=
  mkPartialConfig (Value (endpoint c)) (of_option (baselineDomain c))
    (of_option (testDomain c)) (Value (token c)) (Value (insecure c))
    (Value (outputDir c)) (Value (baselineDir c)) (Value (diffDir c))
    (Value (mkPartialComparison (Value (threshold (comparison c)))
              (Value (maxDiffPixels (comparison c)))
              (Value (maxDiffPixelRatio (comparison c)))))
    (Value (mkPartialPlaywright (Value (headless (playwright c)))
              (Value (timeout (playwright c)))
              (Value (navigationTimeout (playwright c)))
              (Value (screenshotTimeout (playwright c)))
              (Value (workers (playwright c)))))
    (Value (mkPartialRetries (Value (maxRetries (retries c)))
              (Value (retryDelay (retries c))))).

(** [x !== undefined && x < b], [x !== undefined && x > b]: [null] counts
    as 0 in a comparison. *)
Definition below (x : nullable Q) (b : Q) : bool :=
  match x with
  | Value q => Qgtb b q
  | Null => Qgtb b 0
  | Undefined => false
  end.

Definition above (x : nullable Q) (b : Q) : bool :=
  match x with
  | Value q => Qgtb q b
  | Null => Qgtb 0 b
  | Undefined => false
  end.

(** [Number.isInteger] *)
Definition isInteger (q : Q) : bool := Qeq_bool q (inject_Z (Qfloor q)).

(** [x !== undefined && (x < 1 || !Number.isInteger(x))] *)
Definition not_positive_integer (x : nullable Q) : bool :=
  match x with
  | Value q => Qgtb 1 q || negb (isInteger q)
  | Null => true
  | Undefined => false
  end.

(** [if (test) errors.push(message)] *)
Definition push_if (test : bool) (message : string) (errors : list string)
    : list string :=
  if test then errors ++ [message] else errors.

Section Validate.
(** Whether [new URL(s)] returns. *)
Variable valid_url : string -> bool.

(** [if (domain && domain.trim() !== '') { try { new URL(domain) } catch
    { errors.push(...) } }] *)
Definition check_domain (name : string) (domain : nullable string)
    (errors : list string) : list string :=
  match domain with
  | Value d =>
      push_if (truthy d && negb (bool_decide (trim d = EmptyString))
               && negb (valid_url d))
        ("Invalid " +:+ name +:+ " URL: " +:+ d) errors
  | Null | Undefined => errors
  end.

Definition validateConfig (config : PartialConfig) : list string :=
  let errors := [] in
  let errors :=
    match p_endpoint config with
    | Value e =>
        if truthy e
        then push_if (negb (valid_url e)) ("Invalid endpoint URL: " +:+ e)
               errors
        else errors ++ ["Missing required field: endpoint"]
    | Null | Undefined => errors ++ ["Missing required field: endpoint"]
    end in
  let errors := check_domain "baselineDomain" (p_baselineDomain config)
                  errors in
  let errors := check_domain "testDomain" (p_testDomain config) errors in
  let errors :=
    match p_comparison config with
    | Value c =>
        let errors :=
          push_if (below (p_threshold c) 0 || above (p_threshold c) 1)
            "comparison.threshold must be between 0 and 1" errors in
        let errors :=
          push_if (below (p_maxDiffPixels c) 0)
            "comparison.maxDiffPixels must be non-negative" errors in
        push_if (below (p_maxDiffPixelRatio c) 0
                 || above (p_maxDiffPixelRatio c) 1)
          "comparison.maxDiffPixelRatio must be between 0 and 1" errors
    | Null | Undefined => errors
    end in
  match p_playwright config with
  | Value p =>
      let errors :=
        push_if (below (p_timeout p) 0)
          "playwright.timeout must be non-negative" errors in
      let errors :=
        push_if (below (p_navigationTimeout p) 0)
          "playwright.navigationTimeout must be non-negative" errors in
      push_if (not_positive_integer (p_workers p))
        "playwright.workers must be a positive integer" errors
  | Null | Undefined => errors
  end.

(** What the configuration file gave: none was found; the path given
    does not exist; its content is not JSON; reading it threw; or the
    object it holds. *)
Inductive config_file : Type :=
| NoConfigFile
| NotFound (resolvedPath : string)
| InvalidJson (resolvedPath : string)
| ReadError (error : thrown)
| Parsed (config : PartialConfig).

Record Env : Type := mkEnv {
  VRT_ENDPOINT : option string;
  VRT_TOKEN : option string;
  VRT_OUTPUT_DIR : option string;
  VRT_BASELINE_DIR : option string;
  VRT_BASELINE_DOMAIN : option string;
  VRT_TEST_DOMAIN : option string
}.

(** [if (process.env.X) config.field = process.env.X] *)
Definition override (variable : option string) (field : nullable string)
    : nullable string :=
  match variable with
  | Some v => if truthy v then Value v else field
  | None => field
  end.

Definition with_env (env : Env) (config : PartialConfig) : PartialConfig :=
  mkPartialConfig
    (override (VRT_ENDPOINT env) (p_endpoint config))
    (override (VRT_BASELINE_DOMAIN env) (p_baselineDomain config))
    (override (VRT_TEST_DOMAIN env) (p_testDomain config))
    (override (VRT_TOKEN env) (p_token config))
    (p_insecure config)
    (override (VRT_OUTPUT_DIR env) (p_outputDir config))
    (override (VRT_BASELINE_DIR env) (p_baselineDir config))
    (p_diffDir config) (p_comparison config) (p_playwright config)
    (p_retries config).

Definition empty_config : PartialConfig :=
  mkPartialConfig Undefined Undefined Undefined Undefined Undefined Undefined
    Undefined Undefined Undefined Undefined Undefined.

(** [errors.join('\n  - ')] *)
Fixpoint join (sep : string) (items : list string) : string :=
  match items with
  | [] => EmptyString
  | [x] => x
  | x :: rest => x +:+ sep +:+ join sep rest
  end.

Definition line_feed : ascii := Eval cbv in ascii_of_nat 10.

Definition newline : string := String line_feed EmptyString.

Definition merge_and_validate (env : Env) (config : PartialConfig)
    : outcome VrtConfig :=
  let mergedConfig := deepMerge DEFAULT_CONFIG (with_env env config) in
  match validateConfig (as_partial mergedConfig) with
  | [] => Returned mergedConfig
  | errors =>
      Thrown (ErrorObj ("Configuration validation failed:" +:+ newline
                        +:+ "  - "
                        +:+ join (newline +:+ "  - ") errors))
  end.

Definition loadConfig (file : config_file) (env : Env) : outcome VrtConfig :=
  match file with
  | NoConfigFile => merge_and_validate env empty_config
  | NotFound resolvedPath =>
      Thrown (ErrorObj ("Config file not found: " +:+ resolvedPath))
  | InvalidJson resolvedPath =>
      Thrown (ErrorObj ("Invalid JSON in config file: " +:+ resolvedPath))
  | ReadError error => Thrown error
  | Parsed config => merge_and_validate env config
  end.
End Validate.

End ConfigLoader.

(** A configuration file with its [retries] replaced. *)

Module ConfigUpdate.
Import JS ConfigLoader.

Definition set_retries (config : PartialConfig) (r : PartialRetries)
    : PartialConfig :=
  mkPartialConfig (p_endpoint config) (p_baselineDomain config)
    (p_testDomain config) (p_token config) (p_insecure config)
    (p_outputDir config) (p_baselineDir config) (p_diffDir config)
    (p_comparison config) (p_playwright config) (Value r).

End ConfigUpdate.

(** ** The Playwright test file: [executeInteractions] and the timeout of
    a test *)

Module TestFile.
Import JS Interactions Payload.

(** The calls awaited on the page, and the lines written to the
    console (without their text, which holds the time measured). *)
Inductive call : Type :=
| EvaluateClick (sel : string)
| ScrollIntoViewIfNeeded (sel : string)
| LocatorFill (sel val : string)
| EvaluateMouseover (sel : string)
| PageWaitForTimeout (ms : Z)
| ConsoleLog.

Section Execute.
(** What an awaited call throws, if it does, after the calls made so
    far. *)
Variable rejects : list call -> call -> option thrown.

Definition await (c : call) (log : list call) : outcome unit * list call :=
  match rejects log c with
  | None => (Returned tt, log ++ [c])
  | Some err => (Thrown err, log ++ [c])
  end.

(** The [switch] statement; it has no [default]. *)
Definition dispatch (i : Interaction) (log : list call)
    : outcome unit * list call :=
  if bool_decide (type i = "click") then
    if truthy (selector i) then await (EvaluateClick (selector i)) log
    else (Returned tt, log)
  else if bool_decide (type i = "type") then
    match value i with
    | Some v =>
        if truthy (selector i) then
          match await (ScrollIntoViewIfNeeded (selector i)) log with
          | (Returned _, log) => await (LocatorFill (selector i) v) log
          | (Thrown err, log) => (Thrown err, log)
          end
        else (Returned tt, log)
    | None => (Returned tt, log)
    end
  else if bool_decide (type i = "mouseover") then
    if truthy (selector i) then await (EvaluateMouseover (selector i)) log
    else (Returned tt, log)
  else if bool_decide (type i = "wait") then
    match positive_wait i with
    | Some ms =>
        match await (PageWaitForTimeout ms) (log ++ [ConsoleLog]) with
        | (Returned _, log) => (Returned tt, log ++ [ConsoleLog])
        | (Thrown err, log) => (Thrown err, log)
        end
    | None => (Returned tt, log)
    end
  else (Returned tt, log).

(** The wait after the [switch]. *)
Definition settle (i : Interaction) (log : list call)
    : outcome unit * list call :=
  if bool_decide (type i = "wait") then (Returned tt, log)
  else match positive_wait i with
       | Some ms => await (PageWaitForTimeout ms) log
       | None => (Returned tt, log)
       end.

Fixpoint executeInteractions (interactions : list Interaction)
    (log : list call) : outcome unit * list call :=
  match interactions with
  | [] => (Returned tt, log)
  | interaction :: rest =>
      match dispatch interaction log with
      | (Returned _, log) =>
          match settle interaction log with
          | (Returned _, log) => executeInteractions rest log
          | (Thrown err, log) => (Thrown err, log)
          end
      | (Thrown err, log) => (Thrown err, log)
      end
  end.
End Execute.

(** [scenarioWaitMs || 0], then the positive [wait_ms] added up. *)
Definition calculateTotalWaitTime (interactions : list Interaction)
    (scenarioWaitMs : Z) : Z :=
  fold_left
    (fun totalWaitMs i =>
       match positive_wait i with
       | Some ms => totalWaitMs + ms
       | None => totalWaitMs
       end)
    interactions (if scenarioWaitMs =? 0 then 0 else scenarioWaitMs).

Definition calculateTestTimeout (scenario : Scenario) (isFullPage : bool)
    : Z :=
  let baseTimeout := 30000 in
  let waitTime :=
    calculateTotalWaitTime (interactions scenario) (wait_time_ms scenario) in
  let lazyLoadingBuffer := if isFullPage then 15000 else 0 in
  let screenshotBuffer := 15000 in
  baseTimeout + waitTime + lazyLoadingBuffer + screenshotBuffer.

(** [if (scenario.wait_time_ms > 0) await page.waitForTimeout(...)], then
    [if (scenario.interactions.length > 0) await executeInteractions(...)]:
    the part of a test that waits on purpose. *)
Definition run_waits (rejects : list call -> call -> option thrown)
    (scenario : Scenario) (log : list call) : outcome unit * list call :=
  match
    (if 0 <? wait_time_ms scenario
     then await rejects (PageWaitForTimeout (wait_time_ms scenario)) log
     else (Returned tt, log))
  with
  | (Returned _, log) =>
      if (0 <? length (interactions scenario))%nat
      then executeInteractions rejects (interactions scenario) log
      else (Returned tt, log)
  | (Thrown err, log) => (Thrown err, log)
  end.

(** The time asked of [page.waitForTimeout] in a log. *)
Fixpoint waited (log : list call) : Z :=
  match log with
  | [] => 0
  | PageWaitForTimeout ms :: log' => ms + waited log'
  | _ :: log' => waited log'
  end.

(** The positive [wait_ms] of an interaction, or 0. *)
Definition budget (i : Interaction) : Z :=
  match positive_wait i with
  | Some ms => ms
  | None => 0
  end.

End TestFile.

(** ** [generateReport]: the names of the copied images and the counts *)

Module ReportImages.
Import Types.

Inductive kind : Type :=
| Baseline
| Current
| Diff.

Definition prefix_of (k : kind) : string :=
  match k with
  | Baseline => "baseline"
  | Current => "current"
  | Diff => "diff"
  end.

(** [`${index}`] for an index of [Array.prototype.map] *)
Definition decimal (index : nat) : string :=
  DecimalString.NilEmpty.string_of_uint (Nat.to_uint index).

Section Names.
(** Node's [path.basename] *)
Variable path_basename : string -> string.

(** [`baseline_${index}_${path.basename(result.baseline)}`] and its two
    siblings *)
Definition image_name (k : kind) (index : nat) (source : string) : string :=
  prefix_of k +:+ "_" +:+ decimal index +:+ "_" +:+ path_basename source.
End Names.

Record ReportTestResult : Type := mkReportTestResult {
  name : string;
  url : option string;
  report_baselineUrl : option string;
  status : string;
  baseline : option string;
  current : option string;
  diff : option string;
  report_diffPixels : option Z;
  report_diffPercentage : option JS.num;
  report_warning : option string
}.

(** The mapping of run-tests from its results to those of the report. *)
Definition reportResults (results : list TestResult)
    : list ReportTestResult :=
  List.map
    (fun result =>
       mkReportTestResult
         (scenarioTitle result +:+ " @ " +:+ viewport result)
         (scenarioUrl result) (baselineUrl result)
         (if passed result then "passed" else "failed")
         (baselinePath result) (screenshotPath result) (diffPath result)
         (diffPixels result) (diffPercentage result) (warning result))
    results.

(** The counts that [generateReport] returns. *)
Record ReportStats : Type := mkReportStats {
  totalTests : nat;
  passedTests : nat;
  failedTests : nat
}.

Definition stats (results : list ReportTestResult) : ReportStats :=
  mkReportStats (length results)
    (length (List.filter (fun r => String.eqb (status r) "passed") results))
    (length (List.filter (fun r => String.eqb (status r) "failed") results)).

End ReportImages.

(** ** Two images at the edge of the ratio budget *)

Module Edge.
Import Fs.

(** 13 x 23 opaque white pixels, and the same with the first three
    black: 3 of 299 pixels differ, 1.0033... percent. *)
Definition white : Image :=
  mkImage 13 23 (concat (replicate 299 [255; 255; 255; 255])).

Definition three_spots : Image :=
  mkImage 13 23
    (concat (replicate 3 [0; 0; 0; 255])
     ++ concat (replicate 296 [255; 255; 255; 255])).

End Edge.

(** ** What [captureAll] is asked for: the viewport keys of the scenarios *)

Module Requests.
Import Payload.

(** The pairs of a scenario and one of its viewport keys, in the order in
    which the two loops of [captureAll] meet them. *)
Definition requests (scenarios : list Scenario)
    : list (Scenario * string) :=
  flat_map (fun s => (fun k => (s, k)) <$> viewport_keys s) scenarios.

Section Map.
Variable viewportMap : gmap string Viewport.

(** The viewport registered under the key of a request, if there is
    one, and the key if there is none. *)
Definition served (r : Scenario * string) : option (Scenario * Viewport) :=
  (fun v => (r.1, v)) <$> viewportMap !! r.2.

Definition refused (r : Scenario * string) : option string :=
  match viewportMap !! r.2 with
  | Some _ => None
  | None => Some r.2
  end.
End Map.

End Requests.

(* ===================================================================== *)
(** * Part II: properties                                                 *)
(* ===================================================================== *)

(** ** Strings *)

Section Strings.

Lemma string_app_nil_l (s : string) : EmptyString +:+ s = s.
Proof. reflexivity. Qed.

Lemma string_app_cons (c : ascii) (s t : string) :
  String c s +:+ t = String c (s +:+ t).
Proof. reflexivity. Qed.

Lemma string_app_nil_r (s : string) : s +:+ EmptyString = s.
Proof.
  induction s as [|c s IH]; [reflexivity|].
  rewrite string_app_cons. by rewrite IH.
Qed.

Lemma string_app_assoc (s t u : string) : (s +:+ t) +:+ u = s +:+ t +:+ u.
Proof.
  induction s as [|c s IH]; [reflexivity|].
  rewrite !string_app_cons. by rewrite IH.
Qed.

Lemma string_length_app (s t : string) :
  String.length (s +:+ t) = (String.length s + String.length t)%nat.
Proof.
  induction s as [|c s IH]; [reflexivity|].
  rewrite string_app_cons. simpl. by rewrite IH.
Qed.

(** A common suffix can be cancelled. *)
Lemma string_app_inv_tail (t s1 s2 : string) : s1 +:+ t = s2 +:+ t -> s1 = s2.
Proof.
  revert s2. induction s1 as [|c s1 IH]; intros [|c2 s2] H.
  - reflexivity.
  - apply (f_equal String.length) in H.
    rewrite string_app_nil_l, string_app_cons in H. simpl in H.
    rewrite string_length_app in H. lia.
  - apply (f_equal String.length) in H.
    rewrite string_app_nil_l, string_app_cons in H. simpl in H.
    rewrite string_length_app in H. lia.
  - rewrite !string_app_cons in H. injection H as -> H. f_equal. by apply IH.
Qed.

End Strings.

(** ** Filename policy *)

Section FilenameFacts.
Import JS Filename.

(** The negated class of the regular expression is the complement of
    the allowed characters. *)
Lemma class_matches_allowed (c : ascii) :
  class_matches true filename_class c = negb (allowed c).
Proof. destruct c as [[] [] [] [] [] [] [] []]; reflexivity. Qed.

Lemma replace_class_sanitize (s : string) :
  replace_class true filename_class "_" s = sanitize s.
Proof.
  induction s as [|c s IH]; [reflexivity|].
  cbn [replace_class sanitize]. rewrite class_matches_allowed, IH.
  destruct (allowed c); reflexivity.
Qed.

Lemma generateFilename_sanitize (scenarioId viewportKey : string) :
  generateFilename scenarioId viewportKey
  = sanitize scenarioId +:+ "__" +:+ sanitize viewportKey +:+ ".png".
Proof. unfold generateFilename. by rewrite !replace_class_sanitize. Qed.

Lemma sanitize_allowed (s : string) : all_allowed s = true -> sanitize s = s.
Proof.
  induction s as [|c s IH]; [reflexivity|].
  simpl. intros [Hc Hs]%andb_prop. rewrite Hc. f_equal. by apply IH.
Qed.

Lemma separator_free_tail (c : ascii) (s : string) :
  separator_free (String c s) = true -> separator_free s = true.
Proof.
  simpl. destruct (is_underscore c); [|done].
  destruct s as [|d s]; [done|]. by intros [_ H]%andb_prop.
Qed.

(** An identifier followed by anything never starts with the separator,
    unless it is empty. *)
Lemma separator_free_head (s r t : string) :
  separator_free s = true ->
  s +:+ t = String "_" (String "_" r) -> s = EmptyString.
Proof.
  destruct s as [|c [|d s]]; [done|..].
  - rewrite !string_app_cons. intros H [= -> _]. discriminate H.
  - rewrite !string_app_cons. intros H [= -> -> _]. discriminate H.
Qed.

(** The first separator of [s +:+ "__" +:+ r] is where [s] ends. *)
Lemma split_at_separator (s1 s2 r1 r2 : string) :
  separator_free s1 = true -> separator_free s2 = true ->
  s1 +:+ "__" +:+ r1 = s2 +:+ "__" +:+ r2 -> s1 = s2 /\ r1 = r2.
Proof.
  change ("__" +:+ r1) with (String "_" (String "_" r1)).
  change ("__" +:+ r2) with (String "_" (String "_" r2)).
  revert s2. induction s1 as [|c s1 IH]; intros s2 H1 H2 H.
  - rewrite string_app_nil_l in H. symmetry in H.
    pose proof (separator_free_head _ _ _ H2 H) as ->.
    rewrite string_app_nil_l in H. by injection H as ->.
  - destruct s2 as [|c2 s2].
    + rewrite (string_app_nil_l (String "_" _)) in H.
      by pose proof (separator_free_head _ _ _ H1 H).
    + rewrite !string_app_cons in H. injection H as -> H.
      destruct (IH s2) as [-> ->]; eauto using separator_free_tail.
Qed.

End FilenameFacts.

Section FilenameClaims.
Import JS Filename.

(** C6, as stated, fails: the filename is not collision-free.  Two
    distinct scenario ids that differ only in a replaced character map to
    the same file. *)
Lemma generateFilename_collision :
  ("a/b", "x") <> ("a_b", "x")
  /\ generateFilename "a/b" "x" = generateFilename "a_b" "x".
Proof. split; [discriminate | reflexivity]. Qed.

(** C6 (amended).  [generateFilename id key] is
    [sanitize id + "__" + sanitize key + ".png"], where [sanitize] replaces
    every character outside [[A-Za-z0-9_-]] by an underscore; it is a
    function of its arguments, and two pairs made of allowed characters
    only, whose ids hold no ["__"] and do not end in ["_"], get distinct
    filenames as soon as they differ in id or key. *)
Theorem generateFilename_policy (id1 key1 : string) :
  generateFilename id1 key1
  = sanitize id1 +:+ "__" +:+ sanitize key1 +:+ ".png"
  /\ forall id2 key2 : string,
       all_allowed id1 = true -> all_allowed key1 = true ->
       all_allowed id2 = true -> all_allowed key2 = true ->
       separator_free id1 = true -> separator_free id2 = true ->
       id1 <> id2 \/ key1 <> key2 ->
       generateFilename id1 key1 <> generateFilename id2 key2.
Proof.
  split; [apply generateFilename_sanitize|].
  intros id2 key2 Hi1 Hk1 Hi2 Hk2 Hs1 Hs2 Hne Heq.
  rewrite !generateFilename_sanitize, !sanitize_allowed in Heq by done.
  rewrite <- !(string_app_assoc _ "__"), <- !string_app_assoc in Heq.
  apply string_app_inv_tail in Heq. rewrite !string_app_assoc in Heq.
  apply split_at_separator in Heq as [??]; [|done..].
  destruct Hne; congruence.
Qed.

Lemma generateFilename_policy_witness :
  generateFilename "home" "desktop" = "home__desktop.png"
  /\ generateFilename "home" "desktop" <> generateFilename "home" "mobile".
Proof.
  split; [reflexivity|].
  apply (proj2 (generateFilename_policy "home" "desktop") "home" "mobile");
    try reflexivity.
  right. discriminate.
Defined.

End FilenameClaims.

(** ** Domain substitution *)

Section UrlFacts.
Import JS Url.

Lemma trim_start_empty (s : string) :
  trim_start s = EmptyString <-> all_white_space s = true.
Proof.
  induction s as [|c s IH]; [done|].
  simpl. destruct (is_white_space c); [done|]. split; discriminate.
Qed.

Lemma trim_start_head (s : string) :
  trim_start s = EmptyString \/ all_white_space (trim_start s) = false.
Proof.
  induction s as [|c s IH]; [by left|].
  simpl. destruct (is_white_space c) eqn:Hc; [done|].
  right. simpl. by rewrite Hc.
Qed.

Lemma trim_end_empty (s : string) :
  trim_end s = EmptyString <-> all_white_space s = true.
Proof.
  destruct s as [|c s]; [done|].
  cbn [trim_end]. destruct (all_white_space (String c s)); [done|].
  split; discriminate.
Qed.

(** [d.trim() === ''] says that [d] is blank. *)
Lemma trim_empty (d : string) : trim d = EmptyString <-> all_white_space d = true.
Proof.
  unfold trim. rewrite trim_end_empty.
  destruct (trim_start_head d) as [H|H].
  - rewrite H. simpl. rewrite <- trim_start_empty. by rewrite H.
  - rewrite H. split; [discriminate|].
    intros Hd%trim_start_empty. rewrite Hd in H. discriminate.
Qed.

Lemma no_domain_blank (d : string) :
  no_domain (Value d) = all_white_space d.
Proof.
  unfold no_domain. destruct d as [|c d]; [reflexivity|].
  cbn [truthy negb orb].
  destruct (all_white_space (String c d)) eqn:H.
  - apply bool_decide_eq_true. by apply trim_empty.
  - apply bool_decide_eq_false. rewrite trim_empty. congruence.
Qed.

Lemma all_slashes_slashes (s : string) :
  all_slashes s = true -> s = slashes (String.length s).
Proof.
  induction s as [|c s IH]; [done|].
  simpl. intros [Hc Hs]%andb_prop. rewrite <- IH by done.
  apply N.eqb_eq in Hc. f_equal.
  apply (f_equal ascii_of_N) in Hc. unfold code in Hc.
  by rewrite ascii_N_embedding in Hc.
Qed.

Lemma all_slashes_app (s : string) (k : nat) :
  all_slashes (s +:+ slashes k) = all_slashes s.
Proof.
  induction s as [|c s IH].
  - rewrite string_app_nil_l. by induction k.
  - rewrite string_app_cons. simpl. by rewrite IH.
Qed.

(** The regular expression deletes exactly the run of slashes at the
    end: what is left does not end in a slash, and the argument is what
    is left followed by slashes only. *)
Lemma strip_trailing_slashes_spec (s : string) :
  exists k : nat,
    s = strip_trailing_slashes s +:+ slashes k
    /\ ends_with_slash (strip_trailing_slashes s) = false.
Proof.
  induction s as [|c s (k & Hs & He)]; [by exists O|].
  cbn [strip_trailing_slashes].
  destruct (all_slashes (String c s)) eqn:Hall.
  - exists (String.length (String c s)). split; [|done].
    rewrite string_app_nil_l. by apply all_slashes_slashes.
  - exists k. rewrite string_app_cons, <- Hs. split; [done|].
    destruct (strip_trailing_slashes s) as [|d r] eqn:Hr; [|done].
    simpl. rewrite string_app_nil_l in Hs. rewrite Hs in Hall.
    simpl in Hall. pose proof (all_slashes_app EmptyString k) as Hk.
    rewrite string_app_nil_l in Hk. simpl in Hk. rewrite Hk in Hall.
    by rewrite andb_true_r in Hall.
Qed.

End UrlFacts.

Section UrlClaims.
Import JS Url.
Variable parse_url : string -> option URL.

(** C10.  [replaceDomain originalUrl newDomain] is [originalUrl] when
    [newDomain] is null, undefined or blank, and when [originalUrl] does
    not parse; otherwise it is [newDomain] without its trailing slashes
    followed by the pathname, the query string and the hash of the parsed
    URL. *)
Theorem replaceDomain_spec (originalUrl : string) (newDomain : nullable string) :
  let result := fst (replaceDomain parse_url originalUrl newDomain) in
  match newDomain with
  | Null | Undefined => result = originalUrl
  | Value d =>
      if all_white_space d then result = originalUrl
      else
        match parse_url originalUrl with
        | None => result = originalUrl
        | Some u =>
            exists (stem : string) (k : nat),
              d = stem +:+ slashes k
              /\ ends_with_slash stem = false
              /\ result = stem +:+ pathname u +:+ search u +:+ hash u
        end
  end.
Proof.
  destruct newDomain as [| |d]; [reflexivity..|].
  cbn zeta. unfold replaceDomain. rewrite no_domain_blank.
  destruct (all_white_space d); [reflexivity|].
  destruct (parse_url originalUrl) as [u|]; [|reflexivity].
  destruct (strip_trailing_slashes_spec d) as (k & Hd & He).
  exists (strip_trailing_slashes d), k. by repeat split.
Qed.

End UrlClaims.

(** A run of [replaceDomain] taken from its documentation, with a parser
    that knows that one URL. *)
Example replaceDomain_documented :
  let parse_url (s : string) :=
    if bool_decide (s = "https://local.site/page?foo=bar#section")
    then Some (Url.mkURL "/page" "?foo=bar" "#section") else None in
  fst (Url.replaceDomain parse_url "https://local.site/page?foo=bar#section"
         (JS.Value "https://prod.site/"))
  = "https://prod.site/page?foo=bar#section"
  /\ fst (Url.replaceDomain parse_url "https://local.site/page" JS.Null)
     = "https://local.site/page"
  /\ fst (Url.replaceDomain parse_url "not a url" (JS.Value "https://prod.site//"))
     = "not a url".
Proof. repeat split; reflexivity. Qed.

(** ** Bounded retry *)

Section RetryFacts.
Import JS Retry.
Variable maxRetries retryDelay : Z.
Variable captureScreenshot : Z -> outcome string.
(** what each attempt throws *)
Variable failure : Z -> thrown.

Lemma count_attempts_with_delays (n : nat) (from delay : Z) :
  count_attempts (attempts_with_delays n from delay) = n.
Proof.
  revert from. induction n as [|[|n] IH]; intros from; [done..|].
  change (S (count_attempts (attempts_with_delays (S n) (from + 1) delay))
          = S (S n)).
  by rewrite IH.
Qed.

(** With [n] attempts left, all failing, the loop makes them all and
    throws what the last one left in [lastError]. *)
Lemma retry_loop_exhausted (n : nat) :
  forall (fuel : nat) (attempt : Z) (lastError : option thrown)
         (log : list event),
    attempt + Z.of_nat n = maxRetries + 1 ->
    (forall i, attempt <= i <= maxRetries ->
               captureScreenshot i = Thrown (failure i)) ->
    (n < fuel)%nat ->
    retry_loop maxRetries retryDelay captureScreenshot fuel attempt
      lastError log
    = Some (Thrown (match n with
                    | O => default (ErrorObj "Screenshot capture failed")
                             lastError
                    | S _ => as_error (failure maxRetries)
                    end),
            log ++ attempts_with_delays n attempt retryDelay).
Proof.
  induction n as [|n IH]; intros fuel attempt lastError log Hn Hfail Hfuel;
    (destruct fuel as [|fuel]; [lia|]); cbn [retry_loop].
  - destruct (Z.leb_spec attempt maxRetries); [lia|].
    by rewrite app_nil_r.
  - destruct (Z.leb_spec attempt maxRetries); [|lia].
    rewrite Hfail by lia.
    rewrite IH; [|lia|intros; apply Hfail; lia|lia].
    destruct n as [|n].
    + replace attempt with maxRetries by lia.
      rewrite Z.ltb_irrefl. by rewrite app_nil_r.
    + destruct (Z.ltb_spec attempt maxRetries); [|lia].
      by rewrite <- !app_assoc.
Qed.

End RetryFacts.

Section RetryClaims.
Import JS Retry.

(** C5.  When [maxRetries >= 0] and every attempt of [captureScreenshot]
    fails, [captureWithRetry] makes exactly [1 + maxRetries] attempts, waits
    [retryDelay] between two consecutive attempts and nowhere else, and
    throws what the final attempt threw (an [Error] as it is; another
    thrown value as the [Error] the [catch] clause makes of it). *)
Theorem captureWithRetry_exhausted (maxRetries retryDelay : Z)
    (captureScreenshot : Z -> outcome string) (failure : Z -> thrown) :
  0 <= maxRetries ->
  (forall i, 0 <= i <= maxRetries ->
             captureScreenshot i = Thrown (failure i)) ->
  exists log : list event,
    captureWithRetry maxRetries retryDelay captureScreenshot
    = Some (Thrown (as_error (failure maxRetries)), log)
    /\ log = attempts_with_delays (Z.to_nat (1 + maxRetries)) 0 retryDelay
    /\ Z.of_nat (count_attempts log) = 1 + maxRetries
    /\ (forall message, failure maxRetries = ErrorObj message ->
          as_error (failure maxRetries) = failure maxRetries).
Proof.
  intros Hmax Hfail. eexists. split; [|split; [reflexivity|split]].
  - unfold captureWithRetry.
    rewrite (retry_loop_exhausted maxRetries retryDelay captureScreenshot
               failure (Z.to_nat (1 + maxRetries))); [|lia|done|lia].
    rewrite app_nil_l.
    destruct (Z.to_nat (1 + maxRetries)) eqn:E; [lia|done].
  - rewrite count_attempts_with_delays. lia.
  - by intros message ->.
Qed.

(** Two retries, one second apart, over a capture that always times
    out: three attempts, two delays, the last error. *)
Lemma captureWithRetry_exhausted_witness :
  exists log : list event,
    captureWithRetry 2 1000 (fun _ => Thrown (ErrorObj "Timeout 30000ms exceeded"))
    = Some (Thrown (ErrorObj "Timeout 30000ms exceeded"), log)
    /\ log = [Attempt 0; Delay 1000; Attempt 1; Delay 1000; Attempt 2]
    /\ Z.of_nat (count_attempts log) = 3.
Proof.
  destruct (captureWithRetry_exhausted 2 1000
              (fun _ => Thrown (ErrorObj "Timeout 30000ms exceeded"))
              (fun _ => ErrorObj "Timeout 30000ms exceeded"))
    as (log & Hrun & Hlog & Hcount & _); [lia|reflexivity|].
  exists log. repeat split; assumption.
Defined.

(** A thrown value that is not an [Error] surfaces as
    [Error('Unknown error')], and a successful attempt ends the loop. *)
Example captureWithRetry_other_runs :
  captureWithRetry 1 500 (fun _ => Thrown (NonError "boom"))
  = Some (Thrown (ErrorObj "Unknown error"),
          [Attempt 0; Delay 500; Attempt 1])
  /\ captureWithRetry 2 500
       (fun i => if i =? 1 then Returned "shots/home__desktop.png"
                 else Thrown (ErrorObj "net::ERR_CONNECTION_RESET"))
     = Some (Returned "shots/home__desktop.png",
             [Attempt 0; Delay 500; Attempt 1]).
Proof. split; reflexivity. Qed.

End RetryClaims.

(** ** Interaction executor *)

Section InteractionFacts.
Import JS Interactions.
Variable page_action : list event -> event -> option thrown.

(** The executor runs a sequence part by part; an error of the first
    part ends the run. *)
Lemma executeInteractions_app (pre post : list Interaction) :
  forall log : list event,
    executeInteractions page_action (pre ++ post) log
    = match executeInteractions page_action pre log with
      | (Returned _, log') => executeInteractions page_action post log'
      | (Thrown err, log') => (Thrown err, log')
      end.
Proof.
  induction pre as [|i pre IH]; intros log; [reflexivity|].
  cbn [app executeInteractions].
  destruct (dispatch page_action i log) as [[[]|err] log1]; [apply IH|done].
Qed.

(** The [default] arm of the [switch]. *)
Lemma dispatch_unknown (i : Interaction) (log : list event) :
  known_type (type i) = false ->
  dispatch page_action i log
  = (Returned tt,
     log ++ [ConsoleWarn ("Unknown interaction type: " +:+ type i)]).
Proof.
  unfold known_type, dispatch.
  intros [[[H1 H2]%orb_false_elim H3]%orb_false_elim H4]%orb_false_elim.
  by rewrite H1, H2, H3, H4.
Qed.

Lemma settle_unknown (i : Interaction) (log : list event) :
  known_type (type i) = false ->
  settle i log
  = log ++ match positive_wait i with
           | Some ms => [WaitForTimeout ms]
           | None => []
           end.
Proof.
  unfold known_type, settle. intros [_ H]%orb_false_elim. rewrite H.
  destruct (positive_wait i); [done|by rewrite app_nil_r].
Qed.

End InteractionFacts.

Section InteractionClaims.
Import JS Interactions.

(** C9.  An interaction whose type is none of click, type, mouseover and
    wait only adds a warning to the console (and the settle delay of its
    [wait_ms], when positive): no page action is made for it, it raises
    no error, and the interactions after it are executed, in order, as
    they would be without it. *)
Theorem executeInteractions_unknown
    (page_action : list event -> event -> option thrown)
    (pre post : list Interaction) (i : Interaction) (log : list event) :
  known_type (type i) = false ->
  let skipped :=
    ConsoleWarn ("Unknown interaction type: " +:+ type i)
    :: match positive_wait i with
       | Some ms => [WaitForTimeout ms]
       | None => []
       end in
  forallb (fun e => negb (is_page_action e)) skipped = true
  /\ executeInteractions page_action [i] log = (Returned tt, log ++ skipped)
  /\ executeInteractions page_action (pre ++ i :: post) log
     = match executeInteractions page_action pre log with
       | (Returned _, log') =>
           executeInteractions page_action post (log' ++ skipped)
       | (Thrown err, log') => (Thrown err, log')
       end.
Proof.
  intros Hi skipped. split; [by subst skipped; destruct (positive_wait i)|].
  assert (Hone : forall l rest,
             executeInteractions page_action (i :: rest) l
             = executeInteractions page_action rest (l ++ skipped)).
  { intros l rest. cbn [executeInteractions].
    rewrite dispatch_unknown, settle_unknown by done.
    by rewrite <- app_assoc. }
  split; [apply Hone|].
  rewrite executeInteractions_app.
  destruct (executeInteractions page_action pre log) as [[[]|err] log'];
    [apply Hone|done].
Qed.

(** A hover, an interaction of the unknown type "scroll" with a settle
    delay, then a click: the page sees the hover and the click. *)
Lemma executeInteractions_unknown_witness :
  executeInteractions (fun _ _ => None)
    ([mkInteraction "mouseover" "#menu" None None]
       ++ mkInteraction "scroll" "#footer" None (Some 250)
       :: [mkInteraction "click" "#cta" None None]) []
  = (Returned tt,
     [Hover "#menu"; ConsoleWarn "Unknown interaction type: scroll";
      WaitForTimeout 250; Click "#cta"]).
Proof.
  rewrite (proj2 (proj2 (executeInteractions_unknown (fun _ _ => None)
             [mkInteraction "mouseover" "#menu" None None]
             [mkInteraction "click" "#cta" None None]
             (mkInteraction "scroll" "#footer" None (Some 250)) []
             eq_refl))).
  reflexivity.
Defined.

(** The known types, for comparison: the action, then the settle delay;
    a rejected action ends the run. *)
Example executeInteractions_known :
  executeInteractions (fun _ _ => None)
    [mkInteraction "type" "#q" (Some "lung") (Some 100);
     mkInteraction "wait" EmptyString None (Some 500)] []
  = (Returned tt, [Fill "#q" "lung"; WaitForTimeout 100; WaitForTimeout 500])
  /\ executeInteractions
       (fun _ e => match e with
                   | Click _ => Some (ErrorObj "Timeout 30000ms exceeded")
                   | _ => None
                   end)
       [mkInteraction "click" "#gone" None None;
        mkInteraction "mouseover" "#menu" None None] []
     = (Thrown (ErrorObj "Timeout 30000ms exceeded"), [Click "#gone"]).
Proof. split; reflexivity. Qed.

End InteractionClaims.

(** ** The scroll step *)

Section LazyScrollFacts.
Import LazyScroll.

Lemma scrolled_app (l1 l2 : list scroll_event) :
  scrolled (l1 ++ l2) = scrolled l1 + scrolled l2.
Proof.
  induction l1 as [|[dx dy|x y] l1 IH]; cbn [app scrolled]; lia.
Qed.

Lemma scrolled_replicate (m : nat) :
  scrolled (replicate m (ScrollBy 0 distance)) = distance * Z.of_nat m.
Proof. induction m as [|m IH]; cbn [replicate scrolled]; lia. Qed.

Section Guarded.
Import Guarded.
Variable startTime : Z.
Variable now scrollHeight : nat -> Z.

(** With the ceiling at most [n] increments away, the timer resolves
    within [n + 1] callbacks, after at most [n] increments and a final
    return to the top. *)
Lemma timer_resolves (n : nat) :
  forall (fuel k : nat) (totalHeight : Z) (log : list scroll_event),
    maxScrollHeight <= totalHeight + distance * Z.of_nat n ->
    (n < fuel)%nat ->
    exists m t : nat,
      (m <= n)%nat /\ (t <= S n)%nat
      /\ timer startTime now scrollHeight fuel k totalHeight log
         = Some (mkResolved (t + k)%nat
                   (log ++ replicate m (ScrollBy 0 distance)
                        ++ [ScrollTo 0 0])).
Proof.
  induction n as [|n IH]; intros fuel k totalHeight log Hn Hfuel;
    (destruct fuel as [|fuel]; [lia|]); cbn [timer].
  - exists O, 1%nat. split; [lia|]. split; [lia|].
    destruct (now k - startTime >? maxScrollTime); [done|].
    destruct (Z.geb_spec totalHeight maxScrollHeight); [done|lia].
  - destruct (now k - startTime >? maxScrollTime);
      [exists O, 1%nat; split; [lia|split; [lia|done]]|].
    destruct (totalHeight >=? maxScrollHeight);
      [exists O, 1%nat; split; [lia|split; [lia|done]]|].
    destruct (totalHeight + distance >=? scrollHeight k).
    + exists 1%nat, 1%nat. split; [lia|]. split; [lia|].
      by rewrite <- app_assoc.
    + destruct (IH fuel (S k) (totalHeight + distance)
                  (log ++ [ScrollBy 0 distance])) as (m & t & Hm & Ht & ->);
        [lia..|].
      exists (S m), (S t). split; [lia|]. split; [lia|].
      rewrite <- app_assoc. do 2 f_equal. lia.
Qed.
End Guarded.

End LazyScrollFacts.

Section LazyScrollClaims.
Import LazyScroll.

(** The revision with the guards is bounded on every page: whatever
    the clock and the height of the body do, the promise resolves
    within 168 callbacks of the timer, after at most 167 increments of 300
    pixels (50100 pixels), and the last thing done is the return to the
    top. *)
Lemma guarded_triggerLazyLoading_bounded
    (startTime : Z) (now scrollHeight : nat -> Z) (fuel : nat) :
  (168 <= fuel)%nat ->
  exists (m t : nat),
    (m <= 167)%nat /\ (t <= 168)%nat
    /\ Guarded.triggerLazyLoading startTime now scrollHeight fuel
       = Some (mkResolved t
                 (replicate m (ScrollBy 0 distance) ++ [ScrollTo 0 0]))
    /\ scrolled (replicate m (ScrollBy 0 distance) ++ [ScrollTo 0 0])
       <= 50100.
Proof.
  intros Hfuel.
  destruct (timer_resolves startTime now scrollHeight 167 fuel 0 0 [])
    as (m & t & Hm & Ht & Hrun); [done|lia|].
  exists m, t. split; [done|]. split; [done|]. split.
  - unfold Guarded.triggerLazyLoading. rewrite Hrun.
    by rewrite Nat.add_0_r.
  - rewrite scrolled_app, scrolled_replicate. unfold distance.
    cbn [scrolled]. lia.
Qed.

Lemma plain_timer_endless (fuel : nat) :
  forall (k : nat) (log : list scroll_event),
    Plain.timer endless_page fuel k (distance * Z.of_nat k) log = None.
Proof.
  induction fuel as [|fuel IH]; intros k log; [reflexivity|].
  cbn [Plain.timer].
  destruct (Z.geb_spec (distance * Z.of_nat k + distance) (endless_page k))
    as [H|_]; [unfold endless_page, distance in H; lia|].
  replace (distance * Z.of_nat k + distance)
    with (distance * Z.of_nat (S k)) by (unfold distance; lia).
  apply IH.
Qed.

(** C8 fails on the revisions of the screenshot service without the
    guards: on the endless page the scroll step never resolves, however
    many callbacks of the timer run. *)
Theorem plain_triggerLazyLoading_endless (fuel : nat) :
  Plain.triggerLazyLoading endless_page fuel = None.
Proof. apply (plain_timer_endless fuel O []). Qed.

(** On the same page the guarded revision stops at the ceiling. *)
Example guarded_triggerLazyLoading_endless :
  Guarded.triggerLazyLoading 0 (fun k => 100 * (Z.of_nat k + 1))
    endless_page 200
  = Some (mkResolved 168
            (replicate 167 (ScrollBy 0 300) ++ [ScrollTo 0 0])).
Proof. vm_compute. reflexivity. Qed.

(** On a page of fixed height both revisions cover the height and
    return to the top. *)
Example triggerLazyLoading_short_page :
  Plain.triggerLazyLoading (fun _ => 700) 10
  = Some (mkResolved 3 [ScrollBy 0 300; ScrollBy 0 300; ScrollBy 0 300;
                        ScrollTo 0 0])
  /\ Guarded.triggerLazyLoading 0 (fun k => 100 * (Z.of_nat k + 1))
       (fun _ => 700) 10
     = Plain.triggerLazyLoading (fun _ => 700) 10.
Proof. split; reflexivity. Qed.

End LazyScrollClaims.

(** ** Worker pool *)

Section PoolFacts.
Import Pool.
Context {Task Work Result Counters : Type}.
Variable tasks : list Task.
Variable finish : Task -> Work -> Result.
Variable count : Result -> Counters -> Counters.
Variable numWorkers : nat.
Variable c0 : Counters.
Variable results0 : list Result.

Local Abbreviation pool := (pool (Result := Result) (Counters := Counters)).
Local Abbreviation step := (step tasks finish count).
Local Abbreviation steps := (steps tasks finish count).
Local Abbreviation invariant :=
  (invariant tasks finish numWorkers results0).

Lemma in_flight_app (ws1 ws2 : list worker) :
  in_flight (ws1 ++ ws2) = in_flight ws1 ++ in_flight ws2.
Proof.
  induction ws1 as [|[| |] ws1 IH]; cbn [app in_flight]; by rewrite ?IH.
Qed.

(** A list of workers, split at the worker that makes the step. *)
Lemma workers_split (ws : list worker) (w : nat) (old new : worker) :
  ws !! w = Some old ->
  ws = take w ws ++ old :: drop (S w) ws
  /\ <[w := new]> ws = take w ws ++ new :: drop (S w) ws.
Proof.
  intros H. split.
  - by rewrite take_drop_middle.
  - apply insert_take_drop. by eapply lookup_lt_Some.
Qed.

Lemma in_flight_insert (ws : list worker) (w : nat) (old new : worker) :
  ws !! w = Some old ->
  in_flight ws ≡ₚ in_flight [old] ++ in_flight (take w ws ++ drop (S w) ws)
  /\ in_flight (<[w := new]> ws)
     ≡ₚ in_flight [new] ++ in_flight (take w ws ++ drop (S w) ws).
Proof.
  intros H. destruct (workers_split ws w old new H) as [E1 E2].
  rewrite E2. rewrite E1 at 1.
  rewrite !in_flight_app.
  change (old :: drop (S w) ws) with ([old] ++ drop (S w) ws).
  change (new :: drop (S w) ws) with ([new] ++ drop (S w) ws).
  rewrite !in_flight_app. split; solve_Permutation.
Qed.

Lemma weight_insert (ws : list worker) (w : nat) (old new : worker) :
  ws !! w = Some old ->
  (sum_list_with weight (<[w := new]> ws) + weight old
   = sum_list_with weight ws + weight new)%nat.
Proof.
  intros H. destruct (workers_split ws w old new H) as [E1 E2].
  assert (Hsum : sum_list_with weight ws
                 = (sum_list_with weight (take w ws) + weight old
                    + sum_list_with weight (drop (S w) ws))%nat).
  { rewrite E1 at 1. rewrite sum_list_with_app. cbn [sum_list_with]. lia. }
  rewrite E2, Hsum, sum_list_with_app. cbn [sum_list_with]. lia.
Qed.

Lemma in_flight_exited (ws : list worker) :
  Forall (fun w => w = Exited) ws -> in_flight ws = [].
Proof. induction 1 as [|w ws -> _ IH]; [done|]. exact IH. Qed.

Lemma invariant_start : invariant (start numWorkers c0 results0).
Proof.
  split; cbn.
  - assert (H : in_flight (replicate numWorkers Claiming) = [])
      by (induction numWorkers; [done|by cbn]).
    by rewrite H.
  - intros w [[=] _]%lookup_replicate_1.
  - apply length_replicate.
  - exists []. by rewrite app_nil_r.
Qed.

Lemma invariant_step (s s' : pool) :
  invariant s -> step s s' -> invariant s'.
Proof.
  intros [Hc He Hw Hr] Hstep.
  destruct Hstep as [s w Hlook Hlt | s w Hlook Hle | s w i task o Hlook Htask].
  - destruct (in_flight_insert _ w _ (Awaiting (taskIndex s)) Hlook)
      as [E1 E2].
    split; cbn [taskIndex counters results workers pushed].
    + rewrite E2. rewrite E1 in Hc. cbn [in_flight app] in *.
      replace (Nat.min (S (taskIndex s)) (length tasks))
        with (S (taskIndex s)) by lia.
      replace (Nat.min (taskIndex s) (length tasks))
        with (taskIndex s) in Hc by lia.
      rewrite seq_S, <- Hc. cbn [Nat.add]. solve_Permutation.
    + intros w' Hw'. destruct (decide (w = w')) as [->|Hne].
      * rewrite list_lookup_insert_eq in Hw' by (by eapply lookup_lt_Some).
        discriminate.
      * rewrite list_lookup_insert_ne in Hw' by done.
        apply He in Hw'. lia.
    + by rewrite length_insert.
    + done.
  - destruct (in_flight_insert _ w _ Exited Hlook) as [E1 E2].
    split; cbn [taskIndex counters results workers pushed].
    + rewrite E2. rewrite E1 in Hc. cbn [in_flight app] in *.
      replace (Nat.min (S (taskIndex s)) (length tasks))
        with (Nat.min (taskIndex s) (length tasks)) by lia.
      done.
    + intros w' Hw'. destruct (decide (w = w')) as [->|Hne]; [lia|].
      rewrite list_lookup_insert_ne in Hw' by done.
      apply He in Hw'. lia.
    + by rewrite length_insert.
    + done.
  - destruct (in_flight_insert _ w _ Claiming Hlook) as [E1 E2].
    split; cbn [taskIndex counters results workers pushed].
    + rewrite E2. rewrite E1 in Hc. cbn [in_flight app] in *.
      rewrite <- Hc. solve_Permutation.
    + intros w' Hw'. destruct (decide (w = w')) as [->|Hne].
      * rewrite list_lookup_insert_eq in Hw' by (by eapply lookup_lt_Some).
        discriminate.
      * rewrite list_lookup_insert_ne in Hw' by done. by apply He in Hw'.
    + by rewrite length_insert.
    + destruct Hr as (rs & -> & Hrs).
      exists (rs ++ [finish task o]). split; [by rewrite app_assoc|].
      apply Forall2_app; [done|].
      constructor; [by exists task, o|constructor].
Qed.

(** Every step uses up some of the budget. *)
Lemma budget_step (s s' : pool) :
  step s s' -> (budget tasks s' < budget tasks s)%nat.
Proof.
  unfold budget.
  intros [? w Hlook Hlt | ? w Hlook Hle | ? w i task o Hlook Htask];
    cbn [taskIndex workers].
  - pose proof (weight_insert _ w _ (Awaiting (taskIndex s0)) Hlook) as E.
    cbn [weight] in E. lia.
  - pose proof (weight_insert _ w _ Exited Hlook) as E.
    cbn [weight] in E. lia.
  - pose proof (weight_insert _ w _ Claiming Hlook) as E.
    cbn [weight] in E. lia.
Qed.

Lemma budget_start :
  budget tasks (start numWorkers c0 results0)
  = (3 * length tasks + numWorkers)%nat.
Proof.
  unfold budget, start. cbn [taskIndex workers].
  assert (H : sum_list_with weight (replicate numWorkers Claiming)
              = numWorkers)
    by (induction numWorkers as [|k IH]; [done|cbn; by rewrite IH]).
  rewrite H. lia.
Qed.

Lemma steps_invariant (n : nat) (s : pool) :
  steps n (start numWorkers c0 results0) s ->
  invariant s /\ (budget tasks s + n <= 3 * length tasks + numWorkers)%nat.
Proof.
  intros Hsteps. remember (start numWorkers c0 results0) as s0 eqn:E.
  induction Hsteps as [s|n s1 s2 s3 _ IH Hstep]; subst.
  - split; [|rewrite budget_start; lia]. apply invariant_start.
  - destruct IH as [Hinv Hb]; [done|]. split; [by eapply invariant_step|].
    apply budget_step in Hstep. lia.
Qed.

(** A pool with a worker still in its loop can make a step, once the
    awaited work settles. *)
Lemma invariant_progress (settles : Task -> Work) (s : pool) :
  invariant s -> ~ all_exited s -> exists s', step s s'.
Proof.
  intros [Hc _ _ _] Hnot.
  apply not_Forall_Exists in Hnot; [|intros w; apply _].
  apply Exists_exists in Hnot as (wk & Hin & Hne).
  apply list_elem_of_lookup in Hin as [w Hlook].
  destruct wk as [|i|]; [| |by destruct Hne].
  - destruct (le_lt_dec (length tasks) (taskIndex s)).
    + eexists. by apply step_exit with (w := w).
    + eexists. by apply step_claim with (w := w).
  - assert (Hi : (i < length tasks)%nat).
    { destruct (in_flight_insert _ w _ Claiming Hlook) as [E1 _].
      assert (Hin : i ∈ seq 0 (Nat.min (taskIndex s) (length tasks))).
      { rewrite <- Hc, E1. cbn [in_flight app]. set_solver. }
      apply elem_of_seq in Hin. lia. }
    apply lookup_lt_is_Some in Hi as [task Htask].
    eexists. by apply step_settle with (w := w) (o := settles task).
Qed.

(** A pool that has returned has one result for every task. *)
Lemma invariant_returned (s : pool) :
  (1 <= numWorkers)%nat -> invariant s -> all_exited s ->
  pushed s ≡ₚ seq 0 (length tasks)
  /\ exists rs, results s = results0 ++ rs
                /\ length rs = length tasks
                /\ Forall2 (result_of tasks finish) (pushed s) rs.
Proof.
  intros HW [Hc He Hw Hr] Hall.
  assert (Hfull : (length tasks <= taskIndex s)%nat).
  { pose proof Hall as Hall'. unfold all_exited in Hall'.
    destruct (workers s) as [|w ws]; [cbn in Hw; lia|].
    apply (He O). cbn. f_equal. by inversion Hall'. }
  rewrite (in_flight_exited _ Hall), app_nil_r in Hc.
  replace (Nat.min (taskIndex s) (length tasks)) with (length tasks)
    in Hc by lia.
  split; [done|]. destruct Hr as (rs & Hres & Hrs).
  exists rs. split; [done|]. split; [|done].
  apply Forall2_length in Hrs. rewrite <- Hrs, Hc. apply length_seq.
Qed.

End PoolFacts.

Section PoolClaims.
Import Pool.

(** C3.  A pool of [numWorkers] workers, [1 <= numWorkers <= N], over [N]
    tasks: at every moment no index is held twice (among the results
    pushed and the workers suspended on a task), every index held is an
    index of the list, and a pool that has not returned can make a step;
    the pool makes at most [3 N + numWorkers] steps; and when it returns
    (all workers have left their loop) the indices behind the results
    pushed are exactly [0 .. N-1], each once, every one with the result
    made of the outcome of its task. *)
Theorem pool_exactly_once {Task Work Result Counters : Type}
    (tasks : list Task) (finish : Task -> Work -> Result)
    (count : Result -> Counters -> Counters) (settles : Task -> Work)
    (numWorkers : nat) (c0 : Counters) (results0 : list Result)
    (n : nat) (s : pool) :
  (1 <= numWorkers <= length tasks)%nat ->
  steps tasks finish count n (start numWorkers c0 results0) s ->
  (n <= 3 * length tasks + numWorkers)%nat
  /\ NoDup (pushed s ++ in_flight (workers s))
  /\ (forall i, i ∈ pushed s ++ in_flight (workers s) ->
                (i < length tasks)%nat)
  /\ (~ all_exited s -> exists s', step tasks finish count s s')
  /\ (all_exited s ->
      pushed s ≡ₚ seq 0 (length tasks)
      /\ exists rs, results s = results0 ++ rs
                    /\ length rs = length tasks
                    /\ Forall2 (result_of tasks finish) (pushed s) rs).
Proof.
  intros HW Hsteps.
  destruct (steps_invariant tasks finish count numWorkers c0 results0 n s
              Hsteps) as [Hinv Hbudget].
  pose proof Hinv as [Hc He Hw Hr].
  split; [lia|]. split; [|split; [|split]].
  - rewrite Hc. apply NoDup_seq.
  - intros i Hi. rewrite Hc in Hi. apply elem_of_seq in Hi. lia.
  - by eapply invariant_progress.
  - by apply (invariant_returned tasks finish numWorkers results0); [lia|].
Qed.

(** Two tasks, two workers: both claim, the second task settles first,
    then the first, and both workers leave.  Six steps; the results come
    in the order of completion and cover both tasks. *)
Lemma pool_exactly_once_witness :
  let tasks := ["home"; "about"] in
  let finish (task : string) (ok : bool) := (task, ok) in
  let count (_ : string * bool) (c : nat) := S c in
  let final := mkPool 4 2%nat [("about", true); ("home", false)]
                 [Exited; Exited] [1; 0]%nat in
  steps tasks finish count 6 (start 2 O []) final
  /\ pushed final ≡ₚ seq 0 2
  /\ results final = [("about", true); ("home", false)].
Proof.
  intros tasks finish count final.
  assert (Hrun : steps tasks finish count 6 (start 2 O []) final).
  { eapply steps_S; [eapply steps_S; [eapply steps_S; [eapply steps_S;
      [eapply steps_S; [eapply steps_S; [apply steps_O|]|]|]|]|]|].
    - apply (step_claim tasks finish count (start 2 O []) 0);
        [reflexivity|cbn; lia].
    - apply (step_claim tasks finish count _ 1); [reflexivity|cbn; lia].
    - apply (step_settle tasks finish count _ 1 1 "about" true);
        reflexivity.
    - apply (step_settle tasks finish count _ 0 0 "home" false);
        reflexivity.
    - apply (step_exit tasks finish count _ 0); [reflexivity|cbn; lia].
    - apply (step_exit tasks finish count
               (mkPool 3 2%nat [("about", true); ("home", false)]
                  [Exited; Claiming] [1; 0]%nat) 1);
        [reflexivity|cbn; lia]. }
  split; [exact Hrun|].
  destruct (pool_exactly_once tasks finish count (fun _ => true) 2 O []
              6 final) as (_ & _ & _ & _ & Hfinal);
    [cbn; lia|exact Hrun|].
  destruct Hfinal as [Hperm _]; [by repeat constructor|].
  split; [exact Hperm|reflexivity].
Defined.

(** The same for the two pools of the sources, with the number of
    workers they create. *)
Corollary captureAll_exactly_once (configured : nat)
    (tasks : list Capture.CaptureTask) (n : nat) (s : pool) :
  (1 <= configured)%nat -> tasks <> [] ->
  steps tasks Capture.finish Capture.count n
    (Capture.captureAll_start configured tasks) s ->
  all_exited s ->
  pushed s ≡ₚ seq 0 (length tasks) /\ length (results s) = length tasks.
Proof.
  intros Hc Ht Hsteps Hall.
  assert (length tasks <> O) by (by destruct tasks).
  destruct (steps_invariant tasks Capture.finish Capture.count
              (Nat.min configured (length tasks)) O [] n s Hsteps)
    as [Hinv _].
  assert (Hfinal := invariant_returned tasks Capture.finish
                      (Nat.min configured (length tasks)) [] s).
  destruct Hfinal as (Hperm & rs & -> & Hlen & _); [lia|done..|]. by split.
Qed.

Corollary runTests_exactly_once (configured : nat)
    (tasks : list RunTests.TestTask) (results0 : list Types.TestResult)
    (n : nat) (s : pool) :
  (1 <= configured)%nat -> tasks <> [] ->
  steps tasks RunTests.finish RunTests.count n
    (RunTests.runTests_start configured tasks results0) s ->
  all_exited s ->
  pushed s ≡ₚ seq 0 (length tasks)
  /\ length (results s) = (length results0 + length tasks)%nat.
Proof.
  intros Hc Ht Hsteps Hall.
  assert (length tasks <> O) by (by destruct tasks).
  destruct (steps_invariant tasks RunTests.finish RunTests.count
              (Nat.min configured (length tasks)) (RunTests.mkCounters 0 0 0)
              results0 n s Hsteps) as [Hinv _].
  assert (Hfinal := invariant_returned tasks RunTests.finish
                      (Nat.min configured (length tasks)) results0 s).
  destruct Hfinal as (Hperm & rs & -> & Hlen & _); [lia|done..|].
  split; [done|]. rewrite length_app. lia.
Qed.

End PoolClaims.

(** ** Comparison engine *)

Section NumberFacts.
Import JS.

Lemma round_inject_Z (q : Q) (t : Z) : (q == inject_Z t)%Q -> round q = t.
Proof.
  intros H. unfold round. rewrite H. unfold Qfloor, Qplus, inject_Z.
  cbn [Qnum Qden]. symmetry. apply (Z.div_unique _ _ _ 1); lia.
Qed.

Lemma Qgtb_false (a b : Q) : Qgtb a b = false <-> (a <= b)%Q.
Proof. unfold Qgtb. rewrite negb_false_iff. apply Qle_bool_iff. Qed.

Lemma Qgtb_true (a b : Q) : Qgtb a b = true <-> ~ (a <= b)%Q.
Proof.
  rewrite <- Qgtb_false. destruct (Qgtb a b); split; congruence.
Qed.

Lemma div_inject_pos (d t : Z) :
  0 < t -> div (inject_Z d) (inject_Z t) = Fin (inject_Z d / inject_Z t).
Proof.
  intros Ht. unfold div.
  destruct (Qeq_bool (inject_Z t) 0) eqn:E; [|reflexivity].
  apply Qeq_bool_eq in E. unfold Qeq in E. simpl in E. lia.
Qed.

End NumberFacts.

Section ComparisonFacts.
Import JS Fs Config Types Reference.
Variable config : VrtConfig.
Variable path_join : string -> string -> string.
Variable path_dirname : string -> string.
Variable pixelmatch : list Z -> list Z -> Z -> Z -> Q -> Z * list Z.
Variable odiff : file -> file -> Q -> outcome ODiff.odiff_result.

Lemma existsSync_Some (path : string) (f : file) (w : World) :
  files w !! path = Some f -> existsSync path w = true.
Proof. intros H. unfold existsSync. apply bool_decide_eq_true. by exists f. Qed.

Lemma existsSync_None (path : string) (w : World) :
  files w !! path = None -> existsSync path w = false.
Proof.
  intros H. unfold existsSync. apply bool_decide_eq_false.
  rewrite H. by intros [? [=]].
Qed.

Lemma files_ensureDirectoryExists (dirPath : string) (w : World) :
  files (ensureDirectoryExists dirPath w) = files w.
Proof. unfold ensureDirectoryExists. by destruct (existsSync dirPath w). Qed.

(** The two [evaluatePass] decide the criterion of the specification
    when the total is positive. *)
Lemma pixelmatch_evaluatePass (d : Z) (pct : num) (t : Z) :
  0 < t ->
  Pixelmatch.evaluatePass config d pct t = true <-> pass_criterion config d t.
Proof.
  intros Ht. unfold Pixelmatch.evaluatePass, pass_criterion.
  destruct (Z.eqb_spec d 0) as [->|Hd]; [by split; [left|]|].
  destruct (Qgtb (inject_Z d) (maxDiffPixels config)) eqn:E1.
  { apply Qgtb_true in E1. split; [discriminate|]. intros [?|[? _]]; done. }
  apply Qgtb_false in E1. rewrite div_inject_pos by done. cbn [gtb].
  destruct (Qgtb (inject_Z d / inject_Z t) (maxDiffPixelRatio config)) eqn:E2.
  - apply Qgtb_true in E2. split; [discriminate|]. intros [?|[_ ?]]; done.
  - apply Qgtb_false in E2. split; [by right|done].
Qed.

Lemma odiff_evaluatePass (d : Z) (pct : Q) (t : Z) :
  0 < t ->
  ODiff.evaluatePass config d pct t = true <-> pass_criterion config d t.
Proof.
  intros Ht. unfold ODiff.evaluatePass, pass_criterion.
  destruct (Z.eqb_spec d 0) as [->|Hd]; [by split; [left|]|].
  destruct (Qgtb (inject_Z d) (maxDiffPixels config)) eqn:E1.
  { apply Qgtb_true in E1. split; [discriminate|]. intros [?|[? _]]; done. }
  apply Qgtb_false in E1.
  destruct (Z.ltb_spec 0 t); [|lia].
  rewrite div_inject_pos by done. cbn [gtb].
  destruct (Qgtb (inject_Z d / inject_Z t) (maxDiffPixelRatio config)) eqn:E2.
  - apply Qgtb_true in E2. split; [discriminate|]. intros [?|[_ ?]]; done.
  - apply Qgtb_false in E2. split; [by right|done].
Qed.

(** *** The pixelmatch revision on two images that are both there *)

Lemma pixelmatch_compare_mismatch (baselinePath screenshotPath : string)
    (diffPath : option string) (baseline screenshot : Image) (w : World) :
  files w !! baselinePath = Some (Png baseline) ->
  files w !! screenshotPath = Some (Png screenshot) ->
  width baseline <> width screenshot \/ height baseline <> height screenshot ->
  Pixelmatch.compare config path_dirname pixelmatch baselinePath
    screenshotPath diffPath w
  = (Returned (Pixelmatch.mkComparisonResult false (-1) (Fin 100)
                 (width baseline * height baseline) None), w).
Proof.
  intros Hb Hs Hdim. unfold Pixelmatch.compare, loadImage.
  rewrite (existsSync_Some _ _ _ Hb), (existsSync_Some _ _ _ Hs), Hb, Hs.
  cbn [negb].
  destruct (Z.eqb_spec (width baseline) (width screenshot));
    destruct (Z.eqb_spec (height baseline) (height screenshot));
    cbn [negb orb]; try reflexivity.
  destruct Hdim; done.
Qed.

Lemma pixelmatch_compare_pixels (baselinePath screenshotPath : string)
    (diffPath : option string) (baseline screenshot : Image) (w : World) :
  files w !! baselinePath = Some (Png baseline) ->
  files w !! screenshotPath = Some (Png screenshot) ->
  width baseline = width screenshot ->
  height baseline = height screenshot ->
  exists (r : Pixelmatch.ComparisonResult) (w' : World),
    Pixelmatch.compare config path_dirname pixelmatch baselinePath
      screenshotPath diffPath w = (Returned r, w')
    /\ Pixelmatch.cr_diffPixels r
       = fst (pixelmatch (data baseline) (data screenshot) (width baseline)
                (height baseline) (threshold config))
    /\ Pixelmatch.cr_totalPixels r = width baseline * height baseline
    /\ Pixelmatch.cr_passed r
       = Pixelmatch.evaluatePass config (Pixelmatch.cr_diffPixels r)
           (Pixelmatch.cr_diffPercentage r) (Pixelmatch.cr_totalPixels r).
Proof.
  intros Hb Hs Hw Hh. unfold Pixelmatch.compare, loadImage.
  rewrite (existsSync_Some _ _ _ Hb), (existsSync_Some _ _ _ Hs), Hb, Hs.
  cbn [negb]. rewrite <- Hw, <- Hh, !Z.eqb_refl. cbn [negb orb].
  destruct (pixelmatch _ _ _ _ _) as [d dd]. cbn [fst].
  destruct (given diffPath) as [p|]; [destruct (0 <? d)|];
    eexists _, _; (split; [reflexivity|]); by cbn.
Qed.

(** *** The ODiff revision on two files that are both there *)

Lemma odiff_compare_unfold (baselinePath screenshotPath : string)
    (diffPath : option string) (base cmp : file) (w : World) :
  files w !! baselinePath = Some base ->
  files w !! screenshotPath = Some cmp ->
  exists w0 : World,
    files w0 = files w
    /\ fst (ODiff.compare config path_dirname odiff baselinePath
              screenshotPath diffPath w)
       = match odiff base cmp (threshold config) with
         | Thrown err =>
             ODiff.failure (message_or "Unknown comparison error" err)
         | Returned ODiff.Match =>
             ODiff.mkComparisonResult true 0 0 0 None None None
         | Returned ODiff.LayoutDiff =>
             ODiff.mkComparisonResult true 0 0 0 None None
               (Some "dimension-mismatch")
         | Returned (ODiff.FileNotExists file) =>
             ODiff.failure ("File not found: " +:+ file)
         | Returned (ODiff.PixelDiff d pct img) =>
             if d =? 0
             then ODiff.mkComparisonResult true 0 0 0 None None None
             else
               let t := if Qgtb pct 0
                        then round (inject_Z d / (pct / 100)) else 0 in
               ODiff.mkComparisonResult (ODiff.evaluatePass config d pct t)
                 d pct t
                 (match given diffPath with
                  | Some p =>
                      if existsSync p
                           (writeFileSync p (Png img)
                              (log (PixelCompare baselinePath screenshotPath)
                                 w0))
                      then Some p else None
                  | None => None
                  end) None None
         end.
Proof.
  intros Hb Hs.
  exists (match given diffPath with
          | Some p => ensureDirectoryExists (path_dirname p) w
          | None => w
          end).
  split; [destruct (given diffPath); [apply files_ensureDirectoryExists|done]|].
  unfold ODiff.compare.
  rewrite (existsSync_Some _ _ _ Hb), (existsSync_Some _ _ _ Hs). cbn [negb].
  set (w0 := match given diffPath with
             | Some p => ensureDirectoryExists (path_dirname p) w
             | None => w
             end).
  assert (Hb0 : files w0 !! baselinePath = Some base).
  { subst w0. destruct (given diffPath);
      [by rewrite files_ensureDirectoryExists|done]. }
  assert (Hs0 : files w0 !! screenshotPath = Some cmp).
  { subst w0. destruct (given diffPath);
      [by rewrite files_ensureDirectoryExists|done]. }
  unfold ODiff.run_odiff. rewrite Hb0, Hs0.
  destruct (odiff base cmp (threshold config)) as [[| |file|d pct img]|err];
    try reflexivity.
  destruct (d =? 0); [reflexivity|].
  destruct (given diffPath); reflexivity.
Qed.

End ComparisonFacts.

Section ComparisonClaims.
Import JS Fs Config Types Reference.

(** The pixelmatch revision decides the criterion of the specification:
    a comparison that reaches the pixel comparison (both images are there
    and have the same, positive, dimensions) passes exactly when the count
    of pixelmatch is zero, or is within [maxDiffPixels] and its ratio to
    [width * height] within [maxDiffPixelRatio]. *)
Lemma pixelmatch_pass_criterion (config : VrtConfig)
    (path_dirname : string -> string)
    (pixelmatch : list Z -> list Z -> Z -> Z -> Q -> Z * list Z)
    (baselinePath screenshotPath : string) (diffPath : option string)
    (baseline screenshot : Image) (w : World) :
  files w !! baselinePath = Some (Png baseline) ->
  files w !! screenshotPath = Some (Png screenshot) ->
  width baseline = width screenshot ->
  height baseline = height screenshot ->
  0 < width baseline -> 0 < height baseline ->
  exists (r : Pixelmatch.ComparisonResult) (w' : World),
    Pixelmatch.compare config path_dirname pixelmatch baselinePath
      screenshotPath diffPath w = (Returned r, w')
    /\ Pixelmatch.cr_diffPixels r
       = fst (pixelmatch (data baseline) (data screenshot)
                (width baseline) (height baseline) (threshold config))
    /\ Pixelmatch.cr_totalPixels r = width baseline * height baseline
    /\ (Pixelmatch.cr_passed r = true
        <-> pass_criterion config (Pixelmatch.cr_diffPixels r)
              (width baseline * height baseline)).
Proof.
  intros Hb Hs Hw Hh Hwp Hhp.
  destruct (pixelmatch_compare_pixels config path_dirname pixelmatch
              baselinePath screenshotPath diffPath baseline screenshot w)
    as (r & w' & Hrun & Hd & Ht & Hp); [done..|].
  exists r, w'. repeat (split; [done|]).
  rewrite Hp, Ht. apply pixelmatch_evaluatePass. lia.
Qed.

(** The ODiff revision does not know the dimensions: it takes the total
    from the percentage that odiff reports.  When that percentage is the
    exact one, [100 * d / t], the total it derives is [t] and it decides
    the criterion of the specification. *)
Lemma odiff_pass_criterion_exact (config : VrtConfig)
    (path_dirname : string -> string)
    (odiff : file -> file -> Q -> outcome ODiff.odiff_result)
    (baselinePath screenshotPath : string) (diffPath : option string)
    (base cmp : file) (w : World) (d t : Z) (pct : Q) (img : Image) :
  files w !! baselinePath = Some base ->
  files w !! screenshotPath = Some cmp ->
  odiff base cmp (threshold config) = Returned (ODiff.PixelDiff d pct img) ->
  0 < d -> 0 < t ->
  (pct == inject_Z d / inject_Z t * 100)%Q ->
  let r := fst (ODiff.compare config path_dirname odiff baselinePath
                  screenshotPath diffPath w) in
  ODiff.cr_diffPixels r = d
  /\ ODiff.cr_totalPixels r = t
  /\ (ODiff.cr_passed r = true <-> pass_criterion config d t).
Proof.
  intros Hb Hs Hod Hd Ht Hpct r. subst r.
  destruct (odiff_compare_unfold config path_dirname odiff baselinePath
              screenshotPath diffPath _ _ w Hb Hs) as (w0 & _ & ->).
  rewrite Hod. destruct (Z.eqb_spec d 0) as [?|_]; [lia|].
  assert (Hdq : (0 < inject_Z d)%Q).
  { change (inject_Z 0 < inject_Z d)%Q. by rewrite <- Zlt_Qlt. }
  assert (Htq : (0 < inject_Z t)%Q).
  { change (inject_Z 0 < inject_Z t)%Q. by rewrite <- Zlt_Qlt. }
  assert (Hpos : (0 < pct)%Q).
  { rewrite Hpct. apply Qmult_lt_0_compat; [|done].
    apply Qmult_lt_0_compat; [done|]. by apply Qinv_lt_0_compat. }
  assert (Hgt : Qgtb pct 0 = true).
  { apply Qgtb_true. by apply Qlt_not_le. }
  rewrite Hgt.
  assert (Htotal : round (inject_Z d / (pct / 100)) = t).
  { apply round_inject_Z. rewrite Hpct. field. split.
    - intros E. rewrite E in Htq. by apply Qlt_irrefl in Htq.
    - intros E. rewrite E in Hdq. by apply Qlt_irrefl in Hdq. }
  rewrite Htotal.
  cbn [ODiff.cr_diffPixels ODiff.cr_totalPixels ODiff.cr_passed].
  split; [done|]. split; [done|]. by apply odiff_evaluatePass.
Qed.

(** A percentage reported as zero leaves the ODiff revision without a
    total: the ratio is then taken to be zero, and a difference within
    [maxDiffPixels] passes whatever [maxDiffPixelRatio] is. *)
Lemma odiff_zero_percentage (config : VrtConfig)
    (path_dirname : string -> string)
    (odiff : file -> file -> Q -> outcome ODiff.odiff_result)
    (baselinePath screenshotPath : string) (diffPath : option string)
    (base cmp : file) (w : World) (d : Z) (pct : Q) (img : Image) :
  files w !! baselinePath = Some base ->
  files w !! screenshotPath = Some cmp ->
  odiff base cmp (threshold config) = Returned (ODiff.PixelDiff d pct img) ->
  d <> 0 -> (pct <= 0)%Q ->
  (inject_Z d <= maxDiffPixels config)%Q ->
  (0 <= maxDiffPixelRatio config)%Q ->
  let r := fst (ODiff.compare config path_dirname odiff baselinePath
                  screenshotPath diffPath w) in
  ODiff.cr_totalPixels r = 0 /\ ODiff.cr_passed r = true.
Proof.
  intros Hb Hs Hod Hd Hpct Hmax Hratio r. subst r.
  destruct (odiff_compare_unfold config path_dirname odiff baselinePath
              screenshotPath diffPath _ _ w Hb Hs) as (w0 & _ & ->).
  rewrite Hod. destruct (Z.eqb_spec d 0) as [?|_]; [done|].
  rewrite (proj2 (Qgtb_false pct 0) Hpct).
  cbn [ODiff.cr_totalPixels ODiff.cr_passed]. split; [done|].
  unfold ODiff.evaluatePass.
  destruct (Z.eqb_spec d 0) as [?|_]; [done|].
  rewrite (proj2 (Qgtb_false _ _) Hmax). cbn [Z.ltb Z.compare gtb].
  by rewrite (proj2 (Qgtb_false _ _) Hratio).
Qed.

(** C1 fails on the ODiff revision of the comparison service.  With the
    thresholds of the default configuration ([maxDiffPixels = 100],
    [maxDiffPixelRatio = 0.01]), a candidate of 13 x 23 pixels differs from
    its baseline in 3 pixels out of 299: a ratio above 0.01, outside the
    criterion.  odiff reports the 3 pixels and, with two decimals, 1.00
    percent; the service derives a total of 300 pixels from them, a ratio
    of exactly 0.01, and passes the comparison.  The pixelmatch revision,
    which takes the total from the dimensions, fails it. *)
Theorem odiff_compare_ratio_exceeded :
  let baselinePath := "./baselines/home__desktop.png" in
  let screenshotPath := "./shots/home__desktop.png" in
  let diffPath := Some "./diffs/home__desktop.png" in
  let w := world [(baselinePath, Png Edge.white);
                  (screenshotPath, Png Edge.three_spots)] in
  let new := fst (ODiff.compare config path_dirname odiff baselinePath
                    screenshotPath diffPath w) in
  let old := fst (Pixelmatch.compare config path_dirname pixelmatch
                    baselinePath screenshotPath diffPath w) in
  (width Edge.white * height Edge.white = 299
   /\ count_diff (data Edge.white) (data Edge.three_spots) = 3
   /\ ~ pass_criterion config 3 299)
  /\ (exists (pct : Q) (img : Image),
        odiff (Png Edge.white) (Png Edge.three_spots) (threshold config)
        = Returned (ODiff.PixelDiff 3 pct img)
        /\ (pct == 1)%Q)
  /\ (ODiff.cr_passed new = true
      /\ ODiff.cr_diffPixels new = 3
      /\ ODiff.cr_totalPixels new = 300)
  /\ (exists r : Pixelmatch.ComparisonResult,
        old = Returned r
        /\ Pixelmatch.cr_passed r = false
        /\ Pixelmatch.cr_diffPixels r = 3
        /\ Pixelmatch.cr_totalPixels r = 299).
Proof.
  intros baselinePath screenshotPath diffPath w new old.
  split; [|split; [|split]].
  - split; [reflexivity|]. split; [by vm_compute|].
    intros [H|[_ H]]; [done|]. vm_compute in H. by apply H.
  - eexists _, _. split; [by vm_compute|]. reflexivity.
  - subst new. by vm_compute.
  - eexists. split; [by vm_compute|]. by vm_compute.
Qed.

End ComparisonClaims.

Section ComparisonScreenshotFacts.
Import JS Fs Config Types Reference.
Variable config : VrtConfig.
Variable path_join : string -> string -> string.
Variable path_dirname : string -> string.
Variable pixelmatch : list Z -> list Z -> Z -> Z -> Q -> Z * list Z.
Variable odiff : file -> file -> Q -> outcome ODiff.odiff_result.

(** [compareScreenshot] of the ODiff revision, once the baseline and the
    candidate are known to be there: the fields it copies from the result
    of [compare]. *)
Lemma odiff_compareScreenshot_fields
    (scenarioId viewportKey screenshotPath : string) (base cmp : file)
    (w : World) :
  files w !! path_join (baselineDir config)
               (ODiff.filename scenarioId viewportKey) = Some base ->
  files w !! screenshotPath = Some cmp ->
  let result :=
    fst (ODiff.compareScreenshot config path_join path_dirname odiff
           scenarioId viewportKey screenshotPath w) in
  forall r : ODiff.ComparisonResult,
    r = match odiff base cmp (threshold config) with
        | Returned ODiff.Match =>
            ODiff.mkComparisonResult true 0 0 0 None None None
        | Returned ODiff.LayoutDiff =>
            ODiff.mkComparisonResult true 0 0 0 None None
              (Some "dimension-mismatch")
        | _ => r
        end ->
    (odiff base cmp (threshold config) = Returned ODiff.Match
     \/ odiff base cmp (threshold config) = Returned ODiff.LayoutDiff) ->
    passed result = ODiff.cr_passed r
    /\ diffPixels result = Some (ODiff.cr_diffPixels r)
    /\ diffPercentage result = Some (Fin (ODiff.cr_diffPercentage r))
    /\ warning result = ODiff.cr_warning r
    /\ error result = None.
Proof.
  intros Hb Hs result r Hr Hcase. subst result.
  unfold ODiff.compareScreenshot.
  rewrite (existsSync_Some _ _ _ Hb). cbn [negb].
  destruct (odiff_compare_unfold config path_dirname odiff _ _
              (Some (path_join (diffDir config)
                       (ODiff.filename scenarioId viewportKey)))
              _ _ w Hb Hs) as (w0 & _ & Hfst).
  destruct (ODiff.compare _ _ _ _ _ _ _) as [r' w'].
  cbn [fst] in Hfst |- *.
  assert (r' = r) as ->; [|done].
  rewrite Hfst, Hr. by destruct Hcase as [-> | ->].
Qed.

Lemma copyFileSync_copies (src dest : string) (f : file) (w : World) :
  files w !! src = Some f ->
  exists w1 : World,
    copyFileSync src dest w = (Returned tt, w1)
    /\ files w1 !! dest = Some f /\ files w1 !! src = Some f.
Proof.
  intros H. unfold copyFileSync. rewrite H.
  eexists. split; [reflexivity|]. cbn. split.
  - apply lookup_insert_eq.
  - destruct (decide (dest = src)) as [->|Hne];
      [apply lookup_insert_eq|by rewrite lookup_insert_ne].
Qed.

End ComparisonScreenshotFacts.

Section ComparisonScreenshotClaims.
Import JS Fs Config Types Reference.

(** C2, as stated, fails on the pixelmatch revision of the comparison
    service: a baseline and a candidate that differ in height are reported
    as a failure with a difference of 100 percent and no warning. *)
Lemma dimension_mismatch_hard_failure :
  let w := world [("./baselines/home__desktop.png", Png white2);
                  ("./shots/home__desktop.png", Png white3)] in
  let result :=
    fst (Pixelmatch.compareScreenshot config path_join path_dirname
           pixelmatch "home" "desktop" "./shots/home__desktop.png" w) in
  existsSync "./baselines/home__desktop.png" w = true
  /\ existsSync "./shots/home__desktop.png" w = true
  /\ height white2 <> height white3
  /\ passed result = false
  /\ warning result = None
  /\ diffPercentage result = Some (Fin 100).
Proof. repeat split; try reflexivity. discriminate. Qed.

(** C2 (amended).  For a baseline and a candidate image that both exist
    and differ in width or height: the ODiff revision of
    [compareScreenshot], to which odiff reports a layout difference,
    returns [passed = true] with the warning ["dimension-mismatch"], no
    error and a difference of zero; the pixelmatch revision returns
    [passed = false] with [diffPixels = -1], [diffPercentage = 100] and no
    warning. *)
Theorem dimension_mismatch_policy (config : VrtConfig)
    (path_join : string -> string -> string)
    (path_dirname : string -> string)
    (pixelmatch : list Z -> list Z -> Z -> Z -> Q -> Z * list Z)
    (odiff : file -> file -> Q -> outcome ODiff.odiff_result)
    (scenarioId viewportKey screenshotPath : string)
    (baseline screenshot : Image) (w : World) :
  files w !! path_join (baselineDir config)
               (ODiff.filename scenarioId viewportKey)
    = Some (Png baseline) ->
  files w !! screenshotPath = Some (Png screenshot) ->
  width baseline <> width screenshot \/ height baseline <> height screenshot ->
  odiff (Png baseline) (Png screenshot) (threshold config)
    = Returned ODiff.LayoutDiff ->
  let soft := fst (ODiff.compareScreenshot config path_join path_dirname
                     odiff scenarioId viewportKey screenshotPath w) in
  let hard := fst (Pixelmatch.compareScreenshot config path_join
                     path_dirname pixelmatch scenarioId viewportKey
                     screenshotPath w) in
  (passed soft = true /\ warning soft = Some "dimension-mismatch"
   /\ error soft = None /\ diffPixels soft = Some 0
   /\ diffPercentage soft = Some (Fin 0))
  /\ (passed hard = false /\ warning hard = None
      /\ diffPixels hard = Some (-1)
      /\ diffPercentage hard = Some (Fin 100)).
Proof.
  intros Hb Hs Hdim Hlayout soft hard. split.
  - destruct (odiff_compareScreenshot_fields config path_join path_dirname
                odiff scenarioId viewportKey screenshotPath _ _ w Hb Hs
                (ODiff.mkComparisonResult true 0 0 0 None None
                   (Some "dimension-mismatch")))
      as (H1 & H2 & H3 & H4 & H5); [by rewrite Hlayout|by right|].
    subst soft. by rewrite H1, H2, H3, H4, H5.
  - subst hard. unfold Pixelmatch.compareScreenshot.
    change (Pixelmatch.filename scenarioId viewportKey)
      with (ODiff.filename scenarioId viewportKey).
    rewrite (existsSync_Some _ _ _ Hb). cbn [negb].
    by rewrite (pixelmatch_compare_mismatch config path_dirname pixelmatch
                  _ _ _ baseline screenshot w Hb Hs Hdim).
Qed.

(** A candidate one row taller than its baseline. *)
Lemma dimension_mismatch_policy_witness :
  let w := world [("./baselines/home__desktop.png", Png white2);
                  ("./shots/home__desktop.png", Png white3)] in
  let soft := fst (ODiff.compareScreenshot config path_join path_dirname
                     odiff "home" "desktop" "./shots/home__desktop.png" w) in
  passed soft = true /\ warning soft = Some "dimension-mismatch".
Proof.
  intros w soft.
  destruct (dimension_mismatch_policy config path_join path_dirname
              pixelmatch odiff "home" "desktop" "./shots/home__desktop.png"
              white2 white3 w) as [(H1 & H2 & _) _];
    [reflexivity|reflexivity|right; discriminate|reflexivity|].
  split; [exact H1|exact H2].
Defined.

(** C4.  When the baseline file of the key does not exist,
    [compareScreenshot] (both revisions) returns [passed = false] with the
    error "Baseline not found. Run generate-baseline first." and leaves
    the world as it was: no pixel comparison, no file written.  When the
    baseline exists the error of the result is never that message. *)
Theorem baseline_missing_short_circuit (config : VrtConfig)
    (path_join : string -> string -> string)
    (path_dirname : string -> string)
    (pixelmatch : list Z -> list Z -> Z -> Z -> Q -> Z * list Z)
    (odiff : file -> file -> Q -> outcome ODiff.odiff_result)
    (scenarioId viewportKey screenshotPath : string) (w : World) :
  files w !! path_join (baselineDir config)
               (ODiff.filename scenarioId viewportKey) = None ->
  let viaOdiff := ODiff.compareScreenshot config path_join path_dirname
                    odiff scenarioId viewportKey screenshotPath in
  let viaPixelmatch := Pixelmatch.compareScreenshot config path_join
                         path_dirname pixelmatch scenarioId viewportKey
                         screenshotPath in
  (passed (fst (viaOdiff w)) = false
   /\ error (fst (viaOdiff w)) = Some baseline_not_found
   /\ snd (viaOdiff w) = w
   /\ pixel_compares (snd (viaOdiff w)) = pixel_compares w)
  /\ (passed (fst (viaPixelmatch w)) = false
      /\ error (fst (viaPixelmatch w)) = Some baseline_not_found
      /\ snd (viaPixelmatch w) = w
      /\ pixel_compares (snd (viaPixelmatch w)) = pixel_compares w)
  /\ (forall (w2 : World) (f : file),
        files w2 !! path_join (baselineDir config)
                      (ODiff.filename scenarioId viewportKey) = Some f ->
        error (fst (viaOdiff w2)) <> Some baseline_not_found
        /\ error (fst (viaPixelmatch w2)) <> Some baseline_not_found).
Proof.
  intros Hb viaOdiff viaPixelmatch. split; [|split].
  - subst viaOdiff. unfold ODiff.compareScreenshot.
    by rewrite (existsSync_None _ _ Hb).
  - subst viaPixelmatch. unfold Pixelmatch.compareScreenshot.
    change (Pixelmatch.filename scenarioId viewportKey)
      with (ODiff.filename scenarioId viewportKey).
    by rewrite (existsSync_None _ _ Hb).
  - intros w2 f Hf. split.
    + subst viaOdiff. unfold ODiff.compareScreenshot.
      rewrite (existsSync_Some _ _ _ Hf). cbn [negb].
      by destruct (ODiff.compare _ _ _ _ _ _ _).
    + subst viaPixelmatch. unfold Pixelmatch.compareScreenshot.
      change (Pixelmatch.filename scenarioId viewportKey)
        with (ODiff.filename scenarioId viewportKey).
      rewrite (existsSync_Some _ _ _ Hf). cbn [negb].
      unfold Pixelmatch.compare, loadImage.
      rewrite (existsSync_Some _ _ _ Hf), Hf. cbn [negb].
      destruct (existsSync screenshotPath w2) eqn:Hs; cbn [negb];
        [|by cbn; rewrite string_app_cons].
      destruct f as [baseline|bytes]; [|by cbn].
      destruct (files w2 !! screenshotPath) as [[screenshot|bytes]|];
        [|by cbn|by cbn; rewrite string_app_cons].
      destruct (negb (width baseline =? width screenshot)
                || negb (height baseline =? height screenshot));
        [by cbn|].
      destruct (pixelmatch _ _ _ _ _) as [d dd].
      destruct (given _) as [p|]; [destruct (0 <? d)|]; by cbn.
Qed.

Lemma baseline_missing_short_circuit_witness :
  let w := world [("./shots/home__desktop.png", Png white2)] in
  let result :=
    ODiff.compareScreenshot config path_join path_dirname odiff
      "home" "desktop" "./shots/home__desktop.png" w in
  passed (fst result) = false
  /\ error (fst result)
     = Some "Baseline not found. Run generate-baseline first."
  /\ calls (snd result) = [].
Proof.
  intros w result.
  destruct (baseline_missing_short_circuit config path_join path_dirname
              pixelmatch odiff "home" "desktop" "./shots/home__desktop.png"
              w eq_refl) as [(H1 & H2 & H3 & _) _].
  subst result. split; [exact H1|]. split; [exact H2|]. by rewrite H3.
Defined.

End ComparisonScreenshotClaims.

Section BaselinePromotionClaims.
Import JS Fs Config Types Reference.

(** C7.  After [copyToBaseline candidatePath id key] of a candidate
    screenshot, [compareScreenshot id key candidatePath] on the world the
    copy left returns [passed = true] with [diffPixels = 0], in both
    revisions of the comparison service (pixelmatch counts no differing
    pixel between an image and itself, and odiff reports a match). *)
Theorem baseline_round_trip (config : VrtConfig)
    (path_join : string -> string -> string)
    (path_dirname : string -> string)
    (pixelmatch : list Z -> list Z -> Z -> Z -> Q -> Z * list Z)
    (odiff : file -> file -> Q -> outcome ODiff.odiff_result)
    (scenarioId viewportKey candidatePath : string)
    (candidate : Image) (w : World) :
  files w !! candidatePath = Some (Png candidate) ->
  fst (pixelmatch (data candidate) (data candidate) (width candidate)
         (height candidate) (threshold config)) = 0 ->
  odiff (Png candidate) (Png candidate) (threshold config)
    = Returned ODiff.Match ->
  (exists (baselinePath : string) (w1 : World),
     Pixelmatch.copyToBaseline config path_join candidatePath scenarioId
       viewportKey w = (Returned baselinePath, w1)
     /\ let result :=
          fst (Pixelmatch.compareScreenshot config path_join path_dirname
                 pixelmatch scenarioId viewportKey candidatePath w1) in
        passed result = true /\ diffPixels result = Some 0
        /\ error result = None)
  /\ (exists (baselinePath : string) (w1 : World),
        ODiff.copyToBaseline config path_join candidatePath scenarioId
          viewportKey w = (Returned baselinePath, w1)
        /\ let result :=
             fst (ODiff.compareScreenshot config path_join path_dirname
                    odiff scenarioId viewportKey candidatePath w1) in
           passed result = true /\ diffPixels result = Some 0
           /\ error result = None).
Proof.
  intros Hc Hpm Hod.
  destruct (copyFileSync_copies candidatePath
              (path_join (baselineDir config)
                 (ODiff.filename scenarioId viewportKey))
              (Png candidate) (ensureDirectoryExists (baselineDir config) w))
    as (w1 & Hcopy & Hb1 & Hc1); [by rewrite files_ensureDirectoryExists|].
  split.
  - exists (path_join (baselineDir config)
              (ODiff.filename scenarioId viewportKey)), w1.
    split.
    + unfold Pixelmatch.copyToBaseline.
      change (Pixelmatch.filename scenarioId viewportKey)
        with (ODiff.filename scenarioId viewportKey).
      by rewrite Hcopy.
    + unfold Pixelmatch.compareScreenshot.
      change (Pixelmatch.filename scenarioId viewportKey)
        with (ODiff.filename scenarioId viewportKey).
      rewrite (existsSync_Some _ _ _ Hb1). cbn [negb].
      destruct (pixelmatch_compare_pixels config path_dirname pixelmatch
                  _ candidatePath
                  (Some (path_join (diffDir config)
                           (ODiff.filename scenarioId viewportKey)))
                  candidate candidate w1 Hb1 Hc1 eq_refl eq_refl)
        as (r & w' & -> & Hd & _ & Hp).
      cbn. rewrite Hpm in Hd. rewrite Hp, Hd. by cbn.
  - exists (path_join (baselineDir config)
              (ODiff.filename scenarioId viewportKey)), w1.
    split; [unfold ODiff.copyToBaseline; by rewrite Hcopy|].
    destruct (odiff_compareScreenshot_fields config path_join path_dirname
                odiff scenarioId viewportKey candidatePath _ _ w1 Hb1 Hc1
                (ODiff.mkComparisonResult true 0 0 0 None None None))
      as (H1 & H2 & _ & _ & H5); [by rewrite Hod|by left|].
    cbn zeta. by rewrite H1, H2, H5.
Qed.

(** A first capture promoted to baseline and compared with itself. *)
Lemma baseline_round_trip_witness :
  let w := world [("./shots/home__desktop.png", Png spotted2)] in
  exists (w1 : World),
    ODiff.copyToBaseline config path_join "./shots/home__desktop.png"
      "home" "desktop" w = (Returned "./baselines/home__desktop.png", w1)
    /\ let result :=
         fst (ODiff.compareScreenshot config path_join path_dirname odiff
                "home" "desktop" "./shots/home__desktop.png" w1) in
       passed result = true /\ diffPixels result = Some 0.
Proof.
  intros w.
  destruct (baseline_round_trip config path_join path_dirname pixelmatch
              odiff "home" "desktop" "./shots/home__desktop.png" spotted2 w)
    as [_ (bp & w1 & Hcopy & Hp & Hd & _)]; [reflexivity..|].
  exists w1. split; [|by split].
  rewrite Hcopy. f_equal. f_equal.
  unfold ODiff.copyToBaseline in Hcopy.
  destruct (copyFileSync _ _ _) as [[[]|err] w'] in Hcopy;
    [by injection Hcopy as <- _|discriminate].
Defined.

(** The end-to-end scenario of the specification on the ODiff revision:
    no baseline, then the capture promoted, then an unchanged page. *)
Example first_run_then_promoted :
  let w := world [("./shots/home__desktop.png", Png white2)] in
  let first := ODiff.compareScreenshot config path_join path_dirname odiff
                 "home" "desktop" "./shots/home__desktop.png" w in
  let promoted := snd (ODiff.copyToBaseline config path_join
                         "./shots/home__desktop.png" "home" "desktop" w) in
  let third := ODiff.compareScreenshot config path_join path_dirname odiff
                 "home" "desktop" "./shots/home__desktop.png" promoted in
  passed (fst first) = false
  /\ error (fst first) = Some baseline_not_found
  /\ passed (fst third) = true
  /\ diffPixels (fst third) = Some 0
  /\ calls (snd third)
     = [Mkdir "./baselines";
        CopyFile "./shots/home__desktop.png" "./baselines/home__desktop.png";
        Mkdir "./diffs";
        PixelCompare "./baselines/home__desktop.png"
          "./shots/home__desktop.png"].
Proof. repeat split; reflexivity. Qed.

End BaselinePromotionClaims.

Section ComparisonRuns.
Import JS Fs Config Types Reference.

(** The ODiff revision on the spotted image: odiff reports one pixel and
    50 percent, the service recovers a total of two pixels and fails the
    comparison on the ratio; with a ratio budget of one half it passes. *)
Example odiff_compare_spotted :
  let w := world [("./baselines/home__desktop.png", Png white2);
                  ("./shots/home__desktop.png", Png spotted2)] in
  let strict := fst (ODiff.compare config path_dirname odiff
                       "./baselines/home__desktop.png"
                       "./shots/home__desktop.png"
                       (Some "./diffs/home__desktop.png") w) in
  let lenient := fst (ODiff.compare
                        (mkConfig "./baselines" "./diffs" (1 # 10) 100 (1 # 2))
                        path_dirname odiff
                        "./baselines/home__desktop.png"
                        "./shots/home__desktop.png"
                        (Some "./diffs/home__desktop.png") w) in
  ODiff.cr_passed strict = false
  /\ ODiff.cr_diffPixels strict = 1
  /\ ODiff.cr_totalPixels strict = 2
  /\ ODiff.cr_diffPath strict = Some "./diffs/home__desktop.png"
  /\ ODiff.cr_passed lenient = true.
Proof. repeat split; vm_compute; reflexivity. Qed.

End ComparisonRuns.

(** ** Waiting for a stable height *)

Section StableHeightFacts.
Import StableHeight.
Variable timeout requiredStableChecks checkInterval : Z.
Variable settle : option Z.
Variable startTime : Z.
Variable now : nat -> Z.
Variable scrollHeight : nat -> Z.

Local Abbreviation loop :=
  (loop timeout requiredStableChecks checkInterval settle startTime now
     scrollHeight).

(** A clock that advances by the interval at every turn leaves room for
    [n] more turns at most. *)
Lemma loop_terminates (n : nat) :
  forall (fuel k : nat) (previousHeight stableCount : Z) (l : list event),
    (forall j, now j + checkInterval <= now (S j)) ->
    timeout <= now k - startTime + checkInterval * Z.of_nat n ->
    (n < fuel)%nat ->
    exists r : finished,
      loop fuel k previousHeight stableCount l = Some r
      /\ (readings r <= k + n)%nat.
Proof.
  induction n as [|n IH]; intros fuel k prev sc l Hclock Hn Hfuel;
    (destruct fuel as [|fuel]; [lia|]); cbn [StableHeight.loop].
  - destruct (Z.ltb_spec (now k - startTime) timeout); [lia|].
    eexists. split; [reflexivity|cbn; lia].
  - destruct (Z.ltb_spec (now k - startTime) timeout);
      [|eexists; split; [reflexivity|cbn; lia]].
    assert (Hnext : timeout <= now (S k) - startTime
                               + checkInterval * Z.of_nat n)
      by (specialize (Hclock k); lia).
    destruct (scrollHeight k =? prev).
    + destruct (sc + 1 >=? requiredStableChecks);
        [eexists; split; [reflexivity|cbn; lia]|].
      destruct (IH fuel (S k) (scrollHeight k) (sc + 1)
                  ((l ++ [Evaluate (scrollHeight k)])
                     ++ [WaitForTimeout checkInterval]))
        as (r & -> & Hr); [done|done|lia|].
      exists r. split; [done|lia].
    + destruct (IH fuel (S k) (scrollHeight k) 0
                  ((l ++ [Evaluate (scrollHeight k)])
                     ++ [WaitForTimeout checkInterval]))
        as (r & -> & Hr); [done|done|lia|].
      exists r. split; [done|lia].
Qed.

(** The counter counts the readings, just before the current one, that
    were equal to their predecessor. *)
Lemma loop_stable (fuel : nat) :
  forall (k : nat) (previousHeight stableCount : Z) (l : list event)
         (r : finished),
    0 <= stableCount <= Z.of_nat k ->
    (forall j : nat, Z.of_nat k - stableCount <= Z.of_nat j ->
                     (j < k)%nat -> scrollHeight j = previousHeight) ->
    loop fuel k previousHeight stableCount l = Some r ->
    stable r = true ->
    requiredStableChecks <= Z.of_nat (readings r)
    /\ forall j : nat,
         Z.of_nat (readings r) - requiredStableChecks <= Z.of_nat j ->
         (j < readings r)%nat ->
         scrollHeight j = scrollHeight (readings r - 1).
Proof.
  induction fuel as [|fuel IH]; intros k prev sc l r Hsc Hprev Hrun Hst;
    [discriminate|].
  cbn [StableHeight.loop] in Hrun.
  destruct (now k - startTime <? timeout);
    [|injection Hrun as <-; discriminate].
  destruct (Z.eqb_spec (scrollHeight k) prev) as [Heq|Hne].
  - destruct (Z.geb_spec (sc + 1) requiredStableChecks) as [Hge|Hlt].
    + injection Hrun as <-. cbn [readings finish].
      replace (S k - 1)%nat with k by lia. split; [lia|].
      intros j Hj Hjk. destruct (decide (j = k)) as [->|Hjne]; [done|].
      rewrite Heq. apply Hprev; lia.
    + eapply (IH (S k) (scrollHeight k) (sc + 1)); [lia| |exact Hrun|done].
      intros j Hj Hjk. destruct (decide (j = k)) as [->|Hjne]; [done|].
      rewrite Heq. apply Hprev; lia.
  - eapply (IH (S k) (scrollHeight k) 0); [lia| |exact Hrun|done].
    intros j Hj Hjk. assert (j = k) as -> by lia. done.
Qed.

End StableHeightFacts.

Section StableHeightProperties.
Import StableHeight.

(** X1.  [waitForStableHeight] is bounded: when every turn of the loop
    takes at least the 300 ms of its [waitForTimeout], the wait ends after
    at most 27 readings of the height, whatever the page does. *)
Theorem waitForStableHeight_bounded (startTime : Z)
    (now scrollHeight : nat -> Z) (fuel : nat) :
  startTime <= now O ->
  (forall k, now k + 300 <= now (S k)) ->
  (27 < fuel)%nat ->
  exists r : finished,
    waitForStableHeight startTime now scrollHeight fuel = Some r
    /\ (readings r <= 27)%nat.
Proof.
  intros H0 Hclock Hfuel.
  destruct (loop_terminates 8000 5 300 (Some 200) startTime now scrollHeight
              27 fuel O 0 0 []) as (r & Hrun & Hr); [done|lia|done|].
  exists r. split; [exact Hrun|lia].
Qed.

Lemma waitForStableHeight_bounded_witness :
  exists r : finished,
    waitForStableHeight 0 (fun k => 300 * Z.of_nat k)
      (fun k => 1000 + Z.of_nat k) 28 = Some r
    /\ (readings r <= 27)%nat.
Proof.
  apply (waitForStableHeight_bounded 0 (fun k => 300 * Z.of_nat k)
           (fun k => 1000 + Z.of_nat k) 28); [lia|intros k; lia|lia].
Defined.

(** X2.  When [waitForStableHeight] leaves its loop by [break], at least
    five readings were taken and the last five are equal. *)
Theorem waitForStableHeight_stable (startTime : Z)
    (now scrollHeight : nat -> Z) (fuel : nat) (r : finished) :
  waitForStableHeight startTime now scrollHeight fuel = Some r ->
  stable r = true ->
  (5 <= readings r)%nat
  /\ forall j : nat, (readings r - 5 <= j < readings r)%nat ->
                     scrollHeight j = scrollHeight (readings r - 1)%nat.
Proof.
  intros Hrun Hst.
  destruct (loop_stable 8000 5 300 (Some 200) startTime now scrollHeight
              fuel O 0 0 [] r) as [H5 Heq]; [lia|intros; lia|done|done|].
  split; [lia|]. intros j Hj. apply Heq; lia.
Qed.

(** A page that grows twice and then rests at 1200 pixels: the wait ends
    at the eighth reading. *)
Lemma waitForStableHeight_stable_witness :
  let heights (k : nat) :=
    match k with O => 900 | S O => 1100 | _ => 1200 end in
  exists r : finished,
    waitForStableHeight 0 (fun k => 300 * Z.of_nat k) heights 28 = Some r
    /\ readings r = 8%nat /\ waited (log r) = 2300
    /\ forall j : nat, (3 <= j < 8)%nat -> heights j = 1200.
Proof.
  intros heights. eexists. split; [reflexivity|].
  split; [reflexivity|]. split; [reflexivity|].
  intros j Hj.
  destruct (waitForStableHeight_stable 0 (fun k => 300 * Z.of_nat k) heights
              28 _ eq_refl eq_refl) as [_ H].
  apply (H j). cbn. lia.
Defined.

End StableHeightProperties.

(** ** Retry: success and degenerate budgets *)

Section RetryMoreFacts.
Import JS Retry.
Variable maxRetries retryDelay : Z.
Variable captureScreenshot : Z -> outcome string.
Variable failure : Z -> thrown.

(** With [n] failing attempts before the one that succeeds. *)
Lemma retry_loop_success (n : nat) :
  forall (fuel : nat) (attempt : Z) (lastError : option thrown)
         (l : list event) (path : string),
    attempt + Z.of_nat n <= maxRetries ->
    (forall i, attempt <= i < attempt + Z.of_nat n ->
               captureScreenshot i = Thrown (failure i)) ->
    captureScreenshot (attempt + Z.of_nat n) = Returned path ->
    (n < fuel)%nat ->
    retry_loop maxRetries retryDelay captureScreenshot fuel attempt
      lastError l
    = Some (Returned path,
            l ++ attempts_with_delays (S n) attempt retryDelay).
Proof.
  induction n as [|n IH]; intros fuel attempt lastError l path Hle Hfail Hok
    Hfuel; (destruct fuel as [|fuel]; [lia|]); cbn [retry_loop].
  - destruct (Z.leb_spec attempt maxRetries); [|lia].
    replace (attempt + Z.of_nat 0) with attempt in Hok by lia.
    by rewrite Hok.
  - destruct (Z.leb_spec attempt maxRetries); [|lia].
    rewrite Hfail by lia.
    destruct (Z.ltb_spec attempt maxRetries); [|lia].
    rewrite (IH fuel (attempt + 1) _ _ path); [|lia| | |lia].
    + by rewrite <- !app_assoc.
    + intros i Hi. apply Hfail. lia.
    + rewrite <- Hok. f_equal. lia.
Qed.

End RetryMoreFacts.

Section RetryMoreProperties.
Import JS Retry.

(** X3.  [captureWithRetry] stops at the first attempt that succeeds: when
    the attempts before attempt [k <= maxRetries] fail and attempt [k]
    returns a path, that path is returned after exactly [k + 1] attempts
    with a delay between consecutive ones, and no later attempt is made. *)
Theorem captureWithRetry_first_success (maxRetries retryDelay : Z)
    (captureScreenshot : Z -> outcome string) (failure : Z -> thrown)
    (k : nat) (path : string) :
  Z.of_nat k <= maxRetries ->
  (forall i, 0 <= i < Z.of_nat k -> captureScreenshot i = Thrown (failure i)) ->
  captureScreenshot (Z.of_nat k) = Returned path ->
  captureWithRetry maxRetries retryDelay captureScreenshot
  = Some (Returned path, attempts_with_delays (S k) 0 retryDelay)
  /\ count_attempts (attempts_with_delays (S k) 0 retryDelay) = S k.
Proof.
  intros Hk Hfail Hok. split; [|apply count_attempts_with_delays].
  unfold captureWithRetry.
  rewrite (retry_loop_success maxRetries retryDelay captureScreenshot failure
             k _ 0 None [] path); [done|lia|intros; apply Hfail; lia|done|lia].
Qed.

Lemma captureWithRetry_first_success_witness :
  captureWithRetry 2 1000
    (fun i => if i =? 1 then Returned "shots/home__desktop.png"
              else Thrown (ErrorObj "net::ERR_CONNECTION_RESET"))
  = Some (Returned "shots/home__desktop.png",
          [Attempt 0; Delay 1000; Attempt 1]).
Proof.
  apply (captureWithRetry_first_success 2 1000 _
           (fun _ => ErrorObj "net::ERR_CONNECTION_RESET") 1
           "shots/home__desktop.png"); [lia| |reflexivity].
  intros i Hi. assert (i = 0) as -> by lia. reflexivity.
Defined.

(** X4.  The retry budget is not validated: with a negative [maxRetries]
    the loop never runs, so [captureWithRetry] throws "Screenshot capture
    failed" without making a single attempt. *)
Theorem captureWithRetry_negative_budget (maxRetries retryDelay : Z)
    (captureScreenshot : Z -> outcome string) :
  maxRetries < 0 ->
  captureWithRetry maxRetries retryDelay captureScreenshot
  = Some (Thrown (ErrorObj "Screenshot capture failed"), []).
Proof.
  intros Hneg. unfold captureWithRetry.
  destruct (Z.to_nat (maxRetries + 1)) eqn:E; [|lia].
  cbn [retry_loop]. by destruct (Z.leb_spec 0 maxRetries); [lia|].
Qed.

Lemma captureWithRetry_negative_budget_witness :
  captureWithRetry (-1) 1000 (fun _ => Returned "shots/home__desktop.png")
  = Some (Thrown (ErrorObj "Screenshot capture failed"), []).
Proof. apply captureWithRetry_negative_budget. lia. Defined.

End RetryMoreProperties.

(** ** Building the task list and collecting the captures *)

Section CaptureAllFacts.
Import JS Payload CaptureAll.

(** Every entry of the viewport map is filed under its own name. *)
Lemma build_viewportMap_name (viewports : list Viewport) (k : string)
    (v : Viewport) :
  build_viewportMap viewports !! k = Some v -> machine_name v = k.
Proof.
  unfold build_viewportMap.
  assert (H : forall m : gmap string Viewport,
             (forall k v, m !! k = Some v -> machine_name v = k) ->
             forall k v,
               fold_left (fun m v => <[machine_name v := v]> m) viewports m
                 !! k = Some v -> machine_name v = k).
  { induction viewports as [|x vs IH]; intros m Hm k' v'; [apply Hm|].
    cbn [fold_left]. apply IH. intros k2 v2.
    destruct (decide (machine_name x = k2)) as [<-|Hne].
    - rewrite lookup_insert_eq. by intros [= <-].
    - rewrite lookup_insert_ne by done. apply Hm. }
  apply H. intros k' v'. by rewrite lookup_empty.
Qed.

Section Build.
Variable viewportMap : gmap string Viewport.
Variable dir : string.

Lemma add_key_well_built (s : Scenario) (b : builder) (key : string) :
  key ∈ viewport_keys s ->
  (forall k v, viewportMap !! k = Some v -> machine_name v = k) ->
  well_built viewportMap dir b ->
  well_built viewportMap dir (add_key viewportMap dir s b key).
Proof.
  intros Hkey Hname (Hn & Hi & Ht). unfold add_key.
  destruct (viewportMap !! key) as [v|] eqn:Hv; [|done].
  split; [|split]; cbn [tasks next_index].
  - rewrite length_app. cbn. lia.
  - intros i t Hlook. apply lookup_app_Some in Hlook as [Hlook|[Hge Hlook]].
    + by apply Hi.
    + apply list_lookup_singleton_Some in Hlook as [Hz <-]. cbn. lia.
  - intros t [Hin|Hin%list_elem_of_singleton]%elem_of_app; [by apply Ht|].
    subst t. cbn. rewrite (Hname _ _ Hv). done.
Qed.

Lemma add_key_count (s : Scenario) (b : builder) (key : string) :
  (length (tasks (add_key viewportMap dir s b key))
   + length (warned (add_key viewportMap dir s b key))
   = S (length (tasks b) + length (warned b)))%nat.
Proof.
  unfold add_key. destruct (viewportMap !! key); cbn [tasks warned];
    rewrite length_app; cbn; lia.
Qed.

Lemma add_keys_well_built (s : Scenario) (keys : list string) :
  forall b : builder,
    (forall k, k ∈ keys -> k ∈ viewport_keys s) ->
    (forall k v, viewportMap !! k = Some v -> machine_name v = k) ->
    well_built viewportMap dir b ->
    well_built viewportMap dir (fold_left (add_key viewportMap dir s) keys b)
    /\ (length (tasks (fold_left (add_key viewportMap dir s) keys b))
        + length (warned (fold_left (add_key viewportMap dir s) keys b))
        = length keys + (length (tasks b) + length (warned b)))%nat.
Proof.
  induction keys as [|key keys IH]; intros b Hsub Hname Hb; [done|].
  cbn [fold_left].
  destruct (IH (add_key viewportMap dir s b key)) as [Hw Hc].
  - intros k Hk. apply Hsub. by right.
  - done.
  - apply add_key_well_built; [apply Hsub; by left|done..].
  - split; [done|]. rewrite Hc, add_key_count. cbn. lia.
Qed.

Lemma add_scenarios_well_built (scenarios : list Scenario) :
  forall b : builder,
    (forall k v, viewportMap !! k = Some v -> machine_name v = k) ->
    well_built viewportMap dir b ->
    well_built viewportMap dir
      (fold_left (add_scenario viewportMap dir) scenarios b)
    /\ (length (tasks (fold_left (add_scenario viewportMap dir) scenarios b))
        + length (warned (fold_left (add_scenario viewportMap dir)
                            scenarios b))
        = fold_left (fun n s => (n + length (viewport_keys s))%nat) scenarios
            (length (tasks b) + length (warned b)))%nat.
Proof.
  induction scenarios as [|s scenarios IH]; intros b Hname Hb; [done|].
  cbn [fold_left].
  destruct (add_keys_well_built s (viewport_keys s) b) as [Hw Hc];
    [done..|].
  destruct (IH (add_scenario viewportMap dir b s)) as [Hw' Hc']; [done..|].
  split; [done|]. rewrite Hc'. unfold add_scenario. rewrite Hc.
  f_equal. lia.
Qed.
End Build.

Lemma build_tasks_well_built (scenarios : list Scenario)
    (viewports : list Viewport) (dir : string) :
  well_built (build_viewportMap viewports) dir
    (build_tasks scenarios viewports dir)
  /\ (length (tasks (build_tasks scenarios viewports dir))
      + length (warned (build_tasks scenarios viewports dir))
      = totalScreenshots scenarios)%nat.
Proof.
  unfold build_tasks.
  apply (add_scenarios_well_built (build_viewportMap viewports) dir
           scenarios (mkBuilder [] O [])).
  - apply build_viewportMap_name.
  - split; [done|]. split; [intros i t [=]|intros t Hin].
    by apply elem_of_nil in Hin.
Qed.

(** The map of captures never holds more entries than there are
    successful results. *)
Lemma collect_size (rs : list Pool.Capture.CaptureResult) :
  forall m : gmap string string,
    (size (fold_left
             (fun m r =>
                if succeeded r
                then <[Pool.Capture.key r := Pool.Capture.path r]> m else m)
             rs m)
     <= size m + length (List.filter succeeded rs))%nat.
Proof.
  induction rs as [|r rs IH]; intros m; [cbn; lia|].
  cbn [fold_left List.filter]. destruct (succeeded r).
  - etrans; [apply IH|]. cbn [length].
    destruct (m !! Pool.Capture.key r) as [x|] eqn:E.
    + rewrite map_size_insert_Some by (by exists x). lia.
    + rewrite map_size_insert_None by done. lia.
  - apply IH.
Qed.

Lemma filter_split_length {A : Type} (f : A -> bool) (l : list A) :
  (length (List.filter f l) + length (List.filter (fun x => negb (f x)) l)
   = length l)%nat.
Proof.
  induction l as [|x l IH]; [done|].
  cbn [List.filter]. destruct (f x); cbn [negb length]; lia.
Qed.

End CaptureAllFacts.

Section RequestFacts.
Import JS Payload CaptureAll Requests.
Variable viewportMap : gmap string Viewport.
Variable dir : string.

Lemma add_key_lists (s : Scenario) (b : builder) (key : string) :
  (fun t => (scenario t, viewport t))
    <$> tasks (add_key viewportMap dir s b key)
  = ((fun t => (scenario t, viewport t)) <$> tasks b)
    ++ omap (served viewportMap) [(s, key)]
  /\ warned (add_key viewportMap dir s b key)
     = warned b ++ omap (refused viewportMap) [(s, key)].
Proof.
  unfold add_key. cbn [omap list_omap]. unfold served, refused. cbn [fst snd].
  destruct (viewportMap !! key) as [v|]; cbn [tasks warned fmap option_fmap
    option_map].
  - by rewrite fmap_app, app_nil_r.
  - by rewrite app_nil_r.
Qed.

Lemma add_keys_lists (s : Scenario) (keys : list string) :
  forall b : builder,
    (fun t => (scenario t, viewport t))
      <$> tasks (fold_left (add_key viewportMap dir s) keys b)
    = ((fun t => (scenario t, viewport t)) <$> tasks b)
      ++ omap (served viewportMap) ((fun k => (s, k)) <$> keys)
    /\ warned (fold_left (add_key viewportMap dir s) keys b)
       = warned b ++ omap (refused viewportMap) ((fun k => (s, k)) <$> keys).
Proof.
  induction keys as [|key keys IH]; intros b; cbn [fold_left fmap list_fmap].
  - by rewrite !app_nil_r.
  - destruct (IH (add_key viewportMap dir s b key)) as [-> ->].
    destruct (add_key_lists s b key) as [-> ->].
    rewrite <- !app_assoc.
    change ((s, key) :: ((fun k => (s, k)) <$> keys))
      with ([(s, key)] ++ ((fun k => (s, k)) <$> keys)).
    by rewrite !omap_app.
Qed.

Lemma add_scenarios_lists (scenarios : list Scenario) :
  forall b : builder,
    (fun t => (scenario t, viewport t))
      <$> tasks (fold_left (add_scenario viewportMap dir) scenarios b)
    = ((fun t => (scenario t, viewport t)) <$> tasks b)
      ++ omap (served viewportMap) (requests scenarios)
    /\ warned (fold_left (add_scenario viewportMap dir) scenarios b)
       = warned b ++ omap (refused viewportMap) (requests scenarios).
Proof.
  induction scenarios as [|s scenarios IH]; intros b;
    cbn [fold_left requests flat_map].
  - by rewrite !app_nil_r.
  - destruct (IH (add_scenario viewportMap dir b s)) as [-> ->].
    destruct (add_keys_lists s (viewport_keys s) b) as [Ht Hw].
    fold (add_scenario viewportMap dir b s) in Ht, Hw. rewrite Ht, Hw.
    by rewrite !omap_app, <- !app_assoc.
Qed.

End RequestFacts.

Section CaptureAllProperties.
Import JS Payload CaptureAll Requests.

(** X5.  The task list of [captureAll]: the task at position [i] carries
    index [i]; its viewport is the one registered under a key of its
    scenario; and every viewport key of every scenario gives either a task
    or a warning, never both and never neither: the tasks are, in the order
    of the requests, the requests whose key names a registered viewport,
    one task each with that viewport and the output directory, and the
    warnings are, in order, the keys of the other requests. *)
Theorem build_tasks_indexed (scenarios : list Scenario)
    (viewports : list Viewport) (dir : string) :
  let b := build_tasks scenarios viewports dir in
  let viewportMap := build_viewportMap viewports in
  (forall i t, tasks b !! i = Some t -> index t = i)
  /\ (forall t, t ∈ tasks b ->
        viewportMap !! machine_name (viewport t) = Some (viewport t)
        /\ machine_name (viewport t) ∈ viewport_keys (scenario t)
        /\ outputDir t = dir)
  /\ (length (tasks b) + length (warned b) = totalScreenshots scenarios)%nat
  /\ (fun t => (scenario t, viewport t)) <$> tasks b
     = omap (served viewportMap) (requests scenarios)
  /\ warned b = omap (refused viewportMap) (requests scenarios)
  /\ (forall (j : nat) (s : Scenario) (key : string),
        requests scenarios !! j = Some (s, key) ->
        match viewportMap !! key with
        | Some v =>
            refused viewportMap (s, key) = None
            /\ served viewportMap (s, key) = Some (s, v)
            /\ exists t, t ∈ tasks b /\ scenario t = s /\ viewport t = v
        | None =>
            served viewportMap (s, key) = None
            /\ refused viewportMap (s, key) = Some key
            /\ key ∈ warned b
        end).
Proof.
  intros b viewportMap. subst b viewportMap.
  destruct (build_tasks_well_built scenarios viewports dir)
    as [(_ & Hi & Ht) Hc].
  destruct (add_scenarios_lists (build_viewportMap viewports) dir scenarios
              (mkBuilder [] O [])) as [Htasks Hwarned].
  cbn [tasks warned fmap list_fmap app] in Htasks, Hwarned.
  fold (build_tasks scenarios viewports dir) in Htasks, Hwarned.
  split; [exact Hi|]. split; [exact Ht|]. split; [exact Hc|].
  split; [exact Htasks|]. split; [exact Hwarned|].
  intros j s key Hj. apply list_elem_of_lookup_2 in Hj.
  unfold served, refused. cbn [fst snd].
  destruct (build_viewportMap viewports !! key) as [v|] eqn:Hv.
  - split; [done|]. split; [done|].
    assert (Hin : (s, v) ∈ (fun t => (scenario t, viewport t))
                            <$> tasks (build_tasks scenarios viewports dir)).
    { rewrite Htasks. apply list_elem_of_omap. exists (s, key).
      split; [done|]. unfold served. cbn [fst snd]. by rewrite Hv. }
    apply list_elem_of_fmap in Hin as (t & [= -> ->] & Hin). by exists t.
  - split; [done|]. split; [done|].
    rewrite Hwarned. apply list_elem_of_omap. exists (s, key).
    split; [done|]. unfold refused. cbn [fst snd]. by rewrite Hv.
Qed.

(** Two scenarios over two viewports, one key unknown: three tasks and
    one warning. *)
Lemma build_tasks_indexed_witness :
  let desktop := mkViewport "desktop" "Desktop" 1280 800 1 false in
  let mobile := mkViewport "mobile" "Mobile" 375 0 2 true in
  let home := mkScenario "home" "Home" "https://local.site/" "static" 0
                ["desktop"; "mobile"] [] in
  let about := mkScenario "about" "About" "https://local.site/about"
                 "static" 500 ["tablet"; "mobile"] [] in
  let b := build_tasks [home; about] [desktop; mobile] "./baselines" in
  (index <$> tasks b) = [0; 1; 2]%nat
  /\ warned b = ["tablet"]
  /\ (length (tasks b) + length (warned b))%nat = 4%nat
  /\ (fun t => (scenario t, viewport t)) <$> tasks b
     = [(home, desktop); (home, mobile); (about, mobile)].
Proof.
  intros desktop mobile home about b.
  split; [reflexivity|]. split; [reflexivity|].
  destruct (build_tasks_indexed [home; about] [desktop; mobile]
              "./baselines") as (_ & _ & Hc & Ht & _).
  split; [exact Hc|]. exact Ht.
Defined.

(** X6.  The accounting of generate-baseline: when one result comes back
    for every task, the number it reports as failed is at least the number
    of unknown viewport keys plus the number of captures that did not
    succeed; a single unknown viewport key therefore makes the command end
    in failure even when every capture succeeds. *)
Theorem generate_baseline_failed_count (scenarios : list Scenario)
    (viewports : list Viewport) (dir : string)
    (captureResults : list Pool.Capture.CaptureResult) :
  let b := build_tasks scenarios viewports dir in
  length captureResults = length (tasks b) ->
  Z.of_nat (length (warned b))
  + Z.of_nat (length (List.filter (fun r => negb (succeeded r))
                        captureResults))
  <= failed scenarios (collect captureResults).
Proof.
  intros b Hlen.
  destruct (build_tasks_well_built scenarios viewports dir) as [_ Hc].
  fold b in Hc. unfold failed, collect.
  pose proof (collect_size captureResults ∅) as Hs.
  rewrite map_size_empty in Hs.
  pose proof (filter_split_length succeeded captureResults). lia.
Qed.

(** One scenario with a known and an unknown key; the capture of the known
    one succeeds, and still one failure is reported. *)
Lemma generate_baseline_failed_count_witness :
  let desktop := mkViewport "desktop" "Desktop" 1280 800 1 false in
  let home := mkScenario "home" "Home" "https://local.site/" "static" 0
                ["desktop"; "tablet"] [] in
  let captured := [Pool.Capture.mkCaptureResult "home__desktop"
                     "./baselines/home__desktop.png" 0 None] in
  1 <= failed [home] (collect captured).
Proof.
  intros desktop home captured.
  apply (generate_baseline_failed_count [home] [desktop] "./baselines"
           captured eq_refl).
Defined.

End CaptureAllProperties.

(** ** The progress counters of the pools *)

Section PoolCounterFacts.
Import Pool.
Context {Task Work Result Counters : Type}.
Variable tasks : list Task.
Variable finish : Task -> Work -> Result.
Variable count : Result -> Counters -> Counters.

(** The counters are the results pushed by the workers, counted in the
    order of the pushes. *)
Lemma steps_counters (numWorkers : nat) (c0 : Counters)
    (results0 : list Result) (n : nat) (s : pool) :
  steps tasks finish count n (start numWorkers c0 results0) s ->
  exists rs : list Result,
    results s = results0 ++ rs
    /\ length rs = length (pushed s)
    /\ counters s = fold_left (fun c r => count r c) rs c0.
Proof.
  intros Hsteps. remember (start numWorkers c0 results0) as s0 eqn:E.
  induction Hsteps as [s|n s1 s2 s3 _ IH Hstep]; subst.
  - exists []. by rewrite app_nil_r.
  - destruct IH as (rs & Hr & Hl & Hc); [done|].
    destruct Hstep as [s w _ _|s w _ _|s w i task o _ _];
      cbn [results pushed counters]; [by exists rs..|].
    exists (rs ++ [finish task o]). split; [by rewrite Hr, app_assoc|].
    split; [rewrite !length_app; cbn; lia|].
    by rewrite fold_left_app, <- Hc.
Qed.

End PoolCounterFacts.

Section RunTestsCounterFacts.
Import Pool Pool.RunTests Types.

Lemma runTests_count_fold (rs : list TestResult) :
  forall c : counters_t,
    fold_left (fun c r => count r c) rs c
    = mkCounters (completed c + length rs)
        (passed_count c + length (List.filter passed rs))
        (failed_count c
         + length (List.filter (fun r => negb (passed r)) rs)).
Proof.
  induction rs as [|r rs IH]; intros [a b c].
  - cbn. f_equal; lia.
  - cbn [fold_left List.filter]. rewrite IH. unfold count.
    destruct (passed r); cbn; f_equal; lia.
Qed.

End RunTestsCounterFacts.

Section PoolCounterProperties.
Import Pool Pool.RunTests Types.

(** X7.  The progress counters of run-tests never disagree with the
    results: at every moment of the pool [completed] is the number of
    results pushed by the workers, [passed] and [failed] are the numbers of
    those that passed and failed, and [passed + failed = completed]; when
    the pool returns, [completed] is the number of tasks. *)
Theorem runTests_counters (configured : nat) (tasks : list TestTask)
    (results0 : list TestResult) (n : nat) (s : pool) :
  (1 <= configured)%nat -> tasks <> [] ->
  steps tasks RunTests.finish RunTests.count n
    (runTests_start configured tasks results0) s ->
  exists rs : list TestResult,
    results s = results0 ++ rs
    /\ completed (counters s) = length rs
    /\ passed_count (counters s) = length (List.filter passed rs)
    /\ failed_count (counters s)
       = length (List.filter (fun r => negb (passed r)) rs)
    /\ (passed_count (counters s) + failed_count (counters s)
        = completed (counters s))%nat
    /\ (all_exited s -> completed (counters s) = length tasks).
Proof.
  intros Hc Ht Hsteps.
  destruct (steps_counters tasks RunTests.finish RunTests.count _ _ _ n s
              Hsteps) as (rs & Hr & Hl & Hcount).
  rewrite runTests_count_fold in Hcount. cbn in Hcount.
  exists rs. rewrite Hcount. cbn [completed passed_count failed_count].
  split; [done|]. split; [done|]. split; [done|]. split; [done|].
  split; [apply filter_split_length|].
  intros Hall.
  destruct (steps_invariant tasks RunTests.finish RunTests.count
              (Nat.min configured (length tasks)) (mkCounters 0 0 0)
              results0 n s Hsteps) as [Hinv _].
  assert (length tasks <> O) by (by destruct tasks).
  destruct (invariant_returned tasks RunTests.finish
              (Nat.min configured (length tasks)) results0 s)
    as (Hperm & _); [lia|done..|].
  rewrite Hl, Hperm. apply length_seq.
Qed.

(** One worker, one task that fails in capture: after the claim and the
    settlement the counters read one completed, none passed, one failed. *)
Lemma runTests_counters_witness :
  let task := mkTestTask "home" "Home" "https://local.site/" None "desktop" in
  let failed_result := RunTests.finish task
                         (JS.Thrown (JS.ErrorObj "Timeout 30000ms exceeded")) in
  let s := mkPool 1 (mkCounters 1 0 1) [failed_result] [Claiming] [O] in
  steps [task] RunTests.finish RunTests.count 2
    (runTests_start 4 [task] []) s
  /\ (passed_count (counters s) + failed_count (counters s)
      = completed (counters s))%nat.
Proof.
  intros task failed_result s.
  assert (Hrun : steps [task] RunTests.finish RunTests.count 2
                   (runTests_start 4 [task] []) s).
  { pose (s1 := mkPool 1 (mkCounters 0 0 0) (@nil TestResult)
                  [Awaiting 0] []).
    apply (steps_S _ _ _ 1 _ s1 s);
      [apply (steps_S _ _ _ 0 _ (runTests_start 4 [task] []) s1);
         [apply steps_O|]|].
    - exact (step_claim [task] RunTests.finish RunTests.count
               (runTests_start 4 [task] []) 0 eq_refl (le_n 1)).
    - exact (step_settle [task] RunTests.finish RunTests.count s1 0 0 task
               (JS.Thrown (JS.ErrorObj "Timeout 30000ms exceeded"))
               eq_refl eq_refl). }
  split; [exact Hrun|].
  destruct (runTests_counters 4 [task] [] 2 s) as (rs & _ & _ & _ & _ & H & _);
    [lia|done|exact Hrun|exact H].
Defined.

End PoolCounterProperties.

(** ** What the comparison leaves of the file system *)

Section FrameFacts.
Import JS Fs Config Types.

Lemma files_log (e : event) (w : World) : files (log e w) = files w.
Proof. reflexivity. Qed.

Lemma files_writeFileSync_ne (p q : string) (f : file) (w : World) :
  p <> q -> files (writeFileSync p f w) !! q = files w !! q.
Proof. intros H. cbn. by rewrite lookup_insert_ne. Qed.

Lemma files_unlinkSync_ne (p q : string) (w : World) :
  p <> q -> files (unlinkSync p w) !! q = files w !! q.
Proof. intros H. cbn. by rewrite lookup_delete_ne. Qed.

Section Service.
Variable config : VrtConfig.
Variable path_join : string -> string -> string.
Variable path_dirname : string -> string.
Variable pixelmatch : list Z -> list Z -> Z -> Z -> Q -> Z * list Z.
Variable odiff : file -> file -> Q -> outcome ODiff.odiff_result.

Lemma odiff_cleanup_frame (diffPath : option string) (q : string) (w : World) :
  diffPath <> Some q ->
  files (ODiff.cleanup diffPath w) !! q = files w !! q.
Proof.
  intros Hne. unfold ODiff.cleanup, given.
  destruct diffPath as [p|]; [|done]. destruct (truthy p); [|done].
  destruct (existsSync p w); [|done].
  apply files_unlinkSync_ne. congruence.
Qed.

Lemma odiff_compare_frame (baselinePath screenshotPath : string)
    (diffPath : option string) (q : string) (w : World) :
  diffPath <> Some q ->
  files (snd (ODiff.compare config path_dirname odiff baselinePath
                screenshotPath diffPath w)) !! q
  = files w !! q.
Proof.
  intros Hne. unfold ODiff.compare.
  destruct (existsSync baselinePath w); cbn [negb]; [|done].
  destruct (existsSync screenshotPath w); cbn [negb]; [|done].
  set (w0 := match given diffPath with
             | Some p => ensureDirectoryExists (path_dirname p) w
             | None => w
             end).
  assert (H0 : files w0 = files w).
  { subst w0. destruct (given diffPath);
      [apply files_ensureDirectoryExists|done]. }
  assert (Hg : forall p, given diffPath = Some p -> p <> q).
  { intros p Hp ->. apply Hne. unfold given in Hp.
    destruct diffPath as [p'|]; [|done].
    destruct (truthy p'); congruence. }
  unfold ODiff.run_odiff.
  destruct (files w0 !! baselinePath) as [base|];
    [|by cbn [snd]; rewrite H0].
  destruct (files w0 !! screenshotPath) as [cmp|];
    [|by cbn [snd]; rewrite H0].
  destruct (odiff base cmp (threshold config)) as [[| |file|d pct img]|err];
    cbn [snd]; rewrite ?odiff_cleanup_frame by done;
    rewrite ?files_log, ?H0; try done.
  assert (Hw : files (match given diffPath with
                      | Some p =>
                          writeFileSync p (Png img)
                            (log (PixelCompare baselinePath screenshotPath) w0)
                      | None => log (PixelCompare baselinePath screenshotPath) w0
                      end) !! q = files w !! q).
  { destruct (given diffPath) as [p|] eqn:E.
    - rewrite files_writeFileSync_ne by (by apply Hg).
      by rewrite files_log, H0.
    - by rewrite files_log, H0. }
  destruct (d =? 0); cbn [snd]; [|exact Hw].
  by rewrite odiff_cleanup_frame.
Qed.

Lemma odiff_compareScreenshot_frame
    (scenarioId viewportKey screenshotPath q : string) (w : World) :
  path_join (diffDir config) (ODiff.filename scenarioId viewportKey) <> q ->
  files (snd (ODiff.compareScreenshot config path_join path_dirname odiff
                scenarioId viewportKey screenshotPath w)) !! q
  = files w !! q.
Proof.
  intros Hne. unfold ODiff.compareScreenshot.
  destruct (existsSync _ w); cbn [negb]; [|done].
  pose proof (odiff_compare_frame
                (path_join (baselineDir config)
                   (ODiff.filename scenarioId viewportKey)) screenshotPath
                (Some (path_join (diffDir config)
                         (ODiff.filename scenarioId viewportKey))) q w) as H.
  destruct (ODiff.compare _ _ _ _ _ _ _) as [r w']. cbn [snd] in *.
  apply H. congruence.
Qed.

Lemma pixelmatch_compare_frame (baselinePath screenshotPath : string)
    (diffPath : option string) (q : string) (w : World) :
  diffPath <> Some q ->
  files (snd (Pixelmatch.compare config path_dirname pixelmatch baselinePath
                screenshotPath diffPath w)) !! q
  = files w !! q.
Proof.
  intros Hne. unfold Pixelmatch.compare.
  destruct (existsSync baselinePath w); cbn [negb]; [|done].
  destruct (existsSync screenshotPath w); cbn [negb]; [|done].
  destruct (loadImage baselinePath w) as [baseline|err]; [|done].
  destruct (loadImage screenshotPath w) as [screenshot|err]; [|done].
  destruct (negb _ || negb _); [done|].
  destruct (pixelmatch _ _ _ _ _) as [d dd].
  destruct (given diffPath) as [p|] eqn:E; [|done].
  destruct (0 <? d); [|done]. cbn [snd].
  rewrite files_writeFileSync_ne, files_ensureDirectoryExists; [done|].
  intros ->. apply Hne. unfold given in E.
  destruct diffPath as [p'|]; [|done]. destruct (truthy p'); congruence.
Qed.

Lemma pixelmatch_compareScreenshot_frame
    (scenarioId viewportKey screenshotPath q : string) (w : World) :
  path_join (diffDir config) (ODiff.filename scenarioId viewportKey) <> q ->
  files (snd (Pixelmatch.compareScreenshot config path_join path_dirname
                pixelmatch scenarioId viewportKey screenshotPath w)) !! q
  = files w !! q.
Proof.
  intros Hne. unfold Pixelmatch.compareScreenshot.
  change (Pixelmatch.filename scenarioId viewportKey)
    with (ODiff.filename scenarioId viewportKey).
  destruct (existsSync _ w); cbn [negb]; [|done].
  pose proof (pixelmatch_compare_frame
                (path_join (baselineDir config)
                   (ODiff.filename scenarioId viewportKey)) screenshotPath
                (Some (path_join (diffDir config)
                         (ODiff.filename scenarioId viewportKey))) q w) as H.
  destruct (Pixelmatch.compare _ _ _ _ _ _ _) as [[r|err] w'];
    cbn [snd] in *; apply H; congruence.
Qed.
End Service.

End FrameFacts.

Section FrameProperties.
Import JS Fs Config Types Reference.

(** X8.  [compareScreenshot] (both revisions) touches one file only, the
    diff artifact of its key: every other path, the baseline and the
    candidate included, holds after the call what it held before. *)
Theorem compareScreenshot_frame (config : VrtConfig)
    (path_join : string -> string -> string)
    (path_dirname : string -> string)
    (pixelmatch : list Z -> list Z -> Z -> Z -> Q -> Z * list Z)
    (odiff : file -> file -> Q -> outcome ODiff.odiff_result)
    (scenarioId viewportKey screenshotPath q : string) (w : World) :
  path_join (diffDir config) (ODiff.filename scenarioId viewportKey) <> q ->
  files (snd (ODiff.compareScreenshot config path_join path_dirname odiff
                scenarioId viewportKey screenshotPath w)) !! q
  = files w !! q
  /\ files (snd (Pixelmatch.compareScreenshot config path_join path_dirname
                   pixelmatch scenarioId viewportKey screenshotPath w)) !! q
     = files w !! q.
Proof.
  intros Hne. split.
  - by apply odiff_compareScreenshot_frame.
  - by apply pixelmatch_compareScreenshot_frame.
Qed.

(** A failing comparison writes its diff and leaves the baseline alone. *)
Lemma compareScreenshot_frame_witness :
  let w := world [("./baselines/home__desktop.png", Png white2);
                  ("./shots/home__desktop.png", Png spotted2)] in
  let after := snd (ODiff.compareScreenshot config path_join path_dirname
                      odiff "home" "desktop" "./shots/home__desktop.png" w) in
  files after !! "./baselines/home__desktop.png" = Some (Png white2)
  /\ files after !! "./diffs/home__desktop.png" = Some (Png white2).
Proof.
  intros w after. split; [|reflexivity].
  apply (compareScreenshot_frame config path_join path_dirname pixelmatch
           odiff "home" "desktop" "./shots/home__desktop.png"
           "./baselines/home__desktop.png" w).
  discriminate.
Defined.

End FrameProperties.

(** ** One task of the run-tests pool *)

Section ProcessTaskFacts.
Import JS Fs Config Types.
Variable config : VrtConfig.
Variable path_join : string -> string -> string.
Variable path_dirname : string -> string.
Variable odiff : file -> file -> Q -> outcome ODiff.odiff_result.

Lemma odiff_copyToBaseline_frame
    (screenshotPath scenarioId viewportKey q : string) (w : World) :
  path_join (baselineDir config) (ODiff.filename scenarioId viewportKey) <> q ->
  files (snd (ODiff.copyToBaseline config path_join screenshotPath scenarioId
                viewportKey w)) !! q
  = files w !! q.
Proof.
  intros Hne. unfold ODiff.copyToBaseline, copyFileSync.
  rewrite files_ensureDirectoryExists.
  destruct (files w !! screenshotPath) as [f|]; cbn.
  - by rewrite lookup_insert_ne.
  - by rewrite files_ensureDirectoryExists.
Qed.

Lemma odiff_copyToBaseline_thrown
    (screenshotPath scenarioId viewportKey : string) (w w' : World)
    (err : thrown) :
  ODiff.copyToBaseline config path_join screenshotPath scenarioId viewportKey w
  = (Thrown err, w') ->
  files w' = files w.
Proof.
  unfold ODiff.copyToBaseline, copyFileSync.
  rewrite files_ensureDirectoryExists.
  destruct (files w !! screenshotPath) as [f|]; [done|].
  intros [= _ <-]. apply files_ensureDirectoryExists.
Qed.

Lemma odiff_copyToBaseline_copies
    (screenshotPath scenarioId viewportKey : string) (f : file) (w : World) :
  files w !! screenshotPath = Some f ->
  exists w' : World,
    ODiff.copyToBaseline config path_join screenshotPath scenarioId
      viewportKey w
    = (Returned (path_join (baselineDir config)
                   (ODiff.filename scenarioId viewportKey)), w')
    /\ files w' !! path_join (baselineDir config)
                     (ODiff.filename scenarioId viewportKey) = Some f
    /\ pixel_compares w' = pixel_compares w.
Proof.
  intros H. unfold ODiff.copyToBaseline, copyFileSync.
  rewrite files_ensureDirectoryExists, H.
  eexists. split; [reflexivity|]. split.
  - cbn. apply lookup_insert_eq.
  - unfold pixel_compares, ensureDirectoryExists. cbn.
    destruct (existsSync _ w); cbn; rewrite !List.filter_app; cbn;
      by rewrite ?app_nil_r.
Qed.

(** What a call of [copyToBaseline] leaves, whether it returns or
    throws. *)
Lemma odiff_copyToBaseline_outcome
    (screenshotPath scenarioId viewportKey : string) (w : World) :
  match ODiff.copyToBaseline config path_join screenshotPath scenarioId
          viewportKey w with
  | (Returned p, w') =>
      p = path_join (baselineDir config)
            (ODiff.filename scenarioId viewportKey)
      /\ is_Some (files w !! screenshotPath)
      /\ files w' !! p = files w !! screenshotPath
      /\ pixel_compares w' = pixel_compares w
  | (Thrown err, w') =>
      files w' = files w /\ pixel_compares w' = pixel_compares w
  end.
Proof.
  assert (Hpc : pixel_compares (ensureDirectoryExists (baselineDir config) w)
                = pixel_compares w).
  { unfold pixel_compares, ensureDirectoryExists.
    destruct (existsSync _ w); [done|]. cbn.
    rewrite List.filter_app. cbn. by rewrite app_nil_r. }
  unfold ODiff.copyToBaseline, copyFileSync.
  rewrite files_ensureDirectoryExists.
  destruct (files w !! screenshotPath) as [f|] eqn:Hf.
  - split; [done|]. split; [by eexists|]. split.
    + cbn. apply lookup_insert_eq.
    + rewrite <- Hpc. unfold pixel_compares. cbn.
      rewrite List.filter_app. cbn. by rewrite app_nil_r.
  - split; [apply files_ensureDirectoryExists|exact Hpc].
Qed.

Lemma with_scenario_passed (task : Pool.RunTests.TestTask) (r : TestResult) :
  passed (ProcessTask.with_scenario task r) = passed r.
Proof. reflexivity. Qed.

End ProcessTaskFacts.

Section ProcessTaskProperties.
Import JS Fs Config Types Reference.

(** X9.  Whatever the capture gave, [processTask] changes no file other
    than the diff artifact of its key unless [--update-baseline] is set
    and the test passed: without the flag, and for every failed test with
    it, the baseline holds afterwards what it held before. *)
Theorem processTask_keeps_baseline (config : VrtConfig)
    (path_join : string -> string -> string)
    (path_dirname : string -> string)
    (odiff : file -> file -> Q -> outcome ODiff.odiff_result)
    (updateBaseline : bool) (task : Pool.RunTests.TestTask)
    (captured : outcome string) (q : string) (w : World) :
  let done := ProcessTask.processTask config path_join path_dirname odiff
                updateBaseline task captured w in
  updateBaseline = false \/ passed (fst done) = false ->
  path_join (diffDir config)
    (ODiff.filename (Pool.RunTests.task_scenario_id task)
       (Pool.RunTests.viewportKey task)) <> q ->
  files (snd done) !! q = files w !! q.
Proof.
  intros done H Hne. subst done. revert H.
  unfold ProcessTask.processTask, ProcessTask.try_block.
  destruct captured as [screenshotPath|err]; [|done].
  destruct (ODiff.baselineExists _ _ _ _ w); cbn [negb].
  - pose proof (odiff_compareScreenshot_frame config path_join path_dirname
                  odiff (Pool.RunTests.task_scenario_id task)
                  (Pool.RunTests.viewportKey task) screenshotPath q w Hne)
      as Hframe.
    destruct (ODiff.compareScreenshot _ _ _ _ _ _ _ w) as [r w1].
    cbn [snd] in Hframe. rewrite with_scenario_passed.
    destruct updateBaseline; cbn [andb]; [|done].
    destruct (passed r) eqn:Hp; [|done].
    destruct (ODiff.copyToBaseline _ _ _ _ _ w1) as [[p|err] w2] eqn:Hcopy;
      cbn [fst snd Pool.RunTests.finish passed].
    + rewrite with_scenario_passed, Hp. by intros [|].
    + intros _. by rewrite (odiff_copyToBaseline_thrown _ _ _ _ _ _ _ _ Hcopy).
  - destruct updateBaseline; [|done].
    destruct (ODiff.copyToBaseline _ _ _ _ _ w) as [[p|err] w2] eqn:Hcopy;
      cbn [fst snd Pool.RunTests.finish passed].
    + by intros [|].
    + intros _. by rewrite (odiff_copyToBaseline_thrown _ _ _ _ _ _ _ _ Hcopy).
Qed.

(** A failed comparison under [--update-baseline] leaves the baseline. *)
Lemma processTask_keeps_baseline_witness :
  let w := world [("./baselines/home__desktop.png", Png white2);
                  ("./shots/home__desktop.png", Png spotted2)] in
  let task := Pool.RunTests.mkTestTask "home" "Home" "https://a.test/" None
                "desktop" in
  files (snd (ProcessTask.processTask
                (mkConfig "./baselines" "./diffs" (1 # 10) 0 0)
                path_join path_dirname odiff true task
                (Returned "./shots/home__desktop.png") w))
    !! "./baselines/home__desktop.png"
  = Some (Png white2).
Proof.
  intros w task.
  apply (processTask_keeps_baseline
           (mkConfig "./baselines" "./diffs" (1 # 10) 0 0)
           path_join path_dirname odiff true task
           (Returned "./shots/home__desktop.png")
           "./baselines/home__desktop.png" w).
  - right. reflexivity.
  - discriminate.
Defined.

(** X10.  With [--update-baseline], a test whose capture wrote its
    screenshot passes only with the baseline promoted: after a passed
    [processTask] the baseline file holds the content of the candidate,
    whether the baseline was missing or within the thresholds. *)
Theorem processTask_promotes (config : VrtConfig)
    (path_join : string -> string -> string)
    (path_dirname : string -> string)
    (odiff : file -> file -> Q -> outcome ODiff.odiff_result)
    (task : Pool.RunTests.TestTask)
    (screenshotPath : string) (candidate : file) (w : World) :
  let done := ProcessTask.processTask config path_join path_dirname odiff
                true task (Returned screenshotPath) w in
  let key := ODiff.filename (Pool.RunTests.task_scenario_id task)
               (Pool.RunTests.viewportKey task) in
  files w !! screenshotPath = Some candidate ->
  path_join (diffDir config) key <> screenshotPath ->
  passed (fst done) = true ->
  files (snd done) !! path_join (baselineDir config) key = Some candidate.
Proof.
  intros done key Hc Hne. subst done key.
  unfold ProcessTask.processTask, ProcessTask.try_block.
  destruct (ODiff.baselineExists _ _ _ _ w); cbn [negb].
  - pose proof (odiff_compareScreenshot_frame config path_join path_dirname
                  odiff (Pool.RunTests.task_scenario_id task)
                  (Pool.RunTests.viewportKey task) screenshotPath
                  screenshotPath w Hne) as Hframe.
    destruct (ODiff.compareScreenshot _ _ _ _ _ _ _ w) as [r w1].
    cbn [snd] in Hframe. rewrite Hc in Hframe.
    rewrite with_scenario_passed. cbn [andb].
    destruct (passed r) eqn:Hp;
      [|by cbn [fst Pool.RunTests.finish]; rewrite with_scenario_passed, Hp].
    destruct (odiff_copyToBaseline_copies config path_join screenshotPath
                (Pool.RunTests.task_scenario_id task)
                (Pool.RunTests.viewportKey task) candidate w1 Hframe)
      as (w2 & -> & Hb & _).
    done.
  - destruct (odiff_copyToBaseline_copies config path_join screenshotPath
                (Pool.RunTests.task_scenario_id task)
                (Pool.RunTests.viewportKey task) candidate w Hc)
      as (w2 & -> & Hb & _).
    done.
Qed.

(** A candidate within the thresholds replaces the baseline. *)
Lemma processTask_promotes_witness :
  let w := world [("./baselines/home__desktop.png", Png white2);
                  ("./shots/home__desktop.png", Png spotted2)] in
  let task := Pool.RunTests.mkTestTask "home" "Home" "https://a.test/" None
                "desktop" in
  files (snd (ProcessTask.processTask
                (mkConfig "./baselines" "./diffs" (1 # 10) 100 1)
                path_join path_dirname odiff true task
                (Returned "./shots/home__desktop.png") w))
    !! "./baselines/home__desktop.png"
  = Some (Png spotted2).
Proof.
  intros w task.
  apply (processTask_promotes
           (mkConfig "./baselines" "./diffs" (1 # 10) 100 1)
           path_join path_dirname odiff task
           "./shots/home__desktop.png" (Png spotted2) w).
  - reflexivity.
  - discriminate.
  - reflexivity.
Defined.

(** X11.  When the baseline of a captured screenshot is missing,
    [processTask] never calls the comparison library.  Without
    [--update-baseline] the test fails with the error that names both
    remedies and the world is left as it was.  With it the test stands or
    falls with [copyToBaseline]: when the copy returns, the test passes, no
    diff is reported, and the candidate has become the baseline; when the
    copy throws (the candidate is gone, or the directory of the baseline
    path is not there), the test fails with the message of the error and
    the baseline is still missing. *)
Theorem processTask_missing_baseline (config : VrtConfig)
    (path_join : string -> string -> string)
    (path_dirname : string -> string)
    (odiff : file -> file -> Q -> outcome ODiff.odiff_result)
    (updateBaseline : bool) (task : Pool.RunTests.TestTask)
    (screenshotPath : string) (w : World) :
  let done := ProcessTask.processTask config path_join path_dirname odiff
                updateBaseline task (Returned screenshotPath) w in
  let baseline :=
    path_join (baselineDir config)
      (ODiff.filename (Pool.RunTests.task_scenario_id task)
         (Pool.RunTests.viewportKey task)) in
  let copied :=
    ODiff.copyToBaseline config path_join screenshotPath
      (Pool.RunTests.task_scenario_id task) (Pool.RunTests.viewportKey task)
      w in
  files w !! baseline = None ->
  pixel_compares (snd done) = pixel_compares w
  /\ (updateBaseline = false ->
      passed (fst done) = false
      /\ error (fst done) = Some ProcessTask.missing_baseline
      /\ snd done = w)
  /\ (updateBaseline = true ->
      snd done = snd copied
      /\ match fst copied with
         | Returned _ =>
             passed (fst done) = true
             /\ error (fst done) = None
             /\ diffPath (fst done) = None
             /\ baselinePath (fst done) = Some baseline
             /\ is_Some (files w !! screenshotPath)
             /\ files (snd done) !! baseline = files w !! screenshotPath
         | Thrown err =>
             passed (fst done) = false
             /\ error (fst done) = Some (message_or "Unknown error" err)
             /\ files (snd done) !! baseline = None
         end).
Proof.
  intros done baseline copied Hb. subst done baseline copied.
  unfold ProcessTask.processTask, ProcessTask.try_block.
  unfold ODiff.baselineExists. rewrite (existsSync_None _ _ Hb). cbn [negb].
  destruct updateBaseline.
  - pose proof (odiff_copyToBaseline_outcome config path_join screenshotPath
                  (Pool.RunTests.task_scenario_id task)
                  (Pool.RunTests.viewportKey task) w) as Hcopy.
    destruct (ODiff.copyToBaseline _ _ _ _ _ w) as [[p|err] w'];
      cbn [fst snd Pool.RunTests.finish passed error diffPath baselinePath].
    + destruct Hcopy as (-> & Hsome & Hfile & Hpc).
      split; [exact Hpc|]. split; [done|]. intros _. by repeat split.
    + destruct Hcopy as [Hfiles Hpc].
      split; [exact Hpc|]. split; [done|]. intros _.
      split; [done|]. split; [done|]. split; [done|]. by rewrite Hfiles.
  - cbn [fst snd Pool.RunTests.finish]. split; [done|].
    split; [by intros _|done].
Qed.

(** A first run without and with the flag, and a run with the flag whose
    capture left no file. *)
Lemma processTask_missing_baseline_witness :
  let w := world [("./shots/home__desktop.png", Png spotted2)] in
  let task := Pool.RunTests.mkTestTask "home" "Home" "https://a.test/" None
                "desktop" in
  snd (ProcessTask.processTask config path_join path_dirname odiff false
         task (Returned "./shots/home__desktop.png") w) = w
  /\ files (snd (ProcessTask.processTask config path_join path_dirname odiff
                   true task (Returned "./shots/home__desktop.png") w))
       !! "./baselines/home__desktop.png"
     = Some (Png spotted2)
  /\ passed (fst (ProcessTask.processTask config path_join path_dirname
                    odiff true task (Returned "./shots/home__desktop.png")
                    (world [])))
     = false.
Proof.
  intros w task. split; [|split].
  - apply (processTask_missing_baseline config path_join path_dirname odiff
             false task "./shots/home__desktop.png" w eq_refl).
    reflexivity.
  - destruct (processTask_missing_baseline config path_join path_dirname
                odiff true task "./shots/home__desktop.png" w eq_refl)
      as (_ & _ & H).
    destruct (H eq_refl) as (_ & _ & _ & _ & _ & _ & Hfile).
    exact Hfile.
  - destruct (processTask_missing_baseline config path_join path_dirname
                odiff true task "./shots/home__desktop.png" (world [])
                eq_refl) as (_ & _ & H).
    destruct (H eq_refl) as (_ & Hfail & _).
    exact Hfail.
Defined.

End ProcessTaskProperties.

(** ** The record of failed tests *)

Section TrackerFacts.
Import Types Tracker.

Lemma unique_from_elem (seen ids : list string) (x : string) :
  x ∈ unique_from seen ids <-> x ∈ ids /\ x ∉ seen.
Proof.
  revert seen. induction ids as [|y ids IH]; intros seen; cbn [unique_from].
  - split; [by intros ?%elem_of_nil|by intros [?%elem_of_nil _]].
  - case_bool_decide as Hy.
    + rewrite IH, elem_of_cons. split; [tauto|].
      intros [[->|H] Hs]; [done|tauto].
    + rewrite !elem_of_cons, IH, elem_of_cons. split.
      * intros [->|[H Hs]]; [tauto|]. split; [tauto|]. tauto.
      * intros [[->|H] Hs]; [tauto|].
        destruct (decide (x = y)) as [->|Hne]; [tauto|]. right. tauto.
Qed.

Lemma unique_from_NoDup (seen ids : list string) :
  NoDup (unique_from seen ids).
Proof.
  revert seen. induction ids as [|y ids IH]; intros seen; cbn [unique_from].
  - constructor.
  - case_bool_decide as Hy; [apply IH|].
    constructor; [|apply IH].
    rewrite unique_from_elem, elem_of_cons. tauto.
Qed.

Lemma failedTests_elem (results : list TestResult) (id : string) :
  id ∈ ft_scenarioId <$> failedTests results
  <-> exists r, r ∈ results /\ passed r = false /\ scenarioId r = id.
Proof.
  unfold failedTests. rewrite <- list_fmap_compose, list_elem_of_fmap.
  split.
  - intros (r & -> & Hr). apply list_elem_of_In, filter_In in Hr.
    destruct Hr as [Hin Hp]. exists r. split; [by apply list_elem_of_In|].
    split; [by destruct (passed r)|done].
  - intros (r & Hin & Hp & <-). exists r. split; [done|].
    apply list_elem_of_In, filter_In. split; [by apply list_elem_of_In|].
    by rewrite Hp.
Qed.

End TrackerFacts.

Section TrackerProperties.
Import Types Tracker.

(** X12.  The bookkeeping at the end of [runTests], for a list of failed
    tests that [JSON.parse] reads back as [JSON.stringify] wrote it: the
    summary counts add up; afterwards [loadFailedTests] gives exactly the
    failed tests of this run, whatever an earlier run had left in the file;
    [hasFailedTests] holds exactly when the command exits with code 1; and
    the scenario filter of a later [--failed] run lists, each once, the ids
    of the scenarios that have a failed test. *)
Theorem record_failures_round_trip
    (stringify : string -> list FailedTest -> string)
    (parse_tests : string -> option (option (list FailedTest)))
    (results : list TestResult) (duration : Z) (timestamp : string)
    (file : option string) :
  let summary := summarize results duration in
  let file' := record_failures stringify results timestamp file in
  parse_tests (stringify timestamp (failedTests results))
  = Some (Some (failedTests results)) ->
  total summary = (passed_total summary + failed_total summary)%nat
  /\ loadFailedTests parse_tests file' = failedTests results
  /\ (hasFailedTests parse_tests file' = true <-> exit_code summary = 1)
  /\ NoDup (getFailedScenarioIds parse_tests file')
  /\ forall id : string,
       id ∈ getFailedScenarioIds parse_tests file'
       <-> exists r, r ∈ results /\ passed r = false /\ scenarioId r = id.
Proof.
  intros summary file' Hjson. subst summary file'.
  assert (Hload : loadFailedTests parse_tests
                    (record_failures stringify results timestamp file)
                  = failedTests results).
  { unfold record_failures.
    destruct (0 <? length (failedTests results))%nat eqn:Hlen.
    - unfold saveFailedTests, loadFailedTests. by rewrite Hjson.
    - apply Nat.ltb_ge in Hlen.
      destruct (failedTests results) as [|t l]; [|cbn in Hlen; lia].
      by destruct file. }
  split; [symmetry; apply filter_split_length|].
  split; [exact Hload|]. split.
  - unfold hasFailedTests, exit_code. rewrite Hload.
    unfold failedTests. rewrite length_fmap. cbn [failed_total summarize].
    by destruct (0 <? _)%nat.
  - unfold getFailedScenarioIds, unique. rewrite Hload.
    split; [apply unique_from_NoDup|].
    intros id. rewrite unique_from_elem, failedTests_elem.
    split; [tauto|]. intros H. split; [done|]. by intros ?%elem_of_nil.
Qed.

(** Two failures of one scenario replace a stale record. *)
Lemma record_failures_round_trip_witness :
  let r (id vp : string) (ok : bool) :=
    mkTestResult id id None None vp ok None None None None None None None in
  let results := [r "home" "desktop" false; r "about" "desktop" true;
                  r "home" "mobile" false] in
  getFailedScenarioIds Codec.parse_tests
    (record_failures Codec.stringify results "2024-01-01T00:00:00.000Z"
       (Some "old,desktop;"))
  = ["home"]
  /\ exit_code (summarize results 1200) = 1.
Proof.
  intros r results.
  pose proof (record_failures_round_trip Codec.stringify Codec.parse_tests
                results 1200 "2024-01-01T00:00:00.000Z" (Some "old,desktop;")
                eq_refl) as H.
  split; [reflexivity|].
  apply (proj1 (proj1 (proj2 (proj2 H))) eq_refl).
Defined.

End TrackerProperties.

(** ** The browser context around one capture *)

Section CaptureScreenshotFacts.
Import JS Payload CaptureScreenshot.
Variable path_join : string -> string -> string.
Variable rejects : list op -> op -> option thrown.

Lemma run_log (ops log : list op) :
  exists called : list op,
    snd (run rejects ops log) = log ++ called
    /\ called `prefix_of` ops
    /\ (fst (run rejects ops log) = None -> called = ops).
Proof.
  revert log. induction ops as [|o ops IH]; intros log; cbn [run].
  - exists []. cbn. by rewrite app_nil_r.
  - destruct (rejects log o) as [e|] eqn:Ho.
    + exists [o]. cbn [fst snd]. split; [done|].
      split; [by apply prefix_cons, prefix_nil|done].
    + destruct (IH (log ++ [o])) as (called & Hlog & Hpre & Hok).
      exists (o :: called). rewrite Hlog, <- app_assoc.
      split; [done|]. split; [by apply prefix_cons|].
      by intros ->%Hok.
Qed.

Lemma run_accepted (ops log : list op) :
  fst (run rejects ops log) = None -> snd (run rejects ops log) = log ++ ops.
Proof.
  intros H. destruct (run_log ops log) as (called & -> & _ & Hok).
  by rewrite (Hok H).
Qed.

Lemma prefix_no_close (called ops : list op) :
  called `prefix_of` ops ->
  List.filter is_close ops = [] -> List.filter is_close called = [].
Proof.
  intros [rest ->]. rewrite List.filter_app.
  by intros [? _]%app_eq_nil.
Qed.

Lemma setup_no_close (viewport : Viewport) (outputDir : string) :
  List.filter is_close (setup viewport outputDir) = [].
Proof. reflexivity. Qed.

Lemma body_no_close (latest : bool) (scenario : Scenario)
    (viewport : Viewport) (outputDir : string) :
  List.filter is_close
    (try_block path_join latest scenario viewport outputDir) = [].
Proof.
  destruct latest; unfold try_block, body, body_latest;
    rewrite !List.filter_app;
    destruct (0 <? wait_time_ms scenario),
      (0 <? length (interactions scenario))%nat, (full_page viewport);
    reflexivity.
Qed.

Lemma body_one_screenshot (latest : bool) (scenario : Scenario)
    (viewport : Viewport) (outputDir : string) :
  List.filter is_screenshot
    (try_block path_join latest scenario viewport outputDir)
  = [Screenshot (screenshotPath path_join scenario viewport outputDir)
       (full_page viewport)].
Proof.
  destruct latest; unfold try_block, body, body_latest;
    rewrite !List.filter_app;
    destruct (0 <? wait_time_ms scenario),
      (0 <? length (interactions scenario))%nat, (full_page viewport);
    reflexivity.
Qed.

End CaptureScreenshotFacts.

Section CaptureScreenshotProperties.
Import JS Payload CaptureScreenshot.

(** X13.  [captureScreenshot] with a launched browser, in both revisions
    of its [try] block and whatever any call throws: the context is closed
    at most once, it is closed exactly when the context and its page were
    created, and closing is then the last call made.  A [newPage] that
    throws after the context was opened leaves the context open: the call
    precedes the [try]. *)
Theorem captureScreenshot_context (path_join : string -> string -> string)
    (rejects : list op -> op -> option thrown) (latest : bool)
    (scenario : Scenario) (viewport : Viewport) (outputDir : string) :
  let done := captureScreenshot path_join rejects true latest scenario
                viewport outputDir in
  let log := snd done in
  let created := fst (run rejects (setup viewport outputDir) []) in
  (created = None ->
   List.filter is_close log = [CloseContext]
   /\ List.last log NewPage = CloseContext)
  /\ (forall e : thrown, created = Some e ->
      fst done = Thrown e /\ List.filter is_close log = [])
  /\ (forall e : thrown,
      rejects [] (EnsureDirectoryExists outputDir) = None ->
      rejects [EnsureDirectoryExists outputDir]
        (NewContext (width viewport) (viewportHeight viewport)
           (device_scale_factor viewport)) = None ->
      rejects [EnsureDirectoryExists outputDir;
               NewContext (width viewport) (viewportHeight viewport)
                 (device_scale_factor viewport)] NewPage = Some e ->
      done = (Thrown e, setup viewport outputDir)).
Proof.
  intros done log created. subst log done created.
  unfold captureScreenshot. cbn [negb].
  split; [|split].
  - intros Hc.
    pose proof (run_accepted rejects _ _ Hc) as Hlog.
    destruct (run rejects (setup viewport outputDir) []) as [r0 log0].
    cbn [fst snd] in Hc, Hlog. subst r0 log0. rewrite app_nil_l.
    destruct (run_log rejects
                (try_block path_join latest scenario viewport outputDir)
                (setup viewport outputDir))
      as (called & Hlog & Hpre & _).
    destruct (run rejects _ (setup viewport outputDir)) as [r1 log1].
    cbn [snd] in Hlog. subst log1.
    assert (Hcl : List.filter is_close
                    ((setup viewport outputDir ++ called) ++ [CloseContext])
                  = [CloseContext]).
    { rewrite !List.filter_app, setup_no_close.
      by rewrite (prefix_no_close _ _ Hpre (body_no_close _ _ _ _ _)). }
    destruct (rejects _ CloseContext); cbn [snd];
      (split; [exact Hcl|apply last_last]).
  - intros e He.
    destruct (run_log rejects (setup viewport outputDir) [])
      as (called & Hlog & Hpre & _).
    destruct (run rejects (setup viewport outputDir) []) as [r0 log0].
    cbn [fst snd] in He, Hlog. subst r0 log0. cbn [fst snd].
    split; [done|]. rewrite app_nil_l.
    exact (prefix_no_close _ _ Hpre (setup_no_close _ _)).
  - intros e H1 H2 H3. unfold setup. cbn [run app].
    by rewrite H1, H2, H3.
Qed.

(** X14.  [captureScreenshot] returns a path only when every call of the
    capture succeeded, [context.close()] included: the calls made are then
    the whole sequence, with one [page.screenshot], and the path returned
    is the one the screenshot was written to, [outputDir] joined with
    [generateFilename(scenario.id, viewport.machine_name)]. *)
Theorem captureScreenshot_returned (path_join : string -> string -> string)
    (rejects : list op -> op -> option thrown) (browser latest : bool)
    (scenario : Scenario) (viewport : Viewport) (outputDir p : string) :
  let done := captureScreenshot path_join rejects browser latest scenario
                viewport outputDir in
  fst done = Returned p ->
  p = path_join outputDir
        (Filename.generateFilename (id scenario) (machine_name viewport))
  /\ snd done
     = setup viewport outputDir
       ++ try_block path_join latest scenario viewport outputDir
       ++ [CloseContext]
  /\ List.filter is_screenshot (snd done) = [Screenshot p (full_page viewport)].
Proof.
  intros done. subst done. unfold captureScreenshot.
  destruct browser; cbn [negb]; [|done].
  pose proof (run_accepted rejects (setup viewport outputDir) []) as H0.
  destruct (run rejects (setup viewport outputDir) []) as [[e|] log0];
    [done|].
  cbn [fst snd] in H0. rewrite (H0 eq_refl), app_nil_l. clear H0 log0.
  pose proof (run_accepted rejects
                (try_block path_join latest scenario viewport outputDir)
                (setup viewport outputDir)) as H1.
  destruct (run rejects _ (setup viewport outputDir)) as [r1 log1].
  cbn [fst snd] in H1.
  destruct (rejects log1 CloseContext); [done|].
  destruct r1 as [e|]; [done|]. cbn [fst snd]. intros [= <-].
  rewrite (H1 eq_refl), <- app_assoc. split; [done|]. split; [done|].
  rewrite !List.filter_app, body_one_screenshot. reflexivity.
Qed.

(** A navigation that times out still closes the context. *)
Lemma captureScreenshot_context_witness :
  let rejects (log : list op) (o : op) :=
    match o with
    | Goto _ => Some (ErrorObj "page.goto: Timeout 30000ms exceeded.")
    | _ => None
    end in
  let viewport := mkViewport "desktop" "Desktop" 1280 0 1 true in
  let scenario := mkScenario "home" "Home" "https://a.test/" "static" 0
                    ["desktop"] [] in
  snd (captureScreenshot Reference.path_join rejects true true scenario
         viewport "./shots")
  = [EnsureDirectoryExists "./shots"; NewContext 1280 800 1; NewPage;
     SetDefaultTimeout; SetDefaultNavigationTimeout; Goto "https://a.test/";
     CloseContext]
  /\ List.last
       (snd (captureScreenshot Reference.path_join rejects true true scenario
               viewport "./shots")) NewPage
     = CloseContext.
Proof.
  intros rejects viewport scenario. split; [reflexivity|].
  apply (captureScreenshot_context Reference.path_join rejects true scenario
           viewport "./shots").
  reflexivity.
Defined.

(** A capture in which nothing throws. *)
Lemma captureScreenshot_returned_witness :
  let rejects (log : list op) (o : op) := @None thrown in
  let viewport := mkViewport "mobile" "Mobile" 375 667 2 false in
  let scenario := mkScenario "a/b" "A" "https://a.test/a/b" "static" 500
                    ["mobile"] [] in
  fst (captureScreenshot Reference.path_join rejects true false scenario
         viewport "./shots")
  = Returned "./shots/a_b__mobile.png"
  /\ List.filter is_screenshot
       (snd (captureScreenshot Reference.path_join rejects true false
               scenario viewport "./shots"))
     = [Screenshot "./shots/a_b__mobile.png" false].
Proof.
  intros rejects viewport scenario. split; [reflexivity|].
  apply (captureScreenshot_returned Reference.path_join rejects true false
           scenario viewport "./shots" "./shots/a_b__mobile.png").
  reflexivity.
Defined.

End CaptureScreenshotProperties.

(** ** Escaping in the report *)

Section ReportFacts.
Import Report.

Lemma replace_all_app (c : ascii) (by_ x y : string) :
  replace_all c by_ (x +:+ y) = replace_all c by_ x +:+ replace_all c by_ y.
Proof.
  induction x as [|d x IH].
  - by rewrite !string_app_nil_l.
  - rewrite string_app_cons. cbn [replace_all]. rewrite IH.
    destruct (Ascii.eqb d c).
    + by rewrite string_app_assoc.
    + by rewrite string_app_cons.
Qed.

Lemma escapeHtml_app (x y : string) :
  escapeHtml (x +:+ y) = escapeHtml x +:+ escapeHtml y.
Proof. unfold escapeHtml. by rewrite !replace_all_app. Qed.

Lemma escapeHtml_char (c : ascii) :
  escapeHtml (String c EmptyString) = entity c.
Proof. destruct c as [[|] [|] [|] [|] [|] [|] [|] [|]]; reflexivity. Qed.

Lemma occurs_app (c : ascii) (x y : string) :
  occurs c (x +:+ y) = occurs c x || occurs c y.
Proof.
  induction x as [|d x IH].
  - by rewrite string_app_nil_l.
  - rewrite string_app_cons. cbn [occurs]. by rewrite IH, orb_assoc.
Qed.

Lemma entity_markup (c d : ascii) :
  markup d = true -> occurs d (entity c) = false.
Proof.
  unfold markup. intros H.
  assert (Hd : d = "<"%char \/ d = ">"%char \/ d = double_quote
               \/ d = "'"%char).
  { apply orb_true_iff in H as [H|H];
      [|right; right; right; by apply Ascii.eqb_eq].
    apply orb_true_iff in H as [H|H];
      [|right; right; left; by apply Ascii.eqb_eq].
    apply orb_true_iff in H as [H|H]; [left|right; left];
      by apply Ascii.eqb_eq. }
  destruct Hd as [-> | [-> | [-> | ->]]];
    destruct c as [[|] [|] [|] [|] [|] [|] [|] [|]]; reflexivity.
Qed.

End ReportFacts.

Section ReportProperties.
Import Report.

(** X15.  [escapeHtml]: the five replacements made one after the other
    amount to mapping every character of the text once to its entity (the
    ampersands of the entities written by one pass are not escaped again by
    a later one), and the result holds none of the characters that open or
    close a tag or an attribute value. *)
Theorem escapeHtml_entities (text : string) :
  escapeHtml text = escape_each text
  /\ forall c : ascii, markup c = true -> occurs c (escapeHtml text) = false.
Proof.
  assert (H : escapeHtml text = escape_each text).
  { induction text as [|c text IH]; [done|].
    change (String c text) with (String c EmptyString +:+ text) at 1.
    rewrite escapeHtml_app, escapeHtml_char, IH. done. }
  split; [exact H|]. intros c Hc. rewrite H.
  induction text as [|d text IH]; [done|].
  cbn [escape_each]. rewrite occurs_app, (entity_markup _ _ Hc).
  apply IH. clear IH H.
  induction text as [|e text IH]; [done|].
  change (String e text) with (String e EmptyString +:+ text) at 1.
  rewrite escapeHtml_app, escapeHtml_char, IH. done.
Qed.

End ReportProperties.

(** ** Filtering the payload *)

Section ApiFacts.
Import JS Payload Api.

Lemma array_includes_elem (keys : list string) (k : string) :
  array_includes keys k = true <-> k ∈ keys.
Proof.
  unfold array_includes. rewrite existsb_exists. split.
  - intros (x & Hin & ->%String.eqb_eq). by apply list_elem_of_In.
  - intros Hin. exists k. split; [by apply list_elem_of_In|].
    apply String.eqb_refl.
Qed.

Lemma filter_elem {A : Type} (f : A -> bool) (l : list A) (x : A) :
  x ∈ List.filter f l <-> x ∈ l /\ f x = true.
Proof. by rewrite !list_elem_of_In, filter_In. Qed.

Lemma map_elem {A B : Type} (f : A -> B) (l : list A) (y : B) :
  y ∈ List.map f l <-> exists x, f x = y /\ x ∈ l.
Proof.
  rewrite list_elem_of_In, in_map_iff.
  split; intros (x & H1 & H2); exists x; by rewrite ?list_elem_of_In in *.
Qed.

Lemma build_viewportMap_known (viewports : list Viewport) (v : Viewport) :
  v ∈ viewports ->
  is_Some (CaptureAll.build_viewportMap viewports !! machine_name v).
Proof.
  unfold CaptureAll.build_viewportMap.
  assert (H : forall m : gmap string Viewport,
             v ∈ viewports \/ is_Some (m !! machine_name v) ->
             is_Some (fold_left (fun m v => <[machine_name v := v]> m)
                        viewports m !! machine_name v)).
  { induction viewports as [|x vs IH]; intros m Hm; cbn [fold_left].
    - destruct Hm as [Hm|Hm]; [by apply elem_of_nil in Hm|done].
    - apply IH. destruct Hm as [Hm|Hm].
      + apply elem_of_cons in Hm as [->|Hm]; [right|by left].
        rewrite lookup_insert_eq. by eexists.
      + right. destruct (decide (machine_name x = machine_name v)) as [E|E].
        * rewrite E, lookup_insert_eq. by eexists.
        * by rewrite lookup_insert_ne. }
  intros Hin. apply H. by left.
Qed.

Section Warned.
Import CaptureAll.
Variable viewportMap : gmap string Viewport.
Variable dir : string.

Lemma add_keys_warned (s : Scenario) (keys : list string) (b : builder) :
  (forall k, k ∈ keys -> is_Some (viewportMap !! k)) ->
  warned (fold_left (add_key viewportMap dir s) keys b) = warned b.
Proof.
  revert b. induction keys as [|k keys IH]; intros b Hk; [done|].
  cbn [fold_left]. rewrite IH by (intros k' Hk'; apply Hk; by right).
  unfold add_key. destruct (Hk k) as [v ->]; [by left|done].
Qed.

Lemma add_scenarios_warned (scenarios : list Scenario) (b : builder) :
  (forall s k, s ∈ scenarios -> k ∈ viewport_keys s ->
     is_Some (viewportMap !! k)) ->
  warned (fold_left (add_scenario viewportMap dir) scenarios b) = warned b.
Proof.
  revert b. induction scenarios as [|s scenarios IH]; intros b Hk; [done|].
  cbn [fold_left].
  rewrite IH by (intros s' k Hs'; apply Hk; by right).
  unfold add_scenario. apply add_keys_warned.
  intros k. apply Hk. by left.
Qed.
End Warned.

Lemma build_tasks_no_warning (payload : ApiPayload) (dir : string) :
  consistent payload ->
  CaptureAll.warned
    (CaptureAll.build_tasks (scenarios payload) (viewports payload) dir) = [].
Proof.
  intros Hc. unfold CaptureAll.build_tasks.
  rewrite add_scenarios_warned; [done|].
  intros s k Hs Hk. destruct (Hc s k Hs Hk) as (v & Hv & <-).
  by apply build_viewportMap_known.
Qed.

End ApiFacts.

Section ApiProperties.
Import JS Payload Api.

(** X16.  [fetchFilteredScenarios] with a viewport filter: the payload
    returned holds only viewports named by the filter; its scenarios are
    left with keys of the filter only, and with at least one; the counts of
    its [meta] are the lengths of its lists; and when every viewport key of
    the fetched payload named one of its viewports, the same holds of the
    filtered payload, so that [captureAll] builds one task for every key
    left and warns about none. *)
Theorem fetchFilteredScenarios_viewports (toLowerCase : string -> string)
    (payload : ApiPayload) (scenarioIds : option (list string))
    (key : string) (keys : list string) (dir : string) :
  exists filtered : ApiPayload,
    fetchFilteredScenarios toLowerCase (Returned payload) scenarioIds
      (Some (key :: keys)) = Returned filtered
    /\ (forall v, v ∈ viewports filtered ->
          v ∈ viewports payload /\ machine_name v ∈ key :: keys)
    /\ (forall s, s ∈ scenarios filtered ->
          viewport_keys s <> []
          /\ forall k, k ∈ viewport_keys s -> k ∈ key :: keys)
    /\ scenario_count (meta filtered) = length (scenarios filtered)
    /\ viewport_count (meta filtered) = length (viewports filtered)
    /\ (consistent payload ->
        consistent filtered
        /\ CaptureAll.warned
             (CaptureAll.build_tasks (scenarios filtered)
                (viewports filtered) dir) = []
        /\ length (CaptureAll.tasks
                     (CaptureAll.build_tasks (scenarios filtered)
                        (viewports filtered) dir))
           = CaptureAll.totalScreenshots (scenarios filtered)).
Proof.
  eexists. split; [reflexivity|]. cbn [viewports scenarios meta
    scenario_count viewport_count].
  set (picked := match provided scenarioIds with
                 | Some ids => List.filter (selects toLowerCase ids)
                                 (scenarios payload)
                 | None => scenarios payload
                 end).
  assert (Hpicked : forall s, s ∈ picked -> s ∈ scenarios payload).
  { intros s. subst picked. destruct (provided scenarioIds); [|done].
    by intros [? _]%filter_elem. }
  assert (Hv : forall v,
             v ∈ List.filter
                   (fun v => array_includes (key :: keys) (machine_name v))
                   (viewports payload) ->
             v ∈ viewports payload /\ machine_name v ∈ key :: keys).
  { intros v [Hin Hk]%filter_elem. split; [done|].
    by apply array_includes_elem. }
  assert (Hs : forall s,
             s ∈ List.filter
                   (fun s => (0 <? length (viewport_keys s))%nat)
                   (List.map
                      (fun s =>
                         with_viewport_keys s
                           (List.filter (array_includes (key :: keys))
                              (viewport_keys s))) picked) ->
             exists s0, s0 ∈ picked
               /\ viewport_keys s
                  = List.filter (array_includes (key :: keys))
                      (viewport_keys s0)
               /\ viewport_keys s <> []).
  { intros s [(s0 & <- & Hs0)%map_elem Hlen]%filter_elem.
    exists s0. split; [done|]. split; [done|].
    intros E. cbn [viewport_keys with_viewport_keys] in Hlen, E.
    by rewrite E in Hlen. }
  split; [exact Hv|]. split.
  { intros s (s0 & Hs0 & Hkeys & Hne)%Hs. split; [done|].
    intros k. rewrite Hkeys. intros [_ Hk]%filter_elem.
    by apply array_includes_elem. }
  split; [done|]. split; [done|].
  intros Hc.
  assert (Hcf : consistent
                  (mkApiPayload (meta payload)
                     (List.filter
                        (fun v => array_includes (key :: keys) (machine_name v))
                        (viewports payload))
                     (List.filter
                        (fun s => (0 <? length (viewport_keys s))%nat)
                        (List.map
                           (fun s =>
                              with_viewport_keys s
                                (List.filter (array_includes (key :: keys))
                                   (viewport_keys s))) picked)))).
  { intros s k. cbn [scenarios viewports].
    intros (s0 & Hs0 & Hkeys & _)%Hs. rewrite Hkeys.
    intros [Hk Hinc]%filter_elem.
    destruct (Hc s0 k (Hpicked _ Hs0) Hk) as (v & Hvin & <-).
    exists v. split; [|done]. apply filter_elem. by split. }
  split; [exact Hcf|].
  pose proof (build_tasks_no_warning _ dir Hcf) as Hw.
  cbn [scenarios viewports] in Hw. split; [exact Hw|].
  pose proof (build_tasks_well_built
                (List.filter
                   (fun s => (0 <? length (viewport_keys s))%nat)
                   (List.map
                      (fun s =>
                         with_viewport_keys s
                           (List.filter (array_includes (key :: keys))
                              (viewport_keys s))) picked))
                (List.filter
                   (fun v => array_includes (key :: keys) (machine_name v))
                   (viewports payload)) dir) as [_ Hcount].
  rewrite Hw in Hcount. cbn [length] in Hcount. lia.
Qed.

(** X17.  [fetchFilteredScenarios] without a viewport filter: a scenario
    whose id is listed is returned as it was fetched, with all its viewport
    keys; nothing is returned that was not fetched; and with no filter at
    all (absent or empty) the lists of the payload are returned as they
    are.  Hence a [--failed] run, whose filter is the list of scenario ids
    of the recorded failures, tests again every recorded failure whose
    scenario is still served. *)
Theorem fetchFilteredScenarios_ids (toLowerCase : string -> string)
    (parse_tests : string -> option (option (list Tracker.FailedTest)))
    (payload : ApiPayload) (scenarioIds : option (list string))
    (file : option string) :
  exists filtered failed : ApiPayload,
    fetchFilteredScenarios toLowerCase (Returned payload) scenarioIds None
    = Returned filtered
    /\ fetchFilteredScenarios toLowerCase (Returned payload)
         (Some (Tracker.getFailedScenarioIds parse_tests file)) None
       = Returned failed
    /\ viewports filtered = viewports payload
    /\ (forall s, s ∈ scenarios filtered -> s ∈ scenarios payload)
    /\ (forall ids s, scenarioIds = Some ids ->
          s ∈ scenarios payload -> id s ∈ ids -> s ∈ scenarios filtered)
    /\ (provided scenarioIds = None ->
        scenarios filtered = scenarios payload)
    /\ (forall t s, t ∈ Tracker.loadFailedTests parse_tests file ->
          s ∈ scenarios payload -> id s = Tracker.ft_scenarioId t ->
          s ∈ scenarios failed).
Proof.
  assert (Hsel : forall ids s, id s ∈ ids -> selects toLowerCase ids s = true).
  { intros ids s Hin. unfold selects. apply existsb_exists.
    exists (id s). split; [by apply list_elem_of_In|].
    by rewrite String.eqb_refl. }
  do 2 eexists. split; [reflexivity|]. split; [reflexivity|].
  cbn [viewports scenarios provided]. split; [done|]. split; [|split; [|split]].
  - intros s. destruct (provided scenarioIds); [|done].
    by intros [? _]%filter_elem.
  - intros ids s -> Hs Hid. destruct ids as [|i ids];
      [by apply elem_of_nil in Hid|].
    cbn [provided]. apply filter_elem. split; [done|]. by apply Hsel.
  - by intros ->.
  - intros t s Ht Hs Hid.
    assert (Hin : id s ∈ Tracker.getFailedScenarioIds parse_tests file).
    { unfold Tracker.getFailedScenarioIds, Tracker.unique.
      apply unique_from_elem. split; [|by intros ?%elem_of_nil].
      rewrite Hid. apply list_elem_of_fmap. by exists t. }
    destruct (Tracker.getFailedScenarioIds parse_tests file) as [|i ids];
      [by apply elem_of_nil in Hin|].
    cbn [provided]. apply filter_elem. split; [done|]. by apply Hsel.
Qed.

End ApiProperties.

(** ** The configuration loader *)

Section ConfigLoaderFacts.
Import JS ConfigLoader.
Variable valid_url : string -> bool.

Lemma push_if_nil (test : bool) (message : string) (errors : list string) :
  push_if test message errors = [] <-> test = false /\ errors = [].
Proof.
  unfold push_if. destruct test.
  - split; [by intros [? ?]%app_eq_nil|by intros [? _]].
  - split; [done|by intros [_ ?]].
Qed.

Lemma check_domain_nil (name : string) (domain : option string)
    (errors : list string) :
  check_domain valid_url name (of_option domain) errors = []
  <-> errors = []
      /\ forall d, domain = Some d -> trim d <> EmptyString ->
           valid_url d = true.
Proof.
  destruct domain as [d|]; cbn [check_domain of_option].
  - rewrite push_if_nil. split.
    + intros [Ht ->]. split; [done|]. intros ? [= <-] Hne.
      destruct (valid_url d); [done|]. exfalso.
      rewrite andb_false_iff, andb_false_iff in Ht.
      destruct Ht as [[Ht|Ht]|Ht]; [|by case_bool_decide|done].
      destruct d; [by apply Hne|done].
    + intros [-> H]. split; [|done].
      destruct (truthy d); [|done]. cbn [andb].
      case_bool_decide as E; [done|]. cbn [negb andb].
      by rewrite (H d eq_refl E).
  - split; [by intros ->|by intros [-> _]].
Qed.

(** The configurations that [validateConfig] lets through. *)
Lemma validateConfig_nil (c : VrtConfig) :
  validateConfig valid_url (as_partial c) = []
  <-> (truthy (endpoint c) = true /\ valid_url (endpoint c) = true)
      /\ (forall d, baselineDomain c = Some d -> trim d <> EmptyString ->
            valid_url d = true)
      /\ (forall d, testDomain c = Some d -> trim d <> EmptyString ->
            valid_url d = true)
      /\ (0 <= threshold (comparison c) /\ threshold (comparison c) <= 1)%Q
      /\ (0 <= maxDiffPixels (comparison c))%Q
      /\ (0 <= maxDiffPixelRatio (comparison c)
          /\ maxDiffPixelRatio (comparison c) <= 1)%Q
      /\ (0 <= timeout (playwright c))%Q
      /\ (0 <= navigationTimeout (playwright c))%Q
      /\ (1 <= workers (playwright c))%Q
      /\ isInteger (workers (playwright c)) = true.
Proof.
  unfold validateConfig.
  cbn [as_partial p_endpoint p_baselineDomain p_testDomain p_comparison
       p_playwright p_threshold p_maxDiffPixels p_maxDiffPixelRatio
       p_timeout p_navigationTimeout p_workers below above
       not_positive_integer].
  rewrite !push_if_nil, !check_domain_nil, !orb_false_iff, !Qgtb_false,
    negb_false_iff.
  destruct (truthy (endpoint c)).
  - rewrite push_if_nil, negb_false_iff. tauto.
  - split.
    + assert (Hx : @nil string ++ ["Missing required field: endpoint"] = []
                   -> False) by done.
      tauto.
    + by intros [[? _] _].
Qed.

Lemma merge_and_validate_returned (env : Env) (config : PartialConfig)
    (c : VrtConfig) :
  merge_and_validate valid_url env config = Returned c
  <-> c = deepMerge DEFAULT_CONFIG (with_env env config)
      /\ validateConfig valid_url (as_partial c) = [].
Proof.
  unfold merge_and_validate.
  destruct (validateConfig valid_url
              (as_partial (deepMerge DEFAULT_CONFIG (with_env env config))))
    as [|e errors] eqn:E.
  - split; [by intros [= <-]|by intros [-> _]].
  - split; [done|]. intros [-> H]. congruence.
Qed.

End ConfigLoaderFacts.

Section ConfigLoaderProperties.
Import JS ConfigLoader.

(** X18.  A configuration that [loadConfig] returns has passed every check
    of [validateConfig] with its defaults filled in: a non-empty endpoint
    that parses as a URL; baseline and test domains that parse when they
    are set and not blank; [threshold] and [maxDiffPixelRatio] within
    [0, 1]; [maxDiffPixels] and both timeouts non-negative; and a positive
    integer number of workers. *)
Theorem loadConfig_validated (valid_url : string -> bool)
    (file : config_file) (env : Env) (c : VrtConfig) :
  loadConfig valid_url file env = Returned c ->
  endpoint c <> EmptyString
  /\ valid_url (endpoint c) = true
  /\ (forall d, baselineDomain c = Some d -> trim d <> EmptyString ->
        valid_url d = true)
  /\ (forall d, testDomain c = Some d -> trim d <> EmptyString ->
        valid_url d = true)
  /\ (0 <= threshold (comparison c) /\ threshold (comparison c) <= 1)%Q
  /\ (0 <= maxDiffPixels (comparison c))%Q
  /\ (0 <= maxDiffPixelRatio (comparison c)
      /\ maxDiffPixelRatio (comparison c) <= 1)%Q
  /\ (0 <= timeout (playwright c))%Q
  /\ (0 <= navigationTimeout (playwright c))%Q
  /\ (1 <= workers (playwright c))%Q
  /\ (workers (playwright c) == inject_Z (Qfloor (workers (playwright c))))%Q.
Proof.
  intros H.
  assert (Hv : validateConfig valid_url (as_partial c) = []).
  { destruct file as [|p|p|e|config]; cbn [loadConfig] in H; try done;
      by apply merge_and_validate_returned in H as [_ ?]. }
  apply validateConfig_nil in Hv
    as ([He Hu] & Hb & Ht & Hth & Hm & Hr & Hto & Hn & Hw & Hi).
  split; [by destruct (endpoint c)|].
  repeat (split; [assumption|]). by apply Qeq_bool_iff.
Qed.

(** A file that gives the endpoint and the number of workers. *)
Lemma loadConfig_validated_witness :
  let valid_url (s : string) := String.prefix "https://" s in
  let config :=
    mkPartialConfig (Value "https://cms.test/api/vrt/pages") Null Undefined
      Undefined Undefined Undefined Undefined Undefined Undefined
      (Value (mkPartialPlaywright Undefined Undefined Undefined Undefined
                (Value 4%Q)))
      Undefined in
  let env := mkEnv None None None None None None in
  let c := deepMerge DEFAULT_CONFIG (with_env env config) in
  loadConfig valid_url (Parsed config) env = Returned c
  /\ (1 <= workers (playwright c))%Q.
Proof.
  intros valid_url config env c. split; [reflexivity|].
  apply (loadConfig_validated valid_url (Parsed config) env c).
  reflexivity.
Defined.

(** X19.  The [retries] section is not validated: when a configuration
    file loads, the same file with any other [retries], a negative or
    fractional [maxRetries] included, loads too, and the configuration
    returned differs in its [retries] only, which are the numbers of the
    file with 2 and 1000 for those it leaves out. *)
Theorem loadConfig_retries_unchecked (valid_url : string -> bool)
    (config : PartialConfig) (r : PartialRetries) (env : Env)
    (c : VrtConfig) :
  loadConfig valid_url (Parsed config) env = Returned c ->
  loadConfig valid_url (Parsed (ConfigUpdate.set_retries config r)) env
  = Returned
      (mkVrtConfig (endpoint c) (baselineDomain c) (testDomain c) (token c)
         (insecure c) (outputDir c) (baselineDir c) (diffDir c)
         (comparison c) (playwright c)
         (mkRetries (coalesce (p_maxRetries r) 2%Q)
            (coalesce (p_retryDelay r) 1000%Q))).
Proof.
  cbn [loadConfig]. intros [-> Hv]%merge_and_validate_returned.
  apply merge_and_validate_returned. split; [reflexivity|].
  exact Hv.
Qed.

(** A file that asks for [-1] retries loads. *)
Lemma loadConfig_retries_unchecked_witness :
  let valid_url (s : string) := String.prefix "https://" s in
  let config :=
    mkPartialConfig (Value "https://cms.test/api/vrt/pages") Undefined
      Undefined Undefined Undefined Undefined Undefined Undefined Undefined
      Undefined Undefined in
  exists c : VrtConfig,
    loadConfig valid_url
      (Parsed (ConfigUpdate.set_retries config
                 (mkPartialRetries (Value (-1)%Q) Undefined)))
      (mkEnv None None None None None None)
    = Returned c
    /\ maxRetries (retries c) = (-1)%Q.
Proof.
  intros valid_url config. eexists. split.
  - apply (loadConfig_retries_unchecked valid_url config
             (mkPartialRetries (Value (-1)%Q) Undefined)
             (mkEnv None None None None None None)).
    reflexivity.
  - reflexivity.
Defined.

End ConfigLoaderProperties.

(** ** The scroll through pages that stop growing *)

Section LazyScrollMoreFacts.
Import LazyScroll.
Variable scrollHeight : nat -> Z.

(** On a page that never grows beyond [limit], the timer without guards
    resolves as soon as the distance scrolled reaches the height of the
    body. *)
Lemma plain_timer_resolves (limit : Z) (fuel : nat) :
  (forall k, scrollHeight k <= limit) ->
  forall (k : nat) (totalHeight : Z) (log : list scroll_event),
    (0 < fuel)%nat ->
    limit <= totalHeight + distance * Z.of_nat fuel ->
    exists m : nat,
      (1 <= m <= fuel)%nat
      /\ Plain.timer scrollHeight fuel k totalHeight log
         = Some (mkResolved (m + k)%nat
                   (log ++ replicate m (ScrollBy 0 distance)
                        ++ [ScrollTo 0 0]))
      /\ scrollHeight (m + k - 1)%nat <= totalHeight + distance * Z.of_nat m
      /\ (totalHeight + distance * (Z.of_nat m - 1) < limit
          \/ m = 1%nat).
Proof.
  intros Hlimit. induction fuel as [|fuel IH];
    intros k totalHeight log Hpos Hfuel; [lia|].
  cbn [Plain.timer].
  destruct (Z.geb_spec (totalHeight + distance) (scrollHeight k)) as [Hge|Hlt].
  - exists 1%nat. split; [lia|]. split; [by rewrite <- app_assoc|].
    split; [|by right].
    replace (1 + k - 1)%nat with k by lia. lia.
  - pose proof (Hlimit k) as Hk.
    destruct (IH (S k) (totalHeight + distance)
                (log ++ [ScrollBy 0 distance])) as (m & Hm & -> & Hh & Hl);
      [unfold distance in *; lia..|].
    exists (S m). split; [lia|]. split.
    { rewrite <- app_assoc. do 2 f_equal. lia. }
    split.
    + replace (S m + k - 1)%nat with (m + S k - 1)%nat by lia. lia.
    + left. destruct Hl as [Hl| ->]; lia.
Qed.

(** Below the ceiling and within the time limit the guards do not fire:
    the two revisions of the timer agree. *)
Lemma guarded_timer_plain (startTime : Z) (now : nat -> Z) (fuel : nat) :
  (forall k, now k - startTime <= Guarded.maxScrollTime) ->
  (forall k, scrollHeight k <= Guarded.maxScrollHeight) ->
  forall (k : nat) (totalHeight : Z) (log : list scroll_event),
    totalHeight < Guarded.maxScrollHeight ->
    Guarded.timer startTime now scrollHeight fuel k totalHeight log
    = Plain.timer scrollHeight fuel k totalHeight log.
Proof.
  intros Hnow Hheight. induction fuel as [|fuel IH];
    intros k totalHeight log Htotal; [done|].
  cbn [Guarded.timer Plain.timer].
  destruct (Z.gtb_spec (now k - startTime) Guarded.maxScrollTime) as [H|_];
    [specialize (Hnow k); lia|].
  destruct (Z.geb_spec totalHeight Guarded.maxScrollHeight) as [H|_]; [lia|].
  destruct (Z.geb_spec (totalHeight + distance) (scrollHeight k)) as [H|H];
    [done|].
  apply IH. specialize (Hheight k). lia.
Qed.

End LazyScrollMoreFacts.

Section LazyScrollMoreProperties.
Import LazyScroll.

(** X20.  On a page whose body never grows beyond [limit] pixels the
    scroll step without guards does resolve: after [m] increments of 300
    pixels, where [m] is at least 1 and at most one more than it takes to
    reach [limit], the distance scrolled has reached the height of the
    body, and the last thing done is the return to the top. *)
Theorem plain_triggerLazyLoading_bounded_page (scrollHeight : nat -> Z)
    (limit : Z) (fuel : nat) :
  (forall k, scrollHeight k <= limit) ->
  (0 < fuel)%nat ->
  limit <= distance * Z.of_nat fuel ->
  exists m : nat,
    (1 <= m <= fuel)%nat
    /\ Plain.triggerLazyLoading scrollHeight fuel
       = Some (mkResolved m
                 (replicate m (ScrollBy 0 distance) ++ [ScrollTo 0 0]))
    /\ scrollHeight (m - 1)%nat <= distance * Z.of_nat m
    /\ (distance * (Z.of_nat m - 1) < limit \/ m = 1%nat).
Proof.
  intros Hlimit Hpos Hfuel.
  destruct (plain_timer_resolves scrollHeight limit fuel Hlimit O 0 [])
    as (m & Hm & Hrun & Hh & Hl); [done|lia|].
  exists m. split; [done|]. split.
  - unfold Plain.triggerLazyLoading. rewrite Hrun. by rewrite Nat.add_0_r.
  - rewrite Nat.add_0_r in Hh. split; [lia|].
    destruct Hl as [Hl|Hl]; [left; lia|by right].
Qed.

(** A page of 1000 pixels is scrolled through in four increments. *)
Lemma plain_triggerLazyLoading_bounded_page_witness :
  exists m : nat,
    (1 <= m <= 10)%nat
    /\ Plain.triggerLazyLoading (fun _ => 1000) 10
       = Some (mkResolved m
                 (replicate m (ScrollBy 0 distance) ++ [ScrollTo 0 0]))
    /\ 1000 <= distance * Z.of_nat m
    /\ (distance * (Z.of_nat m - 1) < 1000 \/ m = 1%nat).
Proof.
  apply (plain_triggerLazyLoading_bounded_page (fun _ => 1000) 1000 10).
  - intros k. lia.
  - lia.
  - unfold distance. lia.
Defined.

(** X21.  The guards of the later revision change nothing on ordinary
    pages: when the body never exceeds the ceiling of 50000 pixels and
    every callback of the timer runs within the 30 seconds, the guarded
    scroll step makes the same scrolls and resolves at the same callback
    as the revision without guards. *)
Theorem guarded_triggerLazyLoading_plain (startTime : Z)
    (now scrollHeight : nat -> Z) (fuel : nat) :
  (forall k, now k - startTime <= Guarded.maxScrollTime) ->
  (forall k, scrollHeight k <= Guarded.maxScrollHeight) ->
  Guarded.triggerLazyLoading startTime now scrollHeight fuel
  = Plain.triggerLazyLoading scrollHeight fuel.
Proof.
  intros Hnow Hheight. unfold Guarded.triggerLazyLoading,
    Plain.triggerLazyLoading.
  by apply guarded_timer_plain.
Qed.

(** Callbacks every 100 ms on a page of 1000 pixels. *)
Lemma guarded_triggerLazyLoading_plain_witness :
  Guarded.triggerLazyLoading 0 (fun k => Z.min (100 * Z.of_nat k) 30000)
    (fun _ => 1000) 10
  = Plain.triggerLazyLoading (fun _ => 1000) 10.
Proof.
  apply (guarded_triggerLazyLoading_plain 0
           (fun k => Z.min (100 * Z.of_nat k) 30000) (fun _ => 1000) 10).
  - intros k. unfold Guarded.maxScrollTime. lia.
  - intros k. unfold Guarded.maxScrollHeight. lia.
Defined.

End LazyScrollMoreProperties.

(** ** The diff artifact and the missing candidate *)

Section DiffArtifactProperties.
Import JS Fs Config Types Reference.

(** X22.  The diff artifact of the ODiff revision.  A [diffPath] in the
    result of [compareScreenshot] is the diff path of the key and names a
    file that exists; a result with [diffPixels == 0] has no [diffPath] and
    leaves no file at the diff path, a diff left there by an earlier run
    included; and a result with a positive [diffPixels] carries the diff
    path. *)
Theorem odiff_diff_artifact (config : VrtConfig)
    (path_join : string -> string -> string)
    (path_dirname : string -> string)
    (odiff : file -> file -> Q -> outcome ODiff.odiff_result)
    (scenarioId viewportKey screenshotPath : string) (w : World) :
  let artifact :=
    path_join (diffDir config) (ODiff.filename scenarioId viewportKey) in
  let done := ODiff.compareScreenshot config path_join path_dirname odiff
                scenarioId viewportKey screenshotPath w in
  artifact <> EmptyString ->
  (forall p, diffPath (fst done) = Some p ->
     p = artifact /\ is_Some (files (snd done) !! p))
  /\ (diffPixels (fst done) = Some 0 ->
      diffPath (fst done) = None /\ files (snd done) !! artifact = None)
  /\ (forall d, diffPixels (fst done) = Some d -> 0 < d ->
      diffPath (fst done) = Some artifact).
Proof.
  intros artifact done Hne. subst done.
  assert (Hgiven : given (Some artifact) = Some artifact).
  { unfold given. destruct artifact; [done|reflexivity]. }
  assert (Hclean : forall w0, files (ODiff.cleanup (Some artifact) w0)
                              !! artifact = None).
  { intros w0. unfold ODiff.cleanup. rewrite Hgiven.
    destruct (existsSync artifact w0) eqn:E.
    - cbn. apply lookup_delete_eq.
    - unfold existsSync in E. apply bool_decide_eq_false in E.
      by apply eq_None_not_Some. }
  assert (Hfail : forall (message : string) (w0 : World),
             (forall p, ODiff.cr_diffPath (ODiff.failure message) = Some p ->
                p = artifact /\ is_Some (files w0 !! p))
             /\ (Some (ODiff.cr_diffPixels (ODiff.failure message)) = Some 0 ->
                 ODiff.cr_diffPath (ODiff.failure message) = None
                 /\ files w0 !! artifact = None)
             /\ (forall d,
                   Some (ODiff.cr_diffPixels (ODiff.failure message)) = Some d ->
                   0 < d ->
                   ODiff.cr_diffPath (ODiff.failure message) = Some artifact)).
  { intros message w0. cbn. split; [done|]. split; [done|].
    intros d [= <-]. lia. }
  assert (Hzero : forall (warning : option string) (w0 : World),
             (forall p, @None string = Some p ->
                p = artifact
                /\ is_Some (files (ODiff.cleanup (Some artifact) w0) !! p))
             /\ (Some 0 = Some 0 ->
                 @None string = None
                 /\ files (ODiff.cleanup (Some artifact) w0) !! artifact
                    = None)
             /\ (forall d, Some 0 = Some d -> 0 < d ->
                   @None string = Some artifact)).
  { intros _ w0. split; [done|]. split; [by intros _|].
    intros d [= <-]. lia. }
  unfold ODiff.compareScreenshot. fold artifact.
  destruct (existsSync _ w); cbn [negb];
    [|cbn [fst snd diffPath diffPixels]; by repeat split].
  unfold ODiff.compare.
  destruct (existsSync _ w); cbn [negb];
    [|cbn [fst snd diffPath diffPixels]; apply Hfail].
  destruct (existsSync screenshotPath w); cbn [negb];
    [|cbn [fst snd diffPath diffPixels]; apply Hfail].
  rewrite Hgiven. unfold ODiff.run_odiff. rewrite Hgiven.
  set (w0 := ensureDirectoryExists (path_dirname artifact) w).
  destruct (files w0 !! _) as [base|];
    [|cbn [fst snd diffPath diffPixels]; apply Hfail].
  destruct (files w0 !! screenshotPath) as [cmp|];
    [|cbn [fst snd diffPath diffPixels]; apply Hfail].
  destruct (odiff base cmp (threshold config)) as [[| |f|d pct img]|err];
    cbn [fst snd diffPath diffPixels ODiff.cr_diffPath ODiff.cr_diffPixels];
    [apply (Hzero None)|apply (Hzero None)|apply Hfail| |apply Hfail].
  destruct (Z.eqb_spec d 0) as [->|Hd];
    cbn [fst snd diffPath diffPixels ODiff.cr_diffPath ODiff.cr_diffPixels];
    [apply (Hzero None)|].
  assert (Hwritten : files (writeFileSync artifact (Png img)
                              (log (PixelCompare
                                      (path_join (baselineDir config)
                                         (ODiff.filename scenarioId
                                            viewportKey)) screenshotPath) w0))
                     !! artifact = Some (Png img)).
  { cbn. apply lookup_insert_eq. }
  rewrite (existsSync_Some _ _ _ Hwritten).
  split; [|split; [by intros [= ?]|done]].
  intros p [= <-]. split; [done|]. by rewrite Hwritten.
Qed.

(** A candidate equal to its baseline removes the diff of an earlier
    run. *)
Lemma odiff_diff_artifact_witness :
  let w := world [("./baselines/home__desktop.png", Png white2);
                  ("./shots/home__desktop.png", Png white2);
                  ("./diffs/home__desktop.png", Png spotted2)] in
  files (snd (ODiff.compareScreenshot config path_join path_dirname odiff
                "home" "desktop" "./shots/home__desktop.png" w))
    !! "./diffs/home__desktop.png"
  = None.
Proof.
  intros w.
  apply (odiff_diff_artifact config path_join path_dirname odiff "home"
           "desktop" "./shots/home__desktop.png" w).
  - discriminate.
  - reflexivity.
Defined.

(** X23.  A candidate that is not on disk, with its baseline present:
    both revisions of [compareScreenshot] fail the test without calling the
    comparison library and without touching the file system.  The
    pixelmatch revision reports the error thrown by [compare]; the ODiff
    revision reports [diffPixels == -1] and 100 percent, and no error: the
    message of [compare] is not copied to the result. *)
Theorem candidate_missing (config : VrtConfig)
    (path_join : string -> string -> string)
    (path_dirname : string -> string)
    (pixelmatch : list Z -> list Z -> Z -> Z -> Q -> Z * list Z)
    (odiff : file -> file -> Q -> outcome ODiff.odiff_result)
    (scenarioId viewportKey screenshotPath : string) (baseline : file)
    (w : World) :
  let old := Pixelmatch.compareScreenshot config path_join path_dirname
               pixelmatch scenarioId viewportKey screenshotPath w in
  let new := ODiff.compareScreenshot config path_join path_dirname odiff
               scenarioId viewportKey screenshotPath w in
  files w !! path_join (baselineDir config)
               (ODiff.filename scenarioId viewportKey) = Some baseline ->
  files w !! screenshotPath = None ->
  (snd old = w /\ passed (fst old) = false
   /\ error (fst old) = Some ("Screenshot not found: " +:+ screenshotPath)
   /\ diffPixels (fst old) = None)
  /\ (snd new = w /\ passed (fst new) = false
      /\ error (fst new) = None
      /\ diffPixels (fst new) = Some (-1)
      /\ diffPercentage (fst new) = Some (Fin 100)).
Proof.
  intros old new Hb Hc. subst old new.
  unfold Pixelmatch.compareScreenshot, ODiff.compareScreenshot,
    Pixelmatch.compare, ODiff.compare.
  change (Pixelmatch.filename scenarioId viewportKey)
    with (ODiff.filename scenarioId viewportKey).
  rewrite (existsSync_Some _ _ _ Hb), (existsSync_None _ _ Hc).
  cbn [negb fst snd]. by repeat split.
Qed.

(** A run whose capture left no file. *)
Lemma candidate_missing_witness :
  let w := world [("./baselines/home__desktop.png", Png white2)] in
  error (fst (ODiff.compareScreenshot config path_join path_dirname odiff
                "home" "desktop" "./shots/home__desktop.png" w))
  = None.
Proof.
  intros w.
  apply (candidate_missing config path_join path_dirname pixelmatch odiff
           "home" "desktop" "./shots/home__desktop.png" (Png white2) w).
  - reflexivity.
  - reflexivity.
Defined.

End DiffArtifactProperties.

(** ** The timeout of a test of the Playwright test file *)

Section TestFileFacts.
Import JS Interactions Payload TestFile.
Variable rejects : list call -> call -> option thrown.

Lemma waited_app (l1 l2 : list call) :
  waited (l1 ++ l2) = waited l1 + waited l2.
Proof.
  induction l1 as [|c l1 IH]; [done|].
  destruct c; cbn [app waited]; lia.
Qed.

Lemma positive_wait_pos (i : Interaction) (ms : Z) :
  positive_wait i = Some ms -> 0 < ms.
Proof.
  unfold positive_wait. destruct (wait_ms i) as [n|]; [|done].
  destruct (Z.ltb_spec 0 n); [by intros [= <-]|done].
Qed.

Lemma await_waited (c : call) (log : list call) :
  waited (snd (await rejects c log)) = waited log + waited [c].
Proof.
  unfold await. destruct (rejects log c); cbn [snd]; apply waited_app.
Qed.

Lemma await_returned (c : call) (log log' : list call) (o : outcome unit) :
  await rejects c log = (o, log') -> log' = log ++ [c].
Proof. unfold await. destruct (rejects log c); by intros [= _ <-]. Qed.

Lemma step_waited (i : Interaction) (log : list call) :
  match dispatch rejects i log with
  | (Returned _, log1) =>
      match settle rejects i log1 with
      | (Returned _, log2) => waited log2 = waited log + budget i
      | (Thrown _, log2) => waited log2 <= waited log + budget i
      end
  | (Thrown _, log1) => waited log1 <= waited log + budget i
  end.
Proof.
  unfold dispatch, settle, budget.
  pose proof (positive_wait_pos i) as Hpos.
  repeat case_bool_decide; try congruence;
    repeat match goal with
      | |- context [truthy ?s] => destruct (truthy s)
      | |- context [value ?x] => destruct (value x)
      | |- context [positive_wait ?x] =>
          let E := fresh in destruct (positive_wait x) eqn:E;
          [specialize (Hpos _ eq_refl)|clear Hpos]
      | |- context [await rejects ?c ?l] =>
          let E := fresh in
          let o := fresh in
          destruct (await rejects c l) as [[o|o] ?] eqn:E;
          apply await_returned in E; subst
      end;
    rewrite ?waited_app; cbn [waited]; lia.
Qed.

Lemma calculateTotalWaitTime_fold (interactions : list Interaction) (t : Z) :
  fold_left
    (fun totalWaitMs i =>
       match positive_wait i with
       | Some ms => totalWaitMs + ms
       | None => totalWaitMs
       end) interactions t
  = t + foldr (fun i n => budget i + n) 0 interactions.
Proof.
  revert t. induction interactions as [|i rest IH]; intros t; cbn; [lia|].
  rewrite IH. unfold budget. destruct (positive_wait i); lia.
Qed.

Lemma budget_nonneg (i : Interaction) : 0 <= budget i.
Proof.
  unfold budget. pose proof (positive_wait_pos i) as H.
  destruct (positive_wait i) as [ms|]; [|lia].
  specialize (H ms eq_refl). lia.
Qed.

Lemma budgets_nonneg (l : list Interaction) :
  0 <= foldr (fun i n => budget i + n) 0 l.
Proof.
  induction l as [|i l IH]; cbn [foldr]; [lia|].
  pose proof (budget_nonneg i). lia.
Qed.

Lemma executeInteractions_waited (interactions : list Interaction) :
  forall log : list call,
    match executeInteractions rejects interactions log with
    | (Returned _, log') =>
        waited log'
        = waited log + foldr (fun i n => budget i + n) 0 interactions
    | (Thrown _, log') =>
        waited log'
        <= waited log + foldr (fun i n => budget i + n) 0 interactions
    end.
Proof.
  pose proof budgets_nonneg as Hnn.
  induction interactions as [|i rest IH]; intros log;
    cbn [executeInteractions foldr]; [lia|].
  pose proof (step_waited i log) as Hstep. pose proof (Hnn rest).
  destruct (dispatch rejects i log) as [[u|err] log1]; [|lia].
  destruct (settle rejects i log1) as [[u'|err] log2]; [|lia].
  specialize (IH log2).
  destruct (executeInteractions rejects rest log2) as [[u''|err] log3]; lia.
Qed.

End TestFileFacts.

Section TestFileProperties.
Import JS Interactions Payload TestFile.

(** X24.  The timeout set for a test of the Playwright test file covers
    the waits the test makes on purpose: for a scenario whose
    [wait_time_ms] is not negative, the time asked of [page.waitForTimeout]
    by the scenario wait and by [executeInteractions] is at most
    [calculateTestTimeout] less the 45 seconds of base and screenshot
    budget (60 for a full-page viewport), and exactly that when no call
    throws. *)
Theorem calculateTestTimeout_covers_waits
    (rejects : list call -> call -> option thrown) (scenario : Scenario)
    (isFullPage : bool) :
  0 <= wait_time_ms scenario ->
  let done := run_waits rejects scenario [] in
  let buffers := if isFullPage then 60000 else 45000 in
  waited (snd done) + buffers <= calculateTestTimeout scenario isFullPage
  /\ (forall u, fst done = Returned u ->
      waited (snd done) + buffers = calculateTestTimeout scenario isFullPage).
Proof.
  intros Hw done buffers. subst done buffers.
  unfold calculateTestTimeout, calculateTotalWaitTime, run_waits.
  rewrite calculateTotalWaitTime_fold.
  pose proof (executeInteractions_waited rejects (interactions scenario))
    as Hexec.
  pose proof (budgets_nonneg (interactions scenario)) as Hnn.
  assert (Hempty : (0 <? length (interactions scenario))%nat = false ->
                   foldr (fun i n => budget i + n) 0 (interactions scenario)
                   = 0).
  { destruct (interactions scenario); [done|]. by cbn. }
  destruct (Z.eqb_spec (wait_time_ms scenario) 0) as [E|E].
  - rewrite E. cbn [Z.ltb Z.compare].
    specialize (Hexec []).
    destruct (0 <? length (interactions scenario))%nat.
    + destruct (executeInteractions rejects (interactions scenario) [])
        as [[u|err] log']; cbn [fst snd waited] in *;
        destruct isFullPage; (split; [lia|intros; try done; lia]).
    + rewrite (Hempty eq_refl). cbn [fst snd waited].
      destruct isFullPage; (split; [lia|intros; lia]).
  - destruct (Z.ltb_spec 0 (wait_time_ms scenario)) as [_|?]; [|lia].
    unfold await. specialize (Hexec [PageWaitForTimeout (wait_time_ms scenario)]).
    cbn [app waited] in Hexec.
    destruct (rejects [] (PageWaitForTimeout (wait_time_ms scenario)));
      cbn [app fst snd waited].
    + destruct isFullPage; (split; [lia|intros; try done; lia]).
    + destruct (0 <? length (interactions scenario))%nat.
      * destruct (executeInteractions rejects (interactions scenario) _)
          as [[u|err] log']; cbn [fst snd waited] in *;
          destruct isFullPage; (split; [lia|intros; try done; lia]).
      * rewrite (Hempty eq_refl). cbn [fst snd waited].
        destruct isFullPage; (split; [lia|intros; lia]).
Qed.

(** A scenario that waits 500 ms, clicks and settles for 250 ms. *)
Lemma calculateTestTimeout_covers_waits_witness :
  let scenario := mkScenario "home" "Home" "https://a.test/" "interactive"
                    500 ["desktop"]
                    [mkInteraction "click" "#menu" None (Some 250)] in
  waited (snd (run_waits (fun _ _ => None) scenario [])) + 60000
  <= calculateTestTimeout scenario true.
Proof.
  intros scenario.
  apply (calculateTestTimeout_covers_waits (fun _ _ => None) scenario true).
  cbn. lia.
Defined.

End TestFileProperties.

(** ** The report: image names and counts *)

Section ReportImagesFacts.
Import Types ReportImages.

(** A decimal numeral followed by an underscore is read back in one way
    only. *)
Lemma string_of_uint_split (d1 : Decimal.uint) :
  forall (d2 : Decimal.uint) (r1 r2 : string),
    DecimalString.NilEmpty.string_of_uint d1 +:+ String "_" r1
    = DecimalString.NilEmpty.string_of_uint d2 +:+ String "_" r2 ->
    d1 = d2 /\ r1 = r2.
Proof.
  induction d1 as [|d1 IH|d1 IH|d1 IH|d1 IH|d1 IH|d1 IH|d1 IH|d1 IH|d1 IH
                   |d1 IH];
    intros [|d2|d2|d2|d2|d2|d2|d2|d2|d2|d2] r1 r2;
    cbn [DecimalString.NilEmpty.string_of_uint];
    rewrite ?string_app_cons, ?string_app_nil_l; intros H;
    try discriminate H;
    try (injection H as H; destruct (IH _ _ _ H) as [-> ->]; done).
  by injection H as ->.
Qed.

Lemma decimal_split (i1 i2 : nat) (r1 r2 : string) :
  decimal i1 +:+ String "_" r1 = decimal i2 +:+ String "_" r2 ->
  i1 = i2 /\ r1 = r2.
Proof.
  unfold decimal. intros [H ->]%string_of_uint_split. split; [|done].
  by apply DecimalNat.Unsigned.to_uint_inj.
Qed.

Lemma filter_status_length (results : list TestResult) (ok : bool) :
  length (List.filter
            (fun r => String.eqb (status r)
                        (if ok then "passed" else "failed"))
            (reportResults results))
  = length (List.filter (fun r => if ok then passed r else negb (passed r))
              results).
Proof.
  unfold reportResults. induction results as [|r results IH]; [done|].
  cbn [List.map List.filter status].
  assert (Hs : String.eqb (if passed r then "passed" else "failed")
                 (if ok then "passed" else "failed")
               = (if ok then passed r else negb (passed r)))
    by (by destruct ok, (passed r)).
  rewrite Hs.
  destruct (if ok then passed r else negb (passed r)); cbn [length];
    by rewrite IH.
Qed.

End ReportImagesFacts.

Section ReportImagesProperties.
Import Types ReportImages.

(** X25.  The images that [generateReport] copies never overwrite one
    another: the name under which an image is copied determines its kind
    (baseline, current or diff) and the index of its result, whatever the
    base names of the files are. *)
Theorem image_name_unique (path_basename : string -> string)
    (k1 k2 : kind) (i1 i2 : nat) (source1 source2 : string) :
  image_name path_basename k1 i1 source1
  = image_name path_basename k2 i2 source2 ->
  k1 = k2 /\ i1 = i2 /\ path_basename source1 = path_basename source2.
Proof.
  unfold image_name.
  destruct k1, k2; cbn [prefix_of];
    rewrite ?string_app_cons, ?string_app_nil_l; intros H;
    try discriminate H; injection H as H;
    apply decimal_split in H as [-> ->]; done.
Qed.

(** Two screenshots with the same base name, copied for the same result,
    are the one case in which the names agree. *)
Lemma image_name_unique_witness :
  let basename (p : string) := "home__desktop.png" in
  Current = Current /\ 1%nat = 1%nat
  /\ basename "./shots/home__desktop.png"
     = basename "./other/home__desktop.png".
Proof.
  intros basename.
  apply (image_name_unique basename Current Current 1 1
           "./shots/home__desktop.png" "./other/home__desktop.png").
  reflexivity.
Defined.

(** X26.  The counts of the report are those of the run: for the results
    that run-tests hands to [generateReport], [passedTests] and
    [failedTests] equal [passed] and [failed] of the summary, and they add
    up to [totalTests]. *)
Theorem report_counts (results : list TestResult) (duration : Z) :
  let report := stats (reportResults results) in
  let summary := Tracker.summarize results duration in
  totalTests report = Tracker.total summary
  /\ passedTests report = Tracker.passed_total summary
  /\ failedTests report = Tracker.failed_total summary
  /\ totalTests report = (passedTests report + failedTests report)%nat.
Proof.
  intros report summary. subst report summary.
  cbn [stats totalTests passedTests failedTests Tracker.summarize
       Tracker.total Tracker.passed_total Tracker.failed_total].
  rewrite (filter_status_length results true),
    (filter_status_length results false).
  split; [unfold reportResults; apply length_map|].
  split; [done|]. split; [done|].
  unfold reportResults. rewrite length_map. symmetry.
  apply (filter_split_length passed results).
Qed.

End ReportImagesProperties.

(** ** The map of captures that [captureAll] returns *)

Section CollectFacts.
Import JS CaptureAll.

Lemma collect_fold_lookup (rs : list Pool.Capture.CaptureResult) :
  forall (m : gmap string string) (k p : string),
    fold_left
      (fun m r =>
         if succeeded r then <[Pool.Capture.key r := Pool.Capture.path r]> m
         else m) rs m !! k = Some p ->
    m !! k = Some p
    \/ exists r, r ∈ rs /\ succeeded r = true /\ Pool.Capture.key r = k
                 /\ Pool.Capture.path r = p.
Proof.
  induction rs as [|r rs IH]; intros m k p; cbn [fold_left]; [by left|].
  intros [H|(r' & Hin & Hr')]%IH.
  - destruct (succeeded r) eqn:Hs; [|by left].
    destruct (decide (Pool.Capture.key r = k)) as [E|E].
    + rewrite E, lookup_insert_eq in H. injection H as H.
      right. exists r. split; [by left|done].
    + rewrite lookup_insert_ne in H by done. by left.
  - right. exists r'. split; [by right|done].
Qed.

Lemma collect_fold_known (rs : list Pool.Capture.CaptureResult) :
  forall (m : gmap string string) (k : string),
    is_Some (m !! k)
    \/ (exists r, r ∈ rs /\ succeeded r = true /\ Pool.Capture.key r = k) ->
    is_Some
      (fold_left
         (fun m r =>
            if succeeded r
            then <[Pool.Capture.key r := Pool.Capture.path r]> m
            else m) rs m !! k).
Proof.
  induction rs as [|r rs IH]; intros m k; cbn [fold_left].
  - intros [H|(r & Hin & _)]; [done|by apply elem_of_nil in Hin].
  - intros [H|(r' & Hin & Hs & Hk)]; apply IH.
    + left. destruct (succeeded r); [|done].
      destruct (decide (Pool.Capture.key r = k)) as [E|E].
      * rewrite E, lookup_insert_eq. by eexists.
      * by rewrite lookup_insert_ne.
    + apply elem_of_cons in Hin as [->|Hin].
      * left. rewrite Hs, Hk, lookup_insert_eq. by eexists.
      * right. by exists r'.
Qed.

Lemma succeeded_finish (task : Pool.Capture.CaptureTask)
    (o : outcome string) :
  succeeded (Pool.Capture.finish task o) = true
  <-> exists p, o = Returned p /\ p <> EmptyString.
Proof.
  destruct o as [p|err]; cbn.
  - destruct p; cbn; split; try done.
    + by intros (p & [= <-] & ?).
    + intros _. by eexists.
  - split; [|by intros (p & [=] & _)].
    destruct (message_or "Unknown error" err); cbn; [done|done].
Qed.

End CollectFacts.

Section CollectProperties.
Import JS CaptureAll.

(** X27.  The map that [captureAll] returns holds the captures that
    succeeded and nothing else: every entry is the path returned by the
    capture of a task with that key, and every task whose capture returned
    a path has an entry under its key; a capture that threw adds
    nothing. *)
Theorem captureAll_results
    (captured : list (Pool.Capture.CaptureTask * outcome string)) :
  let key (task : Pool.Capture.CaptureTask) :=
    Pool.Capture.scenario_id task +:+ "__"
    +:+ Pool.Capture.viewport_machine_name task in
  let results :=
    collect ((fun c => Pool.Capture.finish c.1 c.2) <$> captured) in
  (forall k p, results !! k = Some p ->
     p <> EmptyString
     /\ exists task, (task, Returned p) ∈ captured /\ key task = k)
  /\ (forall task p, (task, Returned p) ∈ captured -> p <> EmptyString ->
        is_Some (results !! key task))
  /\ (size results <= length captured)%nat.
Proof.
  intros key results. subst key results. unfold collect. split; [|split].
  - intros k p [H|(r & Hin & Hs & Hk & Hp)]%collect_fold_lookup;
      [by rewrite lookup_empty in H|].
    apply list_elem_of_fmap in Hin as ([task o] & -> & Hin).
    apply succeeded_finish in Hs as (p' & Ho & Hne). cbn [fst snd] in *.
    subst o. cbn in Hp, Hk. subst p' k. split; [done|]. by exists task.
  - intros task p Hin Hne. apply collect_fold_known. right.
    exists (Pool.Capture.finish task (Returned p)). split.
    + apply list_elem_of_fmap. by exists (task, Returned p).
    + split; [|done]. apply succeeded_finish. by exists p.
  - etrans; [apply collect_size|]. rewrite map_size_empty. cbn [Nat.add].
    pose proof (filter_split_length succeeded
                  ((fun c => Pool.Capture.finish c.1 c.2) <$> captured))
      as H.
    rewrite length_fmap in H. lia.
Qed.

End CollectProperties.
